(** * Wallet-provider pages over the MEE execution client

    A shallow embedding of the demo pages of the repository
    (src/pages/PrivyExample.tsx, ParaExample.tsx, DynamicExample.tsx and
    BiconomyExample.tsx) and of the signer adapters they build, together
    with the properties the specification states about them.

    Conventions of the embedding:
    - a JavaScript string is a [string]; its characters stand for the code
      units 0..255;
    - a [bigint] is a [Z]; an integral [number] is a [Z] as well, which
      stands for the double nearest to it;
    - an awaited call either resolves or rejects: [outcome];
    - the SDKs, the browser and the chain RPC are outside the repository:
      their answers are read from a [World] record, and every call made to
      them is written to a trace of [event]s;
    - React state is a record that the handlers thread through a small
      state-and-trace monad. *)

From Stdlib Require Import ZArith Lia Bool Ascii String DecimalString DecimalZ.
From stdpp Require Import base list strings.

Set Warnings "-register-all".

Local Open Scope string_scope.
Local Open Scope list_scope.
Local Open Scope Z_scope.

(** ** JavaScript values, errors and promises *)

Module Js.

(** A thrown value, seen through the three observations the pages make of
    it: [err instanceof Error], [err.message] and [String(err)]. *)
Record thrown := Thrown {
  instanceof_Error : bool;
  message : option string;
  to_String : string
}.

(** [new Error(msg)] *)
Definition Error (msg : string) : thrown :=
  {| instanceof_Error := true; message := Some msg; to_String := "Error: " +:+ msg |}.

(** [new TypeError(msg)] *)
Definition TypeError (msg : string) : thrown :=
  {| instanceof_Error := true; message := Some msg; to_String := "TypeError: " +:+ msg |}.

(** [new RangeError(msg)] *)
Definition RangeError (msg : string) : thrown :=
  {| instanceof_Error := true; message := Some msg; to_String := "RangeError: " +:+ msg |}.

(** The settlement of an awaited promise (or the completion of a call). *)
Inductive outcome (A : Type) : Type :=
| Resolved (a : A)
| Rejected (e : thrown).
Arguments Resolved {A} a.
Arguments Rejected {A} e.

Definition is_resolved {A} (o : outcome A) : bool :=
  match o with Resolved _ => true | Rejected _ => false end.

(** [`${x}`] for an optional string: [undefined] prints as ["undefined"]. *)
Definition template (x : option string) : string :=
  match x with Some s => s | None => "undefined" end.

(** *** Strings *)

Definition chars (s : string) : list ascii := list_ascii_of_string s.
Definition of_chars (l : list ascii) : string := string_of_list_ascii l.

(** WhiteSpace and LineTerminator code units below 256: TAB, LF, VT, FF,
    CR, SP and NBSP. *)
Definition is_whitespace (c : ascii) : bool :=
  let n := N_of_ascii c in
  ((9 <=? n) && (n <=? 13) || (n =? 32) || (n =? 160))%N.

Fixpoint drop_whitespace (l : list ascii) : list ascii :=
  match l with
  | [] => []
  | c :: l' => if is_whitespace c then drop_whitespace l' else l
  end.

(** [String.prototype.trim] *)
Definition trim (s : string) : string :=
  of_chars (reverse (drop_whitespace (reverse (drop_whitespace (chars s))))).

(** A string with nothing but white space in it (the empty string
    included). *)
Definition blank (s : string) : bool := forallb is_whitespace (chars s).

(** [s.length] *)
Definition str_length (s : string) : Z := Z.of_nat (String.length s).

(** *** Numbers and bigints in base 10 and 16 *)

(** [BigInt.prototype.toString()]: base 10, a leading [-] for negatives,
    no leading zeros. *)
Definition BigInt_toString (z : Z) : string :=
  NilZero.string_of_int (Z.to_int z).

(** A number is a double. An integer stands for the double nearest to
    it, ties to the even significand, as the literal of that integer
    does; past the largest double the number is [Infinity]. Below [2^53]
    every integer is a double. *)
Definition nearest_double (n : Z) : option Z :=
  if n <? 2 ^ 53 then Some n
  else
    let e := Z.log2 n - 52 in
    let q := n / 2 ^ e in
    let r := n mod 2 ^ e in
    let half := 2 ^ (e - 1) in
    let q' := if r <? half then q
              else if half <? r then q + 1
              else if Z.even q then q else q + 1 in
    if q' * 2 ^ e <? 2 ^ 1024 then Some (q' * 2 ^ e) else None.

Definition is_finite (n : Z) : bool :=
  match nearest_double (Z.abs n) with Some _ => true | None => false end.

Definition decimal_digits (n : Z) : Z := Z.of_nat (String.length (BigInt_toString n)).

(** The integer [c] reads back as the double [v] (from [2^53] on): it
    lies between the midpoints to the neighbours of [v], the midpoints
    included when the significand of [v] is even. The bounds are taken
    four times, to stay among the integers. *)
Definition reads_back_as (v c : Z) : bool :=
  let e := Z.log2 v - 52 in
  let m := v / 2 ^ e in
  let low4 := 4 * v - (if m =? 2 ^ 52 then 2 ^ e else 2 ^ (e + 1)) in
  let high4 := 4 * v + 2 ^ (e + 1) in
  ((low4 <? 4 * c) && (4 * c <? high4))
  || (Z.even m && ((4 * c =? low4) || (4 * c =? high4))).

(** Number::toString picks the decimal with the fewest significant
    digits that reads back as the number, and among those the nearest.
    With [k] significant digits the candidates are the two multiples of
    the power of ten around [v]. Seventeen digits always suffice. *)
Fixpoint shortest_from (fuel : nat) (k : Z) (v : Z) : Z :=
  match fuel with
  | O => v
  | S fuel' =>
      let p := 10 ^ Z.max 0 (decimal_digits v - k) in
      let below := v / p * p in
      let above := below + p in
      match reads_back_as v below, reads_back_as v above with
      | true, true =>
          if v - below <? above - v then below
          else if above - v <? v - below then above
          else if Z.even (v / p) then below else above
      | true, false => below
      | false, true => above
      | false, false => shortest_from fuel' (k + 1) v
      end
  end.

Definition shortest_decimal (v : Z) : Z := shortest_from 17 1 v.

Fixpoint drop_zeros (l : list ascii) : list ascii :=
  match l with
  | c :: rest => if Ascii.eqb c "0" then drop_zeros rest else l
  | [] => []
  end.

(** [d.ddde+x], for a decimal of more than 21 digits. *)
Definition exponent_form (c : Z) : string :=
  match reverse (drop_zeros (reverse (list_ascii_of_string (BigInt_toString c)))) with
  | [] => "0"
  | [d] =>
      string_of_list_ascii [d] +:+ "e+" +:+ BigInt_toString (decimal_digits c - 1)
  | d :: rest =>
      string_of_list_ascii (d :: "."%char :: rest) +:+ "e+"
      +:+ BigInt_toString (decimal_digits c - 1)
  end.

(** [Number.prototype.toString()] on an integral number: every digit
    below [2^53]; from there on the shortest decimal that reads back as
    the number, written in full up to 21 digits and in exponent form
    beyond. *)
Definition Number_toString (n : Z) : string :=
  if Z.abs n <? 2 ^ 53 then BigInt_toString n
  else
    (if n <? 0 then "-" else "") +:+
    match nearest_double (Z.abs n) with
    | None => "Infinity"
    | Some v =>
        let c := shortest_decimal v in
        if decimal_digits c <=? 21 then BigInt_toString c else exponent_form c
    end.

(** The inverse reading of a base-10 numeral. *)
Definition parse_decimal (s : string) : option Z :=
  Z.of_int <$> NilZero.int_of_string s.

Definition hex_digit (n : N) : ascii :=
  match n with
  | 0 => "0" | 1 => "1" | 2 => "2" | 3 => "3" | 4 => "4" | 5 => "5"
  | 6 => "6" | 7 => "7" | 8 => "8" | 9 => "9" | 10 => "a" | 11 => "b"
  | 12 => "c" | 13 => "d" | 14 => "e" | _ => "f"
  end%N%char.

Definition hex_value (c : ascii) : option N :=
  let n := N_of_ascii c in
  if ((48 <=? n) && (n <=? 57))%N then Some (n - 48)%N
  else if ((97 <=? n) && (n <=? 102))%N then Some (n - 87)%N
  else None.

Definition hex_of_byte (b : Byte.byte) : list ascii :=
  let n := Byte.to_N b in [hex_digit (n / 16); hex_digit (n mod 16)].

(** [Buffer.from(raw).toString('hex')]: two lowercase digits per byte. *)
Definition Buffer_toString_hex (bs : list Byte.byte) : string :=
  of_chars (mjoin (hex_of_byte <$> bs)).

(** Reading such a numeral back, two digits at a time. *)
Fixpoint bytes_of_hex (l : list ascii) : option (list Byte.byte) :=
  match l with
  | [] => Some []
  | hi :: lo :: l' =>
      match hex_value hi, hex_value lo, bytes_of_hex l' with
      | Some h, Some d, Some bs =>
          match Byte.of_N (16 * h + d) with
          | Some b => Some (b :: bs)
          | None => None
          end
      | _, _, _ => None
      end
  | [_] => None
  end.

(** *** Data *)

(** The values a structured-data payload or a JSON reply is made of. An
    object is the list of its own enumerable properties, in enumeration
    order. *)
Inductive value : Type :=
| VUndefined
| VNull
| VBool (b : bool)
| VNumber (n : Z)
| VBigInt (n : Z)
| VString (s : string)
| VArray (items : list value)
| VObject (fields : list (string * value)).

(** [typeof v === 'bigint'] *)
Definition typeof_bigint (v : value) : bool :=
  match v with VBigInt _ => true | _ => false end.

(** Truthiness, as tested by [if (v)]. *)
Definition truthy (v : value) : bool :=
  match v with
  | VUndefined | VNull => false
  | VBool b => b
  | VNumber n | VBigInt n => negb (n =? 0)
  | VString s => negb (String.eqb s "")
  | VArray _ | VObject _ => true
  end.

Fixpoint assoc (k : string) (fields : list (string * value)) : option value :=
  match fields with
  | [] => None
  | (k', v) :: rest => if String.eqb k k' then Some v else assoc k rest
  end.

(** [v.k]: reading a property. It throws on [null] and [undefined]; a
    missing property reads as [undefined]. Primitives and arrays carry
    none of the names the pages read. *)
Definition get_property (v : value) (k : string) : outcome value :=
  match v with
  | VUndefined | VNull =>
      Rejected (TypeError ("Cannot read properties of null (reading '" +:+ k +:+ "')"))
  | VObject fields => Resolved (default VUndefined (assoc k fields))
  | _ => Resolved VUndefined
  end.

Fixpoint value_depth (v : value) : nat :=
  match v with
  | VArray items => S (foldr (λ x d, Nat.max (value_depth x) d) O items)
  | VObject fields => S (foldr (λ kv d, Nat.max (value_depth kv.2) d) O fields)
  | _ => O
  end.

(** *** JSON.stringify *)

Definition dquote : ascii := ascii_of_nat 34.
Definition backslash : ascii := ascii_of_nat 92.

Definition quote_char (c : ascii) : list ascii :=
  let n := N_of_ascii c in
  if (n =? 8)%N then [backslash; "b"%char]
  else if (n =? 9)%N then [backslash; "t"%char]
  else if (n =? 10)%N then [backslash; "n"%char]
  else if (n =? 12)%N then [backslash; "f"%char]
  else if (n =? 13)%N then [backslash; "r"%char]
  else if (n =? 34)%N then [backslash; dquote]
  else if (n =? 92)%N then [backslash; backslash]
  else if (n <? 32)%N then
    [backslash; "u"%char; "0"%char; "0"%char; hex_digit (n / 16); hex_digit (n mod 16)]
  else [c].

(** QuoteJSONString *)
Definition QuoteJSONString (s : string) : string :=
  of_chars (dquote :: mjoin (quote_char <$> chars s) ++ [dquote]).

Definition join_comma (l : list string) : string :=
  match l with
  | [] => ""
  | x :: rest => foldl (λ acc y, acc +:+ "," +:+ y) x rest
  end.

(** A serialisation step: [None] when the recursion budget is used up,
    otherwise the completion of the step (a text, [undefined], or a
    throw). *)
Definition ser (A : Type) : Type := option (outcome A).

Definition ser_bind {A B} (m : ser A) (k : A → ser B) : ser B :=
  match m with
  | None => None
  | Some (Rejected e) => Some (Rejected e)
  | Some (Resolved a) => k a
  end.

(** The elements of an array: [undefined] is written as [null]. *)
Fixpoint serialize_items (rec : string → value → ser (option string))
    (i : nat) (items : list value) : ser (list string) :=
  match items with
  | [] => Some (Resolved [])
  | x :: rest =>
      ser_bind (rec (NilZero.string_of_uint (Nat.to_uint i)) x) (λ t,
      ser_bind (serialize_items rec (S i) rest) (λ ts,
      Some (Resolved (default "null" t :: ts))))
  end.

(** The members of an object: a property whose value serialises to
    [undefined] is left out. *)
Fixpoint serialize_fields (rec : string → value → ser (option string))
    (fields : list (string * value)) : ser (list string) :=
  match fields with
  | [] => Some (Resolved [])
  | (k, x) :: rest =>
      ser_bind (rec k x) (λ t,
      ser_bind (serialize_fields rec rest) (λ ts,
      Some (Resolved
        match t with
        | Some text => (QuoteJSONString k +:+ ":" +:+ text) :: ts
        | None => ts
        end)))
  end.

(** SerializeJSONProperty, with the replacer function applied to every
    property before it is written. The recursion follows the value the
    replacer returned, so it is bounded by [fuel]. *)
Fixpoint SerializeJSONProperty (fuel : nat)
    (replacer : option (string → value → value))
    (key : string) (held : value) : ser (option string) :=
  match fuel with
  | O => None
  | S fuel' =>
      let v := match replacer with Some f => f key held | None => held end in
      match v with
      | VUndefined => Some (Resolved None)
      | VNull => Some (Resolved (Some "null"))
      | VBool b => Some (Resolved (Some (if b then "true" else "false")))
      | VNumber n =>
          Some (Resolved (Some (if is_finite n then Number_toString n else "null")))
      | VBigInt _ => Some (Rejected (TypeError "Do not know how to serialize a BigInt"))
      | VString s => Some (Resolved (Some (QuoteJSONString s)))
      | VArray items =>
          ser_bind (serialize_items (SerializeJSONProperty fuel' replacer) O items) (λ ts,
          Some (Resolved (Some ("[" +:+ join_comma ts +:+ "]"))))
      | VObject fields =>
          ser_bind (serialize_fields (SerializeJSONProperty fuel' replacer) fields) (λ ts,
          Some (Resolved (Some ("{" +:+ join_comma ts +:+ "}"))))
      end
  end.

(** [JSON.stringify(v, replacer)] with a recursion budget. *)
Definition JSON_stringify_fuel (fuel : nat)
    (replacer : option (string → value → value)) (v : value) : ser (option string) :=
  SerializeJSONProperty fuel replacer "" v.

(** [JSON.stringify(v)] on data without bigints, where it returns a
    text. *)
Definition JSON_stringify_data (v : value) : string :=
  match JSON_stringify_fuel (S (value_depth v)) None v with
  | Some (Resolved (Some text)) => text
  | _ => "undefined"
  end.

(** [s.slice(n)] for [0 <= n]. *)
Definition slice_from (n : nat) (s : string) : string := of_chars (drop n (chars s)).

(** *** Arrays of strings

    A [string[]] as the engine holds it: an element is a string, or
    [undefined], or absent (a hole, which an assignment past the end
    leaves behind). *)
Inductive slot : Type :=
| Str (s : string)
| Undef
| Hole.

Definition is_hole (x : slot) : bool :=
  match x with Hole => true | _ => false end.

(** [[...arr]]: the iterator reads every index below the length, and a
    hole reads as [undefined]. *)
Definition spread (arr : list slot) : list slot :=
  (λ x, match x with Hole => Undef | _ => x end) <$> arr.

(** The numbers that name an element: the integers from 0 to 2^32 - 2. *)
Definition is_array_index (i : Z) : bool :=
  (0 <=? i) && (i <? 2 ^ 32 - 1).

(** [arr[i] = v]. Inside the array the element is replaced; past the end
    the array grows, with holes up to [i]; any other number names an
    ordinary property, and neither the elements nor the length change. *)
Definition array_set (arr : list slot) (i : Z) (v : slot) : list slot :=
  if is_array_index i then
    let n := Z.to_nat i in
    if (n <? length arr)%nat then <[n := v]> arr
    else arr ++ replicate (n - length arr) Hole ++ [v]
  else arr.

(** [arr.filter(keep)]: the callback sees each present element with its
    index; holes are skipped and do not reach the result. *)
Fixpoint filter_from (keep : slot → Z → bool) (i : Z) (arr : list slot) : list slot :=
  match arr with
  | [] => []
  | x :: rest =>
      if is_hole x then filter_from keep (i + 1) rest
      else if keep x i then x :: filter_from keep (i + 1) rest
      else filter_from keep (i + 1) rest
  end.

Definition Array_filter (keep : slot → Z → bool) (arr : list slot) : list slot :=
  filter_from keep 0 arr.

(** The same with a callback that may throw: the first throw ends the
    scan and is the completion of [filter]. *)
Fixpoint filter_try_from (keep : slot → Z → outcome bool) (i : Z) (arr : list slot)
    : outcome (list slot) :=
  match arr with
  | [] => Resolved []
  | x :: rest =>
      if is_hole x then filter_try_from keep (i + 1) rest
      else
        match keep x i with
        | Rejected e => Rejected e
        | Resolved b =>
            match filter_try_from keep (i + 1) rest with
            | Rejected e => Rejected e
            | Resolved l => Resolved (if b then x :: l else l)
            end
        end
  end.

Definition Array_filter_try (keep : slot → Z → outcome bool) (arr : list slot)
    : outcome (list slot) :=
  filter_try_from keep 0 arr.

(** A method call [r.m()] on an element: it throws on [undefined]. *)
Definition on_string {A} (method : string) (f : string → A) (r : slot) : outcome A :=
  match r with
  | Str s => Resolved (f s)
  | _ => Rejected (TypeError ("Cannot read properties of undefined (reading '" +:+ method +:+ "')"))
  end.

(** [`${r}`] / [r as Hex] for an element. *)
Definition slot_string (r : slot) : string :=
  match r with Str s => s | _ => "undefined" end.

End Js.
Export Js.

(** ** The signer adapters

    [toAccount({ address, signMessage, signTypedData, signTransaction })]:
    the three callbacks each page hands to viem. A callback's result is
    the settlement of its promise together with the calls it made to the
    provider's signing transport. *)

Module Signer.

(** viem's [SignableMessage]: a string, or [{ raw }] with [raw] a hex
    string or a byte array. [MsgOther] stands for any other value, by
    what [String(message)] prints. *)
Inductive raw_message : Type :=
| RawHex (s : string)
| RawBytes (bs : list Byte.byte).

Inductive SignableMessage : Type :=
| MsgString (s : string)
| MsgRaw (raw : raw_message)
| MsgOther (printed : string).

(** [provider.request({ method, params })] *)
Record rpc_request := RpcRequest {
  method : string;
  params : list (option string)
}.

(** An EIP-1193 provider. [session_address] is the address the provider's
    session is authenticated for at the time of the call. *)
Record EthereumProvider := {
  session_address : option string;
  request : rpc_request → outcome string
}.

(** A viem wallet client, as the Dynamic SDK returns it. *)
Record WalletClient := {
  wc_account : option string;
  wc_session_address : option string;
  wc_signMessage : option string → SignableMessage → outcome string;
  wc_signTypedData : list (string * value) → outcome string
}.

(** What reaches the signing transport. *)
Inductive transport_call : Type :=
| ProviderRequest (r : rpc_request)
| WalletSignMessage (account : option string) (m : SignableMessage)
| WalletSignTypedData (arg : list (string * value)).

Definition signing (A : Type) : Type := outcome A * list transport_call.

(** The account object [toAccount] returns. *)
Record LocalAccount := {
  address : string;
  signMessage : SignableMessage → signing string;
  signTypedData : list (string * value) → signing string;
  signTransaction : value → signing string
}.

(** [{ ...a, ...b }] on property lists: a later property overwrites an
    earlier one in place, a new one is appended. *)
Fixpoint set_field (k : string) (v : value) (fields : list (string * value))
    : list (string * value) :=
  match fields with
  | [] => [(k, v)]
  | (k', v') :: rest =>
      if String.eqb k k' then (k, v) :: rest else (k', v') :: set_field k v rest
  end.

Definition object_spread (a b : list (string * value)) : list (string * value) :=
  foldl (λ acc kv, set_field kv.1 kv.2 acc) a b.

Definition of_option_string (x : option string) : value :=
  match x with Some s => VString s | None => VUndefined end.

(** *** Privy (src/pages/PrivyExample.tsx, lines 76-117) *)
Module Privy.

Definition signMessage (provider : EthereumProvider) (address : string)
    (message : SignableMessage) : signing string :=
  let messageToSign :=
    match message with
    | MsgString s => s
    | MsgRaw raw =>
        match raw with
        | RawHex s => s
        | RawBytes bs => "0x" +:+ Buffer_toString_hex bs
        end
    | MsgOther printed => printed
    end in
  let r := {| method := "personal_sign"; params := [Some messageToSign; Some address] |} in
  (request provider r, [ProviderRequest r]).

Definition replacer (_key : string) (v : value) : value :=
  if typeof_bigint v
  then match v with VBigInt n => VString (BigInt_toString n) | _ => v end
  else v.

(** [JSON.stringify(typedData, replacer)]. The replacer returns the
    value it was given or a string, so the recursion never goes deeper
    than the payload: a budget above its depth is enough
    ([stringify_fuel_enough] below). *)
Definition stringify (typedData : value) : ser (option string) :=
  JSON_stringify_fuel (S (value_depth typedData)) (Some replacer) typedData.

Definition signTypedData (provider : EthereumProvider) (address : string)
    (typedData : list (string * value)) : signing string :=
  match stringify (VObject typedData) with
  | Some (Resolved text) =>
      let r := {| method := "eth_signTypedData_v4"; params := [Some address; text] |} in
      (request provider r, [ProviderRequest r])
  | Some (Rejected e) => (Rejected e, [])
  | None => (Rejected (RangeError "Maximum call stack size exceeded"), [])
  end.

Definition signTransaction (_transaction : value) : signing string :=
  (Rejected (Error "signTransaction not supported - use MEE for transactions"), []).

Definition signer (provider : EthereumProvider) (address : string) : LocalAccount :=
  {| Signer.address := address;
     Signer.signMessage := signMessage provider address;
     Signer.signTypedData := signTypedData provider address;
     Signer.signTransaction := signTransaction |}.

End Privy.

(** *** Dynamic (src/pages/DynamicExample.tsx, lines 96-121) *)
Module Dynamic.

Definition signMessage (walletClient : WalletClient) (address : string)
    (message : SignableMessage) : signing string :=
  (wc_signMessage walletClient (wc_account walletClient) message,
   [WalletSignMessage (wc_account walletClient) message]).

Definition signTypedData (walletClient : WalletClient) (address : string)
    (typedData : list (string * value)) : signing string :=
  let arg :=
    object_spread [("account", of_option_string (wc_account walletClient))] typedData in
  (wc_signTypedData walletClient arg, [WalletSignTypedData arg]).

Definition signTransaction (_transaction : value) : signing string :=
  (Rejected (Error "signTransaction not supported - use MEE for transactions"), []).

Definition signer (walletClient : WalletClient) (address : string) : LocalAccount :=
  {| Signer.address := address;
     Signer.signMessage := signMessage walletClient address;
     Signer.signTypedData := signTypedData walletClient address;
     Signer.signTransaction := signTransaction |}.

End Dynamic.

(** The two adapters the repository defines. The Para page takes its
    account from [createParaAccount] of the Para SDK, and the Biconomy
    page hands a viem wallet client to the account factory. *)

(** The error both adapters throw from [signTransaction]. *)
Definition unsupported : thrown :=
  Error "signTransaction not supported - use MEE for transactions".

(** The text of a message as the transport receives it, when it receives
    a text. *)
Definition forwarded_text (c : transport_call) : option string :=
  match c with
  | ProviderRequest r => mjoin (head (params r))
  | WalletSignMessage _ (MsgString s) => Some s
  | WalletSignMessage _ (MsgRaw (RawHex s)) => Some s
  | WalletSignMessage _ _ => None
  | WalletSignTypedData _ => None
  end.

(** The serialised payloads that reach the transport in
    [eth_signTypedData_v4] requests. *)
Definition typed_data_texts (calls : list transport_call) : list (option string) :=
  omap (λ c, match c with
             | ProviderRequest r =>
                 if String.eqb (method r) "eth_signTypedData_v4"
                 then Some (mjoin (params r !! 1%nat)) else None
             | _ => None
             end) calls.

(** The payload with every bigint, at any depth, written as its base-10
    numeral. *)
Fixpoint bigints_as_decimal_strings (v : value) : value :=
  match v with
  | VBigInt n => VString (BigInt_toString n)
  | VArray items => VArray (bigints_as_decimal_strings <$> items)
  | VObject fields =>
      VObject ((λ kv, (kv.1, bigints_as_decimal_strings kv.2)) <$> fields)
  | _ => v
  end.

(** No bigint anywhere in the value. *)
Fixpoint bigint_free (v : value) : bool :=
  match v with
  | VBigInt _ => false
  | VArray items => forallb bigint_free items
  | VObject fields => forallb (λ kv, bigint_free kv.2) fields
  | _ => true
  end.

(** What the claim about the serialisation asks the text to hold.
    [quoted_numeral n] is the JSON string of the base-10 numeral of
    [n]: the digits between two double quotes. [bigint_texts v] lists,
    for every bigint of [v] at any depth, the piece of text that stands
    for it: the quoted numeral for an element or the payload itself,
    and the member ["key":"digits"] for a property. *)
Definition quoted_numeral (n : Z) : string :=
  of_chars (dquote :: chars (BigInt_toString n) ++ [dquote]).

Fixpoint bigint_texts (v : value) : list string :=
  match v with
  | VBigInt n => [quoted_numeral n]
  | VArray items => mjoin (bigint_texts <$> items)
  | VObject fields =>
      mjoin ((λ kv,
                match kv.2 with
                | VBigInt n => [QuoteJSONString kv.1 +:+ ":" +:+ quoted_numeral n]
                | _ => bigint_texts kv.2
                end) <$> fields)
  | _ => []
  end.

(** [part] occurs in [text]. *)
Definition contains (text part : string) : Prop :=
  ∃ before after : list ascii, chars text = before ++ chars part ++ after.

End Signer.

(** ** What the pages share

    The three provider pages declare the same state, the same balance
    poll, the same recipient handlers and the same transfer flow; the
    code is repeated verbatim in each file and is written once here. *)

Module Page.
Import Signer.

Definition USDC_ADDRESS : string := "0x833589fCD6eDb6E08f4c7C32D4f71b54bdA02913".
Definition USDC_DECIMALS : Z := 6.
Definition TRANSFER_AMOUNT : Z := 100000.
(** [base.id] *)
Definition base_id : Z := 8453.
(** The period of [setInterval(fetchBalance, 10000)], in milliseconds. *)
Definition POLL_INTERVAL : Z := 10000.

(** *** Handles of the execution library (opaque to the pages) *)

Inductive MultichainSmartAccount : Type := NexusAccount (id : nat).
Inductive MeeClient : Type := MeeClientHandle (id : nat).
Inductive Instruction : Type := Built (id : nat).
Inductive FusionQuote : Type := Quote (id : nat).

Record ChainConfiguration := {
  chain : Z;
  transport : string;
  version : string
}.

Record NexusParams := {
  chainConfigurations : list ChainConfiguration;
  signer : LocalAccount
}.

(** The argument of [orchestrator.buildComposable]. *)
Record ComposableCall := {
  call_type : string;
  abi : string;
  call_chainId : Z;
  to : string;
  functionName : string;
  args : string * Z
}.

Record Trigger := {
  trigger_chainId : Z;
  tokenAddress : string;
  amount : Z
}.

Record FeeToken := {
  fee_address : string;
  fee_chainId : Z
}.

(** The argument of [meeClient.getFusionQuote]: the quote request. *)
Record FusionQuoteParams := {
  instructions : list Instruction;
  trigger : Trigger;
  feeToken : FeeToken;
  simulate : bool
}.

Record FetchRequest := {
  url : string;
  http_method : string;
  headers : list (string * string);
  body : string
}.

(** A [Response]: all the pages do with it is [await response.json()]. *)
Record Response := {
  json : outcome value
}.

(** The connected wallet as the provider's hook reports it. *)
Record Wallet := {
  wallet_address : option string;
  isEthereumWallet : bool
}.

(** [wallet?.address], when it is truthy. *)
Definition address_of (wallet : option Wallet) : option string :=
  match wallet with
  | Some w =>
      match wallet_address w with
      | Some a => if String.eqb a "" then None else Some a
      | None => None
      end
  | None => None
  end.

(** *** The world outside the repository

    One answer per call: what each SDK method, [fetch] and the [BigInt]
    constructor return when the page calls them. *)
Record World := {
  switchChain : Z → outcome unit;
  getEthereumProvider : outcome EthereumProvider;
  getWalletClient : string → outcome WalletClient;
  createParaAccount : outcome LocalAccount;
  getAddress : string → outcome string;
  toMultichainNexusAccount : NexusParams → outcome MultichainSmartAccount;
  createMeeClient : MultichainSmartAccount → outcome MeeClient;
  buildComposable : MultichainSmartAccount → ComposableCall → outcome Instruction;
  getFusionQuote : MeeClient → FusionQuoteParams → outcome FusionQuote;
  executeFusionQuote : MeeClient → FusionQuote → outcome string;
  getMeeScanLink : string → string;
  waitForSupertransactionReceipt : MeeClient → string → outcome unit;
  fetch : FetchRequest → outcome Response;
  BigInt : value → outcome Z;
  (* timing: which rejection of a [Promise.all] settles first *)
  settles_first : nat
}.

(** *** React state *)

Record PageState := {
  status : option string;
  recipients : list slot;
  balance : option Z;
  meeScanLink : option string;
  meeClient : option MeeClient;
  orchestrator : option MultichainSmartAccount
}.

(** [useState] initial values. *)
Definition initial_state : PageState :=
  {| status := None; recipients := [Str ""]; balance := None;
     meeScanLink := None; meeClient := None; orchestrator := None |}.

Inductive update : Type :=
| SetStatus (s : option string)
| SetRecipients (rs : list slot)
| SetBalance (b : Z)
| SetMeeScanLink (link : string)
| SetMeeClient (mee : MeeClient)
| SetOrchestrator (account : MultichainSmartAccount).

Definition apply_update (u : update) (st : PageState) : PageState :=
  match u with
  | SetStatus s =>
      {| status := s; recipients := recipients st; balance := balance st;
         meeScanLink := meeScanLink st; meeClient := meeClient st;
         orchestrator := orchestrator st |}
  | SetRecipients rs =>
      {| status := status st; recipients := rs; balance := balance st;
         meeScanLink := meeScanLink st; meeClient := meeClient st;
         orchestrator := orchestrator st |}
  | SetBalance b =>
      {| status := status st; recipients := recipients st; balance := Some b;
         meeScanLink := meeScanLink st; meeClient := meeClient st;
         orchestrator := orchestrator st |}
  | SetMeeScanLink link =>
      {| status := status st; recipients := recipients st; balance := balance st;
         meeScanLink := Some link; meeClient := meeClient st;
         orchestrator := orchestrator st |}
  | SetMeeClient mee =>
      {| status := status st; recipients := recipients st; balance := balance st;
         meeScanLink := meeScanLink st; meeClient := Some mee;
         orchestrator := orchestrator st |}
  | SetOrchestrator account =>
      {| status := status st; recipients := recipients st; balance := balance st;
         meeScanLink := meeScanLink st; meeClient := meeClient st;
         orchestrator := Some account |}
  end.

(** *** Observable effects *)

Inductive call : Type :=
| CallSwitchChain (chainId : Z)
| CallGetEthereumProvider
| CallGetWalletClient (chainId : string)
| CallCreateParaAccount
| CallToMultichainNexusAccount (p : NexusParams)
| CallCreateMeeClient (account : MultichainSmartAccount)
| CallBuildComposable (account : MultichainSmartAccount) (c : ComposableCall)
| CallGetFusionQuote (mee : MeeClient) (p : FusionQuoteParams)
| CallExecuteFusionQuote (mee : MeeClient) (q : FusionQuote)
| CallWaitForReceipt (mee : MeeClient) (hash : string)
| CallFetch (r : FetchRequest).

Inductive log_arg : Type :=
| LogText (s : string)
| LogThrown (e : thrown).

Inductive event : Type :=
| ConsoleLog (args : list log_arg)
| ConsoleError (args : list log_arg)
| Called (c : call)
| StateSet (u : update)
| TimerFired (at_ms : Z)
| UnhandledRejection (e : thrown).

(** *** Handlers: state, trace and rejection *)

Definition M (A : Type) : Type := PageState → outcome A * PageState * list event.

Definition ret {A} (a : A) : M A := λ st, (Resolved a, st, []).

Definition bind {A B} (m : M A) (k : A → M B) : M B := λ st,
  match m st with
  | (Resolved a, st1, t1) =>
      let '(r, st2, t2) := k a st1 in (r, st2, t1 ++ t2)
  | (Rejected e, st1, t1) => (Rejected e, st1, t1)
  end.

(** [try { m } catch (err) { handler(err) }] *)
Definition try_catch {A} (m : M A) (handler : thrown → M A) : M A := λ st,
  match m st with
  | (Rejected e, st1, t1) =>
      let '(r, st2, t2) := handler e st1 in (r, st2, t1 ++ t2)
  | done => done
  end.

(** The state the handler closed over. *)
Definition snapshot : M PageState := λ st, (Resolved st, st, []).

Definition emit (ev : event) : M unit := λ st, (Resolved tt, st, [ev]).

(** A state setter. *)
Definition set (u : update) : M unit := λ st, (Resolved tt, apply_update u st, [StateSet u]).

(** [await f(...)] on a call that leaves the repository. *)
Definition await {A} (c : call) (answer : outcome A) : M A := λ st, (answer, st, [Called c]).

(** A synchronous step that may throw. *)
Definition lift {A} (o : outcome A) : M A := λ st, (o, st, []).

Definition console_log (args : list log_arg) : M unit := emit (ConsoleLog args).
Definition console_error (args : list log_arg) : M unit := emit (ConsoleError args).
Definition setStatus (s : string) : M unit := set (SetStatus (Some s)).

(** A handler started without awaiting it: a rejection it does not catch
    is reported by the runtime and nothing else happens. *)
Definition spawn (m : M unit) : M unit := λ st,
  match m st with
  | (Rejected e, st1, t1) => (Resolved tt, st1, t1 ++ [UnhandledRejection e])
  | done => done
  end.

Declare Scope page_scope.
Delimit Scope page_scope with page.
Notation "'let*' x ':=' m 'in' k" := (bind m (λ x, k))
  (at level 10, x name, m at level 100, k at level 200) : page_scope.
Notation "m >> k" := (bind m (λ _, k))
  (at level 100, k at level 200, right associativity) : page_scope.
Local Open Scope page_scope.

(** [Promise.all(calls)]: every call is started. When all of them
    resolve, the result is the list of the values in order. Otherwise
    the promise rejects with the rejection that settles first, and the
    rejections that settle later are dropped. Which one is first is a
    matter of timing, outside the page: [first] counts it among the
    rejections in list order (counting round, so that every number
    names one of them). *)
Definition rejections {A} (answers : list (outcome A)) : list thrown :=
  omap (λ o, match o with Rejected e => Some e | Resolved _ => None end) answers.

Definition fulfilments {A} (answers : list (outcome A)) : list A :=
  omap (λ o, match o with Resolved a => Some a | Rejected _ => None end) answers.

Definition all_resolved {A} (first : nat) (answers : list (outcome A)) : outcome (list A) :=
  match rejections answers with
  | [] => Resolved (fulfilments answers)
  | e :: later =>
      Rejected (default e ((e :: later) !! (first mod length (e :: later))%nat))
  end.

Definition Promise_all {A} (first : nat) (calls : list (call * outcome A)) : M (list A) :=
  λ st, (all_resolved first (snd <$> calls), st, (λ c, Called c.1) <$> calls).

(** *** The recipient handlers

    [handleRecipientChange], [addRecipient] and [removeRecipient] read
    [recipients] and call [setRecipients] at most once; each is given by
    the next value of [recipients]. The four pages (Biconomy, Para, Privy,
    Dynamic) have the same three handlers. *)

(** [const newRecipients = [...recipients]; newRecipients[index] = value;
    setRecipients(newRecipients)] *)
Definition handleRecipientChange (recipients : list slot) (index : Z) (value : string)
    : list slot :=
  let newRecipients := spread recipients in
  array_set newRecipients index (Str value).

(** [setRecipients([...recipients, ''])] *)
Definition addRecipient (recipients : list slot) : list slot :=
  spread recipients ++ [Str ""].

(** [if (recipients.length > 1)
      setRecipients(recipients.filter((_, i) => i !== index))] *)
Definition removeRecipient (recipients : list slot) (index : Z) : list slot :=
  if (1 <? length recipients)%nat
  then Array_filter (λ _ i, negb (i =? index)) recipients
  else recipients.

(** What the user can do to the list. *)
Inductive recipient_action : Type :=
| Change (index : Z) (value : string)
| Add
| Remove (index : Z).

Definition act (recipients : list slot) (a : recipient_action) : list slot :=
  match a with
  | Change index value => handleRecipientChange recipients index value
  | Add => addRecipient recipients
  | Remove index => removeRecipient recipients index
  end.

(** A session: the actions in the order the user performs them, each
    handler reading the list the previous one left. *)
Definition session (actions : list recipient_action) (recipients : list slot) : list slot :=
  foldl act recipients actions.

(** The rendered list offers [Change] and [Remove] only for the rows it
    shows: [recipients.map((recipient, idx) => ...)]. *)
Definition offered (recipients : list slot) (a : recipient_action) : Prop :=
  match a with
  | Change index _ | Remove index => 0 ≤ index < Z.of_nat (length recipients)
  | Add => True
  end.

(** The elements that are present (not holes). *)
Definition present (arr : list slot) : nat :=
  length (filter (λ x, is_hole x = false) arr).

(** What every list the handlers produce satisfies: an element is
    present, and two are as soon as the length exceeds one. *)
Definition well_populated (arr : list slot) : Prop :=
  (1 ≤ present arr)%nat ∧ ((1 < length arr)%nat → (2 ≤ present arr)%nat).

(** *** The balance poll *)

Definition balance_request (address : string) : FetchRequest :=
  {| url := "https://mainnet.base.org";
     http_method := "POST";
     headers := [("Content-Type", "application/json")];
     body := JSON_stringify_data (VObject [
       ("jsonrpc", VString "2.0");
       ("id", VNumber 1);
       ("method", VString "eth_call");
       ("params", VArray [
          VObject [
            ("to", VString USDC_ADDRESS);
            ("data", VString ("0x70a08231000000000000000000000000" +:+ slice_from 2 address))];
          VString "latest"])]) |}.

(** [fetchBalance], lines 149-176 of PrivyExample.tsx (100-127 of
    ParaExample.tsx, 154-181 of DynamicExample.tsx). *)
Definition fetchBalance (w : World) (wallet : option Wallet) : M unit :=
  match address_of wallet with
  | None => ret tt
  | Some address =>
      try_catch
        (let* response := await (CallFetch (balance_request address))
                                (fetch w (balance_request address)) in
         let* data := lift (json response) in
         let* result := lift (get_property data "result") in
         if truthy result then
           let* b := lift (BigInt w result) in
           set (SetBalance b)
         else ret tt)
        (λ err, console_error [LogText "Failed to fetch balance:"; LogThrown err])
  end.

(** The polling effect: [fetchBalance()] at once, then
    [setInterval(fetchBalance, 10000)] until the cleanup clears the
    interval. [ticks] holds the world as it is at each run, the first
    at time 0, the next ones one interval apart. *)
Fixpoint poll_from (k : nat) (ticks : list World) (wallet : option Wallet) : M unit :=
  match ticks with
  | [] => ret tt
  | w :: later =>
      emit (TimerFired (Z.of_nat k * POLL_INTERVAL)) >>
      spawn (fetchBalance w wallet) >>
      poll_from (S k) later wallet
  end.

Definition poll (ticks : list World) (wallet : option Wallet) : M unit :=
  poll_from O ticks wallet.

(** *** The transfer flow *)

Definition transfer_call (recipient : slot) : ComposableCall :=
  {| call_type := "default";
     abi := "erc20Abi";
     call_chainId := base_id;
     to := USDC_ADDRESS;
     functionName := "transfer";
     args := (slot_string recipient, TRANSFER_AMOUNT) |}.

(** [recipients.filter((r) => r.trim().length > 0)] *)
Definition validRecipients_of (recipients : list slot) : outcome (list slot) :=
  Array_filter_try (λ r _, on_string "trim" (λ s, 0 <? str_length (trim s)) r) recipients.

Definition quote_request (transfers : list Instruction) (totalAmount : Z) : FusionQuoteParams :=
  {| instructions := transfers;
     trigger := {| trigger_chainId := base_id; tokenAddress := USDC_ADDRESS;
                   amount := totalAmount |};
     feeToken := {| fee_address := USDC_ADDRESS; fee_chainId := base_id |};
     simulate := true |}.

(** From ['Building transfer instructions...'] to ['Transaction
    confirmed!']: lines 246-299 of PrivyExample.tsx (169-222 of
    ParaExample.tsx, 231-284 of DynamicExample.tsx). *)
Definition transfer_flow (w : World) (orchestrator : MultichainSmartAccount)
    (meeClient : MeeClient) (validRecipients : list slot) : M unit :=
  setStatus "Building transfer instructions..." >>
  let* transfers :=
    Promise_all (settles_first w) ((λ recipient,
      (CallBuildComposable orchestrator (transfer_call recipient),
       buildComposable w orchestrator (transfer_call recipient))) <$> validRecipients) in
  let totalAmount := Z.of_nat (length transfers) * TRANSFER_AMOUNT in
  setStatus "Simulating & requesting Fusion Quote..." >>
  let* fusionQuote :=
    await (CallGetFusionQuote meeClient (quote_request transfers totalAmount))
          (getFusionQuote w meeClient (quote_request transfers totalAmount)) in
  setStatus "Awaiting signature..." >>
  let* hash :=
    await (CallExecuteFusionQuote meeClient fusionQuote)
          (executeFusionQuote w meeClient fusionQuote) in
  let link := getMeeScanLink w hash in
  set (SetMeeScanLink link) >>
  setStatus "Waiting for confirmation..." >>
  await (CallWaitForReceipt meeClient hash)
        (waitForSupertransactionReceipt w meeClient hash) >>
  setStatus "Transaction confirmed!".

(** The [catch] of [executeTransfers]:
    [console.error(err); setStatus(`Error: ${err.message}`)]. *)
Definition transfer_failed (err : thrown) : M unit :=
  console_error [LogThrown err] >>
  setStatus ("Error: " +:+ template (message err)).

(** The [chainConfigurations] every page passes. *)
Definition nexus_params (signer : LocalAccount) : NexusParams :=
  {| chainConfigurations := [{| chain := base_id; transport := "http()"; version := "2.1.0" |}];
     signer := signer |}.

(** The quote requests a trace contains. *)
Definition quote_requests (t : list event) : list FusionQuoteParams :=
  omap (λ ev, match ev with Called (CallGetFusionQuote _ p) => Some p | _ => None end) t.

(** The account and client creations a trace contains. *)
Definition is_creation (ev : event) : bool :=
  match ev with
  | Called (CallToMultichainNexusAccount _) | Called (CallCreateMeeClient _) => true
  | _ => false
  end.

Definition is_fetch (ev : event) : bool :=
  match ev with Called (CallFetch _) => true | _ => false end.

Definition is_client_set (ev : event) : bool :=
  match ev with StateSet (SetMeeClient _) => true | _ => false end.

Definition is_account_set (ev : event) : bool :=
  match ev with StateSet (SetOrchestrator _) => true | _ => false end.

Definition is_account_creation (ev : event) : bool :=
  match ev with Called (CallToMultichainNexusAccount _) => true | _ => false end.

Definition is_client_creation (ev : event) : bool :=
  match ev with Called (CallCreateMeeClient _) => true | _ => false end.

(** How many events of a kind a trace holds. *)
Definition count_events (kind : event → bool) (t : list event) : nat :=
  length (List.filter kind t).

(** [f >>= g] on settlements. *)
Definition and_then {A B} (o : outcome A) (k : A → outcome B) : outcome B :=
  match o with
  | Resolved a => k a
  | Rejected e => Rejected e
  end.

(** The effect of [useEffect(() => { handler() }, deps)] over time: the
    handler runs once for each change of its dependencies, each run
    starting in the state the previous one left. *)
Fixpoint rerun {I} (handler : I → M unit) (inputs : list I) : M unit :=
  match inputs with
  | [] => ret tt
  | i :: later => spawn (handler i) >> rerun handler later
  end.

(** A step done before the rest of a run. *)
Definition after (t0 : list event) {A} (run : outcome A * PageState * list event)
    : outcome A * PageState * list event :=
  let '(r, st, t) := run in (r, st, t0 ++ t).

#[global] Instance MeeClient_eq_dec : EqDecision MeeClient.
Proof. solve_decision. Defined.

(** The effect [useEffect(() => { initMee() }, [address, meeClient])]
    while the connected address stays the same: it runs when the
    component mounts, and again after each run that changed [meeClient],
    the only dependency left to change. [worlds] holds the world as it
    is at each run. *)
Fixpoint effect_for_address (handler : World → M unit) (worlds : list World) : M unit :=
  match worlds with
  | [] => ret tt
  | w :: later => λ st,
      let '(r, st1, t1) := spawn (handler w) st in
      if decide (meeClient st1 = meeClient st) then (r, st1, t1)
      else after t1 (effect_for_address handler later st1)
  end.

(** What one run of [initMee] holds: it does not reject, it leaves the
    client as it was or sets one, and it creates at most one account and
    one client and sets each at most once. *)
Definition one_initialisation (run : outcome unit * PageState * list event)
    (st : PageState) : Prop :=
  is_resolved run.1.1 = true
  ∧ (meeClient run.1.2 = meeClient st ∨ is_Some (meeClient run.1.2))
  ∧ (count_events is_account_creation run.2 ≤ 1)%nat
  ∧ (count_events is_client_creation run.2 ≤ 1)%nat
  ∧ (count_events is_account_set run.2 ≤ 1)%nat
  ∧ (count_events is_client_set run.2 ≤ 1)%nat.

(** Over a trace: at most one account and one client are created, and
    each handle is set at most once. *)
Definition initialised_once (t : list event) : Prop :=
  (count_events is_account_creation t ≤ 1)%nat
  ∧ (count_events is_client_creation t ≤ 1)%nat
  ∧ (count_events is_account_set t ≤ 1)%nat
  ∧ (count_events is_client_set t ≤ 1)%nat.

(** The reply to the balance request has no [result]: the property is
    missing, or the reply is not an object that could have it. *)
Definition lacks_result (data : value) : bool :=
  match get_property data "result" with
  | Resolved VUndefined | Rejected _ => true
  | Resolved _ => false
  end.

(** The balance request of this tick fails, or its reply has no
    [result]. *)
Definition tick_fails (w : World) (address : string) : bool :=
  match fetch w (balance_request address) with
  | Rejected _ => true
  | Resolved response =>
      match json response with
      | Rejected _ => true
      | Resolved data => lacks_result data
      end
  end.

(** How the calls of the transfer flow settle, in the order the flow
    awaits them: the instructions, the quote, the execution, the
    receipt. *)
Definition built_transfers (w : World) (orchestrator : MultichainSmartAccount)
    (validRecipients : list slot) : outcome (list Instruction) :=
  all_resolved (settles_first w)
    ((λ recipient, buildComposable w orchestrator (transfer_call recipient))
       <$> validRecipients).

Definition transfer_outcome (w : World) (orchestrator : MultichainSmartAccount)
    (meeClient : MeeClient) (validRecipients : list slot) : outcome unit :=
  and_then (built_transfers w orchestrator validRecipients) (λ transfers,
  and_then (getFusionQuote w meeClient
              (quote_request transfers (Z.of_nat (length transfers) * TRANSFER_AMOUNT)))
    (λ fusionQuote,
  and_then (executeFusionQuote w meeClient fusionQuote) (λ hash,
  waitForSupertransactionReceipt w meeClient hash))).

(** The quote requests of a run of the flow: one, made of the built
    instructions, when all of them were built; none otherwise. *)
Definition flow_quote_requests (built : outcome (list Instruction)) : list FusionQuoteParams :=
  match built with
  | Resolved transfers =>
      [quote_request transfers (Z.of_nat (length transfers) * TRANSFER_AMOUNT)]
  | Rejected _ => []
  end.

(** The entries of a recipient list that are not blank. *)
Definition nonblank_entries (rs : list string) : list string :=
  List.filter (λ r, negb (blank r)) rs.

(** Every [buildComposable] call for these recipients resolves. *)
Definition builds_succeed (w : World) (orchestrator : MultichainSmartAccount)
    (rs : list string) : Prop :=
  Forall (λ r, is_resolved (buildComposable w orchestrator (transfer_call (Str r))) = true) rs.

(** The trace holds exactly one quote request, with [n] instructions and
    a trigger of [n] times the transfer amount in USDC on Base, fees in
    the same token, simulation on. *)
Definition one_quote_request (n : nat) (t : list event) : Prop :=
  ∃ request,
    quote_requests t = [request]
    ∧ length (instructions request) = n
    ∧ amount (trigger request) = Z.of_nat n * 100000
    ∧ tokenAddress (trigger request) = USDC_ADDRESS
    ∧ feeToken request = {| fee_address := USDC_ADDRESS; fee_chainId := base_id |}
    ∧ simulate request = true.

(** The trace holds no quote request but one of that shape. *)
Definition no_other_quote_request (n : nat) (t : list event) : Prop :=
  ∀ request, request ∈ quote_requests t → one_quote_request n t.

(** The status a finished transfer flow shows. *)
Definition transfer_status (o : outcome unit) : option string :=
  match o with
  | Resolved _ => Some "Transaction confirmed!"
  | Rejected err => Some ("Error: " +:+ template (message err))
  end.

(** The status texts a trace sets, in order. *)
Definition status_updates (t : list event) : list (option string) :=
  omap (λ ev, match ev with StateSet (SetStatus s) => Some s | _ => None end) t.

End Page.

(** ** Rendering with or without the provider's key *)

Module Config.

(** [import.meta.env]: a variable that is not defined reads as
    [undefined]. *)
Record ImportMetaEnv := {
  VITE_PARA_API_KEY : option string;
  VITE_WALLETCONNECT_PROJECT_ID : option string;
  VITE_PRIVY_APP_ID : option string;
  VITE_DYNAMIC_ENVIRONMENT_ID : option string
}.

(** [x || '']  *)
Definition or_empty (x : option string) : string :=
  match x with
  | Some s => s
  | None => ""
  end.

(** [!x] on an optional string: [undefined] and [''] are falsy. *)
Definition falsy (x : option string) : bool :=
  String.eqb (or_empty x) "".

(** The static panel the page returns in place of the provider. *)
Record Panel := {
  page_title : string;
  card_title : string;
  missing : string;
  instruction : string;
  env_line : string;
  link : string
}.

(** What a page component returns: the panel, or the provider component
    (with the key it is given) around the wallet component. *)
Inductive View : Type :=
| ConfigurationError (panel : Panel)
| Provider (component : string) (key : string) (child : string).

Definition is_panel (v : View) : bool :=
  match v with ConfigurationError _ => true | Provider _ _ _ => false end.

(** The text a view shows. *)
Definition visible_text (v : View) : list string :=
  match v with
  | ConfigurationError p =>
      [page_title p; card_title p; missing p; instruction p; env_line p; link p]
  | Provider _ _ _ => []
  end.

End Config.

(** ** src/pages/PrivyExample.tsx *)

Module PrivyPage.
Import Signer Page Config.
Local Open Scope page_scope.

(** [initMee], lines 57-142. *)
Definition initMee (w : World) (embeddedWallet : option Wallet) : M unit :=
  let* state := snapshot in
  match address_of embeddedWallet with
  | None => ret tt
  | Some wallet_address =>
      match meeClient state with
      | Some _ => ret tt
      | None =>
          try_catch
            (console_log [LogText "[Privy] Initializing Biconomy MEE with Fusion mode..."] >>
             await (CallSwitchChain base_id) (switchChain w base_id) >>
             let* provider := await CallGetEthereumProvider (getEthereumProvider w) in
             let* address := lift (getAddress w wallet_address) in
             console_log [LogText "[Privy] Wallet address:"; LogText address] >>
             let signer := Signer.Privy.signer provider address in
             let* multiAccount :=
               await (CallToMultichainNexusAccount (nexus_params signer))
                     (toMultichainNexusAccount w (nexus_params signer)) in
             set (SetOrchestrator multiAccount) >>
             let* mee :=
               await (CallCreateMeeClient multiAccount) (createMeeClient w multiAccount) in
             set (SetMeeClient mee) >>
             console_log [LogText "[Privy] MEE Client initialized with Fusion mode"])
            (λ err,
             console_error [LogText "[Privy] Failed to initialize MEE:"; LogThrown err])
      end
  end.

Definition fetchBalance := Page.fetchBalance.

(** [executeTransfers], lines 224-304. *)
Definition executeTransfers (w : World) (embeddedWallet : option Wallet) : M unit :=
  let* state := snapshot in
  match orchestrator state, meeClient state, embeddedWallet with
  | Some orchestrator, Some meeClient, Some _ =>
      let* validRecipients := lift (validRecipients_of (recipients state)) in
      if (length validRecipients =? 0)%nat then
        setStatus "Error: Please add at least one recipient."
      else
        try_catch
          (setStatus "Preparing transaction..." >>
           try_catch
             (await (CallSwitchChain base_id) (switchChain w base_id))
             (λ e, console_log [LogText "[Privy] Already on Base or switch not needed"]) >>
           transfer_flow w orchestrator meeClient validRecipients)
          transfer_failed
  | _, _, _ => setStatus "Error: MEE client not initialized. Please wait..."
  end.

(** [PrivyExample], lines 553-610. *)
Definition PrivyExample (env : ImportMetaEnv) : View :=
  let appId := VITE_PRIVY_APP_ID env in
  if falsy appId then
    ConfigurationError
      {| page_title := "Privy + Biconomy MEE";
         card_title := "Configuration Required";
         missing := "Missing App ID";
         instruction := "Please add your Privy App ID to the .env file:";
         env_line := "VITE_PRIVY_APP_ID=your_privy_app_id_here";
         link := "https://dashboard.privy.io" |}
  else Provider "PrivyProvider" (or_empty appId) "PrivyWallet".

(** How the calls of the initialisation settle. *)
Definition init_outcome (w : World) (wallet_address : string) : outcome MeeClient :=
  and_then (switchChain w base_id) (λ _,
  and_then (getEthereumProvider w) (λ provider,
  and_then (getAddress w wallet_address) (λ address,
  and_then (toMultichainNexusAccount w
              (nexus_params (Signer.Privy.signer provider address))) (λ multiAccount,
  createMeeClient w multiAccount)))).

End PrivyPage.

(** ** src/pages/ParaExample.tsx *)

Module ParaPage.
Import Signer Page Config.
Local Open Scope page_scope.

(** The module-level client, lines 32-35:
    [new Para(Environment.BETA, import.meta.env.VITE_PARA_API_KEY || '')].
    It is built when the module is loaded, whatever the key. *)
Definition para_api_key (env : ImportMetaEnv) : string :=
  or_empty (VITE_PARA_API_KEY env).

(** [err instanceof Error ? err.message : String(err)] *)
Definition error_text (err : thrown) : string :=
  if instanceof_Error err then template (message err) else to_String err.

(** [initMee], lines 56-93. *)
Definition initMee (w : World) (wallet : option Wallet) (isConnected : bool) : M unit :=
  let* state := snapshot in
  match address_of wallet, isConnected with
  | Some wallet_address, true =>
      match meeClient state with
      | Some _ => ret tt
      | None =>
          try_catch
            (console_log [LogText "[Para] Initializing Biconomy MEE with Fusion mode..."] >>
             console_log [LogText "[Para] Wallet address:"; LogText wallet_address] >>
             let* viemParaAccount := await CallCreateParaAccount (createParaAccount w) in
             console_log [LogText "[Para] Created Para viem account"] >>
             let* multiAccount :=
               await (CallToMultichainNexusAccount (nexus_params viemParaAccount))
                     (toMultichainNexusAccount w (nexus_params viemParaAccount)) in
             set (SetOrchestrator multiAccount) >>
             let* mee :=
               await (CallCreateMeeClient multiAccount) (createMeeClient w multiAccount) in
             set (SetMeeClient mee) >>
             console_log [LogText "[Para] MEE Client initialized with Fusion mode"])
            (λ err,
             console_error [LogText "[Para] Failed to initialize MEE:"; LogThrown err] >>
             setStatus ("Error initializing MEE: " +:+ error_text err))
      end
  | _, _ => ret tt
  end.

Definition fetchBalance := Page.fetchBalance.

(** [executeTransfers], lines 154-227. *)
Definition executeTransfers (w : World) (wallet : option Wallet) : M unit :=
  let* state := snapshot in
  match orchestrator state, meeClient state, address_of wallet with
  | Some orchestrator, Some meeClient, Some _ =>
      let* validRecipients := lift (validRecipients_of (recipients state)) in
      if (length validRecipients =? 0)%nat then
        setStatus "Error: Please add at least one recipient."
      else
        try_catch
          (setStatus "Preparing transaction..." >>
           transfer_flow w orchestrator meeClient validRecipients)
          transfer_failed
  | _, _, _ => setStatus "Error: MEE client not initialized. Please wait..."
  end.

(** [ParaExample], lines 385-444. *)
Definition ParaExample (env : ImportMetaEnv) : View :=
  let apiKey := VITE_PARA_API_KEY env in
  if falsy apiKey then
    ConfigurationError
      {| page_title := "Para + Biconomy MEE";
         card_title := "Configuration Required";
         missing := "Missing API Key";
         instruction := "Please add your Para API key to the .env file:";
         env_line := "VITE_PARA_API_KEY=your_api_key_here";
         link := "https://developer.getpara.com" |}
  else Provider "ParaProvider" (or_empty apiKey) "ParaWallet".

(** How the calls of the initialisation settle. *)
Definition init_outcome (w : World) : outcome MeeClient :=
  and_then (createParaAccount w) (λ viemParaAccount,
  and_then (toMultichainNexusAccount w (nexus_params viemParaAccount)) (λ multiAccount,
  createMeeClient w multiAccount)).

End ParaPage.

(** ** src/pages/DynamicExample.tsx *)

Module DynamicPage.
Import Signer Page Config.
Local Open Scope page_scope.

Definition error_text (err : thrown) : string :=
  if instanceof_Error err then template (message err) else to_String err.

(** [initMee], lines 65-147. *)
Definition initMee (w : World) (primaryWallet : option Wallet) : M unit :=
  let* state := snapshot in
  match address_of primaryWallet, primaryWallet with
  | Some wallet_address, Some wallet =>
      match meeClient state with
      | Some _ => ret tt
      | None =>
          if negb (isEthereumWallet wallet) then
            console_error [LogText "[Dynamic] Wallet is not an Ethereum wallet"]
          else
            try_catch
              (console_log [LogText "[Dynamic] Initializing Biconomy MEE with Fusion mode..."] >>
               try_catch
                 (await (CallSwitchChain base_id) (switchChain w base_id) >>
                  console_log [LogText "[Dynamic] Switched to Base network"])
                 (λ switchErr,
                  console_log [LogText "[Dynamic] Network switch skipped:"; LogThrown switchErr]) >>
               let* walletClient :=
                 await (CallGetWalletClient (Number_toString base_id))
                       (getWalletClient w (Number_toString base_id)) in
               let* address := lift (getAddress w wallet_address) in
               console_log [LogText "[Dynamic] Wallet address:"; LogText address] >>
               let signer := Signer.Dynamic.signer walletClient address in
               let* multiAccount :=
                 await (CallToMultichainNexusAccount (nexus_params signer))
                       (toMultichainNexusAccount w (nexus_params signer)) in
               set (SetOrchestrator multiAccount) >>
               let* mee :=
                 await (CallCreateMeeClient multiAccount) (createMeeClient w multiAccount) in
               set (SetMeeClient mee) >>
               console_log [LogText "[Dynamic] MEE Client initialized with Fusion mode"])
              (λ err,
               console_error [LogText "[Dynamic] Failed to initialize MEE:"; LogThrown err] >>
               setStatus ("Error initializing MEE: " +:+ error_text err))
      end
  | _, _ => ret tt
  end.

Definition fetchBalance := Page.fetchBalance.

(** [executeTransfers], lines 208-289. *)
Definition executeTransfers (w : World) (primaryWallet : option Wallet) : M unit :=
  let* state := snapshot in
  match orchestrator state, meeClient state, primaryWallet with
  | Some orchestrator, Some meeClient, Some _ =>
      let* validRecipients := lift (validRecipients_of (recipients state)) in
      if (length validRecipients =? 0)%nat then
        setStatus "Error: Please add at least one recipient."
      else
        try_catch
          (setStatus "Preparing transaction..." >>
           try_catch
             (await (CallSwitchChain base_id) (switchChain w base_id) >>
              console_log [LogText "[Dynamic] Switched to Base for transfer"])
             (λ e,
              console_log [LogText "[Dynamic] Network switch skipped for transfer:"; LogThrown e]) >>
           transfer_flow w orchestrator meeClient validRecipients)
          transfer_failed
  | _, _, _ => setStatus "Error: MEE client not initialized. Please wait..."
  end.

(** [DynamicExample], lines 493-552. *)
Definition DynamicExample (env : ImportMetaEnv) : View :=
  let environmentId := VITE_DYNAMIC_ENVIRONMENT_ID env in
  if falsy environmentId then
    ConfigurationError
      {| page_title := "Dynamic + Biconomy MEE";
         card_title := "Configuration Required";
         missing := "Missing Environment ID";
         instruction := "Please add your Dynamic Environment ID to the .env file:";
         env_line := "VITE_DYNAMIC_ENVIRONMENT_ID=your_environment_id_here";
         link := "https://app.dynamic.xyz" |}
  else Provider "DynamicContextProvider" (or_empty environmentId) "DynamicWallet".

(** How the calls of the initialisation settle; the network switch is
    not among them, its rejection is logged and the run goes on. *)
Definition init_outcome (w : World) (wallet_address : string) : outcome MeeClient :=
  and_then (getWalletClient w (Number_toString base_id)) (λ walletClient,
  and_then (getAddress w wallet_address) (λ address,
  and_then (toMultichainNexusAccount w
              (nexus_params (Signer.Dynamic.signer walletClient address))) (λ multiAccount,
  createMeeClient w multiAccount))).

End DynamicPage.

(** ** Concrete inputs *)

Module Sample.
Import Signer Page Config.

(** A provider whose session is authenticated for another address than
    the one the adapter captured, and which signs with that session. *)
Definition other_session_provider : EthereumProvider :=
  {| session_address := Some "0xBBbbBBbbBBbbBBbbBBbbBBbbBBbbBBbbBBbbBBbb";
     request := λ _, Resolved "0x5160b5" |}.

(** A wallet client in the same situation. *)
Definition other_session_wallet : WalletClient :=
  {| wc_account := Some "0xAAaaAAaaAAaaAAaaAAaaAAaaAAaaAAaaAAaaAAaa";
     wc_session_address := Some "0xBBbbBBbbBBbbBBbbBBbbBBbbBBbbBBbbBBbbBBbb";
     wc_signMessage := λ _ _, Resolved "0x5160b5";
     wc_signTypedData := λ _, Resolved "0x5160b5" |}.

Definition captured_address : string := "0xAAaaAAaaAAaaAAaaAAaaAAaaAAaaAAaaAAaaAAaa".

Definition connected_wallet : option Wallet :=
  Some {| wallet_address := Some captured_address; isEthereumWallet := true |}.

(** A world in which every call succeeds; the balance reply is 1 USDC. *)
Definition fair_world : World :=
  {| switchChain := λ _, Resolved tt;
     getEthereumProvider := Resolved other_session_provider;
     getWalletClient := λ _, Resolved other_session_wallet;
     createParaAccount := Resolved (Signer.Privy.signer other_session_provider captured_address);
     getAddress := λ a, Resolved a;
     toMultichainNexusAccount := λ _, Resolved (NexusAccount 1);
     createMeeClient := λ _, Resolved (MeeClientHandle 1);
     buildComposable := λ _ c, Resolved (Built (String.length (args c).1));
     getFusionQuote := λ _ _, Resolved (Quote 1);
     executeFusionQuote := λ _ _, Resolved "0xhash";
     getMeeScanLink := λ hash, "https://meescan.biconomy.io/details/" +:+ hash;
     waitForSupertransactionReceipt := λ _ _, Resolved tt;
     fetch := λ _, Resolved {| json := Resolved (VObject [
                ("jsonrpc", VString "2.0"); ("id", VNumber 1);
                ("result", VString "0x0f4240")]) |};
     BigInt := λ _, Resolved 1000000;
     settles_first := 0 |}.

(** The same world with the network down. *)
Definition offline_world : World :=
  {| switchChain := λ _, Rejected (Error "Failed to fetch");
     getEthereumProvider := Rejected (Error "Failed to fetch");
     getWalletClient := λ _, Rejected (Error "Failed to fetch");
     createParaAccount := Rejected (Error "Failed to fetch");
     getAddress := λ a, Resolved a;
     toMultichainNexusAccount := λ _, Rejected (Error "Failed to fetch");
     createMeeClient := λ _, Rejected (Error "Failed to fetch");
     buildComposable := λ _ _, Rejected (Error "Failed to fetch");
     getFusionQuote := λ _ _, Rejected (Error "Failed to fetch");
     executeFusionQuote := λ _ _, Rejected (Error "Failed to fetch");
     getMeeScanLink := λ hash, "https://meescan.biconomy.io/details/" +:+ hash;
     waitForSupertransactionReceipt := λ _ _, Rejected (Error "Failed to fetch");
     fetch := λ _, Rejected (TypeError "Failed to fetch");
     BigInt := λ _, Resolved 0;
     settles_first := 0 |}.

(** The recipients of the end-to-end scenario. *)
Definition two_recipients : list string :=
  ["0xabc0000000000000000000000000000000000001";
   "0xabc0000000000000000000000000000000000002"].

(** A page whose account and client are initialised. *)
Definition ready_state (rs : list slot) : PageState :=
  {| status := None; recipients := rs; balance := Some 1000000;
     meeScanLink := None; meeClient := Some (MeeClientHandle 1);
     orchestrator := Some (NexusAccount 1) |}.

Definition no_key : ImportMetaEnv :=
  {| VITE_PARA_API_KEY := None; VITE_WALLETCONNECT_PROJECT_ID := None;
     VITE_PRIVY_APP_ID := None; VITE_DYNAMIC_ENVIRONMENT_ID := None |}.

End Sample.

(** ** The three provider pages side by side *)

Module Pages.
Import Signer Page.
Local Open Scope page_scope.

Inductive page : Type := OnPrivy | OnPara | OnDynamic.

Definition executeTransfers_of (p : page) (w : World) (wallet : option Wallet) : M unit :=
  match p with
  | OnPrivy => PrivyPage.executeTransfers w wallet
  | OnPara => ParaPage.executeTransfers w wallet
  | OnDynamic => DynamicPage.executeTransfers w wallet
  end.

Definition initMee_of (p : page) (w : World) (wallet : option Wallet) (isConnected : bool)
    : M unit :=
  match p with
  | OnPrivy => PrivyPage.initMee w wallet
  | OnPara => ParaPage.initMee w wallet isConnected
  | OnDynamic => DynamicPage.initMee w wallet
  end.

(** The wallet test of the first guard of [executeTransfers]:
    [!embeddedWallet], [!wallet?.address], [!primaryWallet]. *)
Definition wallet_present (p : page) (wallet : option Wallet) : bool :=
  match p with
  | OnPara => match address_of wallet with Some _ => true | None => false end
  | OnPrivy | OnDynamic => match wallet with Some _ => true | None => false end
  end.

(** The first guard of [executeTransfers] passes. *)
Definition initialised (p : page) (wallet : option Wallet) (st : PageState) : bool :=
  match orchestrator st, meeClient st with
  | Some _, Some _ => wallet_present p wallet
  | _, _ => false
  end.

(** What the chain switch at the head of [executeTransfers] leaves in
    the trace: nothing on the Para page, the call and a console line on
    the other two. *)
Definition switch_trace (p : page) (w : World) : list event :=
  match p with
  | OnPara => []
  | OnPrivy =>
      Called (CallSwitchChain base_id) ::
      match switchChain w base_id with
      | Resolved _ => []
      | Rejected _ => [ConsoleLog [LogText "[Privy] Already on Base or switch not needed"]]
      end
  | OnDynamic =>
      Called (CallSwitchChain base_id) ::
      match switchChain w base_id with
      | Resolved _ => [ConsoleLog [LogText "[Dynamic] Switched to Base for transfer"]]
      | Rejected e =>
          [ConsoleLog [LogText "[Dynamic] Network switch skipped for transfer:"; LogThrown e]]
      end
  end.

(** The transfer flow inside the [try] of [executeTransfers], with its
    [catch]. *)
Definition caught_flow (w : World) (orchestrator : MultichainSmartAccount)
    (meeClient : MeeClient) (validRecipients : list slot) : M unit :=
  try_catch (transfer_flow w orchestrator meeClient validRecipients) transfer_failed.

(** The calls a trace makes outside the repository, in order. *)
Definition calls_of (t : list event) : list call :=
  omap (λ ev, match ev with Called c => Some c | _ => None end) t.

(** The [buildComposable] calls of a trace, with the account they are
    made on. *)
Definition build_calls (t : list event) : list (MultichainSmartAccount * ComposableCall) :=
  omap (λ ev, match ev with
              | Called (CallBuildComposable account c) => Some (account, c)
              | _ => None
              end) t.

(** The unhandled rejections of a trace. *)
Definition unhandled (t : list event) : list thrown :=
  omap (λ ev, match ev with UnhandledRejection e => Some e | _ => None end) t.

(** How the flow settles up to the execution: the hash of the
    supertransaction, if it got that far. *)
Definition executed (w : World) (orchestrator : MultichainSmartAccount)
    (meeClient : MeeClient) (validRecipients : list slot) : outcome string :=
  and_then (built_transfers w orchestrator validRecipients) (λ transfers,
  and_then (getFusionQuote w meeClient
              (quote_request transfers (Z.of_nat (length transfers) * TRANSFER_AMOUNT)))
    (λ fusionQuote, executeFusionQuote w meeClient fusionQuote)).

(** The statuses of a transfer that goes through, in the order the page
    shows them. *)
Definition progress_statuses : list (option string) :=
  [Some "Preparing transaction...";
   Some "Building transfer instructions...";
   Some "Simulating & requesting Fusion Quote...";
   Some "Awaiting signature...";
   Some "Waiting for confirmation...";
   Some "Transaction confirmed!"].

(** Every call of the transfer flow resolves. *)
Definition flow_succeeds (w : World) (orchestrator : MultichainSmartAccount)
    (meeClient : MeeClient) (validRecipients : list slot) : Prop :=
  is_resolved (transfer_outcome w orchestrator meeClient validRecipients) = true.

(** Two worlds that differ at most in what the chain switch answers. *)
Definition same_but_switch (w1 w2 : World) : Prop :=
  buildComposable w1 = buildComposable w2
  ∧ getFusionQuote w1 = getFusionQuote w2
  ∧ executeFusionQuote w1 = executeFusionQuote w2
  ∧ getMeeScanLink w1 = getMeeScanLink w2
  ∧ waitForSupertransactionReceipt w1 = waitForSupertransactionReceipt w2
  ∧ settles_first w1 = settles_first w2.

End Pages.

(** ** The calls of a transfer *)

Module Flow.
Import Signer Page Pages.

(** The calls the flow makes after the instructions are built: the
    quote, then the execution of the quote that came back, then the wait
    for the receipt of the hash that came back. *)
Definition later_calls (w : World) (orchestrator : MultichainSmartAccount)
    (meeClient : MeeClient) (validRecipients : list slot) : list call :=
  match built_transfers w orchestrator validRecipients with
  | Rejected _ => []
  | Resolved transfers =>
      let request := quote_request transfers (Z.of_nat (length transfers) * TRANSFER_AMOUNT) in
      CallGetFusionQuote meeClient request ::
      match getFusionQuote w meeClient request with
      | Rejected _ => []
      | Resolved fusionQuote =>
          CallExecuteFusionQuote meeClient fusionQuote ::
          match executeFusionQuote w meeClient fusionQuote with
          | Rejected _ => []
          | Resolved hash => [CallWaitForReceipt meeClient hash]
          end
      end
  end.

(** What a run of the flow, with its [catch], leaves behind. *)
Record flow_result (w : World) (orchestrator : MultichainSmartAccount)
    (meeClient : MeeClient) (validRecipients : list slot)
    (st st' : PageState) (t : list event) : Prop := {
  flow_status :
    status st' = transfer_status (transfer_outcome w orchestrator meeClient validRecipients);
  flow_recipients : recipients st' = recipients st;
  flow_balance : balance st' = balance st;
  flow_client : Page.meeClient st' = Page.meeClient st;
  flow_account : Page.orchestrator st' = Page.orchestrator st;
  flow_link :
    meeScanLink st'
    = match executed w orchestrator meeClient validRecipients with
      | Resolved hash => Some (getMeeScanLink w hash)
      | Rejected _ => meeScanLink st
      end;
  flow_builds :
    build_calls t = (λ r, (orchestrator, transfer_call r)) <$> validRecipients;
  flow_calls :
    calls_of t
    = ((λ r, CallBuildComposable orchestrator (transfer_call r)) <$> validRecipients)
      ++ later_calls w orchestrator meeClient validRecipients;
  flow_statuses :
    is_resolved (transfer_outcome w orchestrator meeClient validRecipients) = true →
    status_updates t = tail progress_statuses;
  flow_last_status : last (status_updates t) = Some (status st');
  flow_unhandled : unhandled t = []
}.

End Flow.

(** ** One shape for the three [executeTransfers] *)

Module Shape.
Import Signer Page Pages.

Definition not_initialised_status : string :=
  "Error: MEE client not initialized. Please wait...".

Definition no_recipient_status : string :=
  "Error: Please add at least one recipient.".

(** [executeTransfers] with the differences between the pages (the
    wallet test of the guard, the chain switch) taken out as
    [wallet_present] and [switch_trace]. *)
Definition executeTransfers_shape (p : page) (w : World) (wallet : option Wallet)
    : M unit := λ st,
  match orchestrator st, meeClient st, wallet_present p wallet with
  | Some orch, Some mee, true =>
      match validRecipients_of (recipients st) with
      | Rejected e => (Rejected e, st, [])
      | Resolved valid =>
          if (length valid =? 0)%nat then setStatus no_recipient_status st
          else
            after (StateSet (SetStatus (Some "Preparing transaction...")) :: switch_trace p w)
              (caught_flow w orch mee valid
                 (apply_update (SetStatus (Some "Preparing transaction...")) st))
      end
  | _, _, _ => setStatus not_initialised_status st
  end.

(** The request of the flow as the claim of a recipient reads it: a
    transfer of 0.1 USDC on Base. *)
Definition usdc_transfer_to (recipient : string) : ComposableCall :=
  {| call_type := "default";
     abi := "erc20Abi";
     call_chainId := 8453;
     to := "0x833589fCD6eDb6E08f4c7C32D4f71b54bdA02913";
     functionName := "transfer";
     args := (recipient, 100000) |}.

(** Every string of the list is blank. *)
Definition all_blank (rs : list string) : bool := forallb blank rs.

End Shape.

(** ** More concrete inputs *)

Module Scenario.
Import Signer Page Config Pages.

(** The world of [Sample.fair_world] with one answer changed. *)
Definition with_switch (answer : outcome unit) (w : World) : World :=
  {| switchChain := λ _, answer;
     getEthereumProvider := getEthereumProvider w;
     getWalletClient := getWalletClient w;
     createParaAccount := createParaAccount w;
     getAddress := getAddress w;
     toMultichainNexusAccount := toMultichainNexusAccount w;
     createMeeClient := createMeeClient w;
     buildComposable := buildComposable w;
     getFusionQuote := getFusionQuote w;
     executeFusionQuote := executeFusionQuote w;
     getMeeScanLink := getMeeScanLink w;
     waitForSupertransactionReceipt := waitForSupertransactionReceipt w;
     fetch := fetch w;
     BigInt := BigInt w;
     settles_first := settles_first w |}.

Definition with_receipt (answer : outcome unit) (w : World) : World :=
  {| switchChain := switchChain w;
     getEthereumProvider := getEthereumProvider w;
     getWalletClient := getWalletClient w;
     createParaAccount := createParaAccount w;
     getAddress := getAddress w;
     toMultichainNexusAccount := toMultichainNexusAccount w;
     createMeeClient := createMeeClient w;
     buildComposable := buildComposable w;
     getFusionQuote := getFusionQuote w;
     executeFusionQuote := executeFusionQuote w;
     getMeeScanLink := getMeeScanLink w;
     waitForSupertransactionReceipt := λ _ _, answer;
     fetch := fetch w;
     BigInt := BigInt w;
     settles_first := settles_first w |}.

Definition with_client (answer : outcome MeeClient) (w : World) : World :=
  {| switchChain := switchChain w;
     getEthereumProvider := getEthereumProvider w;
     getWalletClient := getWalletClient w;
     createParaAccount := createParaAccount w;
     getAddress := getAddress w;
     toMultichainNexusAccount := toMultichainNexusAccount w;
     createMeeClient := λ _, answer;
     buildComposable := buildComposable w;
     getFusionQuote := getFusionQuote w;
     executeFusionQuote := executeFusionQuote w;
     getMeeScanLink := getMeeScanLink w;
     waitForSupertransactionReceipt := waitForSupertransactionReceipt w;
     fetch := fetch w;
     BigInt := BigInt w;
     settles_first := settles_first w |}.

Definition with_builds
    (answer : MultichainSmartAccount → ComposableCall → outcome Instruction)
    (first : nat) (w : World) : World :=
  {| switchChain := switchChain w;
     getEthereumProvider := getEthereumProvider w;
     getWalletClient := getWalletClient w;
     createParaAccount := createParaAccount w;
     getAddress := getAddress w;
     toMultichainNexusAccount := toMultichainNexusAccount w;
     createMeeClient := createMeeClient w;
     buildComposable := answer;
     getFusionQuote := getFusionQuote w;
     executeFusionQuote := executeFusionQuote w;
     getMeeScanLink := getMeeScanLink w;
     waitForSupertransactionReceipt := waitForSupertransactionReceipt w;
     fetch := fetch w;
     BigInt := BigInt w;
     settles_first := first |}.

(** Both builds of [Sample.two_recipients] reject, and the rejection of
    the second settles before that of the first. *)
Definition racing_world : World :=
  with_builds
    (λ _ c,
       if String.eqb (args c).1 "0xabc0000000000000000000000000000000000001"
       then Rejected (Error "first (late)")
       else Rejected (Error "second (early)"))
    1 Sample.fair_world.

Definition timeout_error : thrown := Error "Timed out waiting for receipt".

(** Every call succeeds but the wait for the receipt. *)
Definition receipt_lost_world : World :=
  with_receipt (Rejected timeout_error) Sample.fair_world.

(** Every call succeeds but the chain switch. *)
Definition no_switch_world : World :=
  with_switch (Rejected (Error "Unsupported chain")) Sample.fair_world.

(** Every call succeeds but the creation of the client. *)
Definition no_client_world : World :=
  with_client (Rejected (Error "MEE node unreachable")) Sample.fair_world.

(** An initialised page that still shows the link of an earlier
    transfer. *)
Definition state_after_a_transfer : PageState :=
  {| status := Some "Transaction confirmed!";
     recipients := Str <$> Sample.two_recipients;
     balance := Some 1000000;
     meeScanLink := Some "https://meescan.biconomy.io/details/0xolder";
     meeClient := Some (MeeClientHandle 1);
     orchestrator := Some (NexusAccount 1) |}.

End Scenario.

(** ** The initialisation, page by page *)

Module Init.
Import Signer Page Pages.

(** How the calls of [initMee] settle up to the account factory. *)
Definition init_account (p : page) (w : World) (wallet_address : string)
    : outcome MultichainSmartAccount :=
  match p with
  | OnPrivy =>
      and_then (switchChain w base_id) (λ _,
      and_then (getEthereumProvider w) (λ provider,
      and_then (getAddress w wallet_address) (λ address,
      toMultichainNexusAccount w (nexus_params (Signer.Privy.signer provider address)))))
  | OnPara =>
      and_then (createParaAccount w) (λ viemParaAccount,
      toMultichainNexusAccount w (nexus_params viemParaAccount))
  | OnDynamic =>
      and_then (getWalletClient w (Number_toString base_id)) (λ walletClient,
      and_then (getAddress w wallet_address) (λ address,
      toMultichainNexusAccount w (nexus_params (Signer.Dynamic.signer walletClient address))))
  end.

(** And up to the client factory. *)
Definition init_client (p : page) (w : World) (wallet_address : string) : outcome MeeClient :=
  and_then (init_account p w wallet_address) (createMeeClient w).

(** The guards of [initMee]: the address it goes to work with, if it
    does. *)
Definition init_starts (p : page) (wallet : option Wallet) (isConnected : bool)
    (st : PageState) : option string :=
  match meeClient st with
  | Some _ => None
  | None =>
      match p with
      | OnPrivy => address_of wallet
      | OnPara => if isConnected then address_of wallet else None
      | OnDynamic =>
          match wallet with
          | Some connected => if isEthereumWallet connected then address_of wallet else None
          | None => None
          end
      end
  end.

(** The status [initMee] leaves when its calls settle as [o]: the page's
    own error text on the Para and Dynamic pages, the status it found on
    the Privy page. *)
Definition init_status (p : page) {A} (o : outcome A) (before : option string)
    : option string :=
  match o, p with
  | Resolved _, _ => before
  | Rejected _, OnPrivy => before
  | Rejected err, OnPara => Some ("Error initializing MEE: " +:+ ParaPage.error_text err)
  | Rejected err, OnDynamic => Some ("Error initializing MEE: " +:+ DynamicPage.error_text err)
  end.

(** The arguments of the account-factory calls of a trace. *)
Definition factory_calls (t : list event) : list NexusParams :=
  omap (λ ev, match ev with
              | Called (CallToMultichainNexusAccount params) => Some params
              | _ => None
              end) t.

(** The one chain configuration the pages pass: Base, MEE 2.1.0. *)
Definition base_only (params : NexusParams) : Prop :=
  chainConfigurations params = [{| chain := 8453; transport := "http()"; version := "2.1.0" |}].

(** Two worlds that differ at most in what the chain switch answers,
    for the initialisation. *)
Definition same_but_switch_init (w1 w2 : World) : Prop :=
  getEthereumProvider w1 = getEthereumProvider w2
  ∧ getWalletClient w1 = getWalletClient w2
  ∧ createParaAccount w1 = createParaAccount w2
  ∧ getAddress w1 = getAddress w2
  ∧ toMultichainNexusAccount w1 = toMultichainNexusAccount w2
  ∧ createMeeClient w1 = createMeeClient w2.

(** A client in the state comes with an account. *)
Definition coherent (st : PageState) : Prop :=
  is_Some (meeClient st) → is_Some (orchestrator st).

End Init.

(** ** The balance read *)

Module Balance.
Import Signer Page Pages.

(** What the reply to the balance request amounts to: the new balance,
    nothing when the reply has no (truthy) [result], or the error of the
    first step that fails. *)
Definition balance_reply (w : World) (address : string) : outcome (option Z) :=
  and_then (fetch w (balance_request address)) (λ response,
  and_then (json response) (λ data,
  and_then (get_property data "result") (λ result,
  if truthy result then and_then (BigInt w result) (λ b, Resolved (Some b))
  else Resolved None))).

(** The balance after a read that found [before]. *)
Definition balance_after (w : World) (wallet : option Wallet) (before : option Z)
    : option Z :=
  match address_of wallet with
  | None => before
  | Some address =>
      match balance_reply w address with
      | Resolved (Some b) => Some b
      | _ => before
      end
  end.

(** The state with another balance. *)
Definition with_balance (b : option Z) (st : PageState) : PageState :=
  {| status := status st; recipients := recipients st; balance := b;
     meeScanLink := meeScanLink st; meeClient := meeClient st;
     orchestrator := orchestrator st |}.

(** The requests of a trace. *)
Definition fetches (t : list event) : list FetchRequest :=
  omap (λ ev, match ev with Called (CallFetch r) => Some r | _ => None end) t.

(** The balance the poll leaves: the one of the last tick that read
    one. *)
Definition polled_balance (ticks : list World) (wallet : option Wallet) (before : option Z)
    : option Z :=
  foldl (λ b w, balance_after w wallet b) before ticks.

End Balance.

(** ** A page over time *)

Module Session.
Import Signer Page Pages Init Balance.
Local Open Scope page_scope.

(** What happens on a page that is mounted for a wallet: the effect that
    runs [initMee], a tick of the balance poll, an edit of the list of
    recipients, a click on Pay Now.  The world is the one of that
    moment. *)
Inductive happening : Type :=
| Effect (w : World)
| Tick (w : World)
| Edit (a : recipient_action)
| Pay (w : World).

(** The three recipient handlers as they act on the state. *)
Definition edit (a : recipient_action) : M unit :=
  let* state := snapshot in
  match a with
  | Change index value =>
      set (SetRecipients (handleRecipientChange (recipients state) index value))
  | Add => set (SetRecipients (addRecipient (recipients state)))
  | Remove index =>
      if (1 <? length (recipients state))%nat
      then set (SetRecipients (removeRecipient (recipients state) index))
      else ret tt
  end.

(** The handler behind each happening, started the way React and the
    timer start it: not awaited. *)
Definition handler (p : page) (wallet : option Wallet) (isConnected : bool)
    (h : happening) : M unit :=
  match h with
  | Effect w => spawn (initMee_of p w wallet isConnected)
  | Tick w => spawn (Page.fetchBalance w wallet)
  | Edit a => edit a
  | Pay w => spawn (executeTransfers_of p w wallet)
  end.

(** The happenings one after the other, each handler run to its end
    before the next one starts. *)
Fixpoint happen (p : page) (wallet : option Wallet) (isConnected : bool)
    (hs : list happening) : M unit :=
  match hs with
  | [] => ret tt
  | h :: later => handler p wallet isConnected h >> happen p wallet isConnected later
  end.

(** The edits are those the page offers at the time. *)
Fixpoint offered_throughout (p : page) (wallet : option Wallet) (isConnected : bool)
    (hs : list happening) (st : PageState) : Prop :=
  match hs with
  | [] => True
  | h :: later =>
      match h with Edit a => offered (recipients st) a | _ => True end
      ∧ offered_throughout p wallet isConnected later (handler p wallet isConnected h st).1.2
  end.

Definition edits (hs : list happening) : list recipient_action :=
  omap (λ h, match h with Edit a => Some a | _ => None end) hs.

Definition ticks (hs : list happening) : list World :=
  omap (λ h, match h with Tick w => Some w | _ => None end) hs.

(** Every entry of the list is a string. *)
Definition strings (rs : list slot) : Prop := ∃ ss : list string, rs = Str <$> ss.

End Session.

(** ** The argument of the Dynamic adapter's [signTypedData] *)

Module Adapters.
Import Signer.

(** The value a property list gives a name when it is read as the
    properties of an object written in that order: the last one
    written. *)
Definition written (k : string) (fields : list (string * value)) : option value :=
  assoc k (reverse fields).

(** The arguments of the [signTypedData] calls that reach a wallet
    client. *)
Definition typed_data_args (calls : list transport_call) : list (list (string * value)) :=
  omap (λ c, match c with WalletSignTypedData arg => Some arg | _ => None end) calls.

End Adapters.

(** ** The Biconomy page (src/pages/BiconomyExample.tsx)

    The page talks to the browser wallet ([window.ethereum]) directly.
    It has no status line: what its handlers have to say goes to the
    console through [addLog], and to [alert]. *)

Module Biconomy.
Import Signer.

(** A thrown value as this page reads it: besides the message, the
    [code] of an EIP-1193 error. *)
Record raised := Raised {
  what : thrown;
  code : option Z
}.

Definition plain (e : thrown) : raised := {| what := e; code := None |}.

Inductive settled (A : Type) : Type :=
| Fulfilled (a : A)
| Failed (e : raised).
Arguments Fulfilled {A} a.
Arguments Failed {A} e.

Definition is_fulfilled {A} (s : settled A) : bool :=
  match s with Fulfilled _ => true | Failed _ => false end.

(** The hexadecimal digits of a non-negative integer. *)
Fixpoint hex_digits_of (fuel : nat) (n : N) (acc : list ascii) : list ascii :=
  match fuel with
  | O => acc
  | S fuel' =>
      let acc' := hex_digit (n mod 16) :: acc in
      if (n / 16 =? 0)%N then acc' else hex_digits_of fuel' (n / 16) acc'
  end.

(** [n.toString(16)] on an integral number: the digits of the double
    the integer stands for, which base 16 writes in full, after a [-]
    for a negative number. *)
Definition Number_toString_16 (z : Z) : string :=
  (if z <? 0 then "-" else "") +:+
  match nearest_double (Z.abs z) with
  | None => "Infinity"
  | Some v =>
      let n := Z.to_N v in
      of_chars (hex_digits_of (S (N.to_nat (N.log2 n))) n [])
  end.

(** [s.slice(0, n)] and [s.slice(-n)] *)
Definition slice_to (n : nat) (s : string) : string := of_chars (take n (chars s)).
Definition slice_last (n : nat) (s : string) : string :=
  of_chars (drop (length (chars s) - n) (chars s)).

(** [`0x${base.id.toString(16)}`] *)
Definition base_chainId : string := "0x" +:+ Number_toString_16 Page.base_id.

(** [createWalletClient({ account?, transport: custom(window.ethereum) })] *)
Inductive ViemWalletClient : Type :=
| ViemClient (account : option string).

(** The argument of [toMultichainNexusAccount]: Base with MEE 2.1.0, and
    a wallet client for the address as the signer. *)
Record AccountParams := {
  chainConfigurations : list Page.ChainConfiguration;
  signer : ViemWalletClient
}.

(** The browser wallet and the SDK, by what they answer. *)
Record World := {
  ethereum_defined : bool;
  wallet_switchEthereumChain : string → settled unit;
  wallet_addEthereumChain : string → settled unit;
  requestAddresses : settled (list string);
  toMultichainNexusAccount : AccountParams → settled Page.MultichainSmartAccount;
  createMeeClient : Page.MultichainSmartAccount → settled Page.MeeClient;
  buildComposable : Page.MultichainSmartAccount → Page.ComposableCall → settled Page.Instruction;
  getFusionQuote : Page.MeeClient → Page.FusionQuoteParams → settled Page.FusionQuote;
  executeFusionQuote : Page.MeeClient → Page.FusionQuote → settled string;
  getMeeScanLink : string → string;
  waitForSupertransactionReceipt : Page.MeeClient → string → settled unit;
  (* timing: which rejection of a [Promise.all] settles first *)
  settles_first : nat
}.

(** The [useState] cells of the component. *)
Record State := {
  account : option string;
  walletClient : option ViemWalletClient;
  meeClient : option Page.MeeClient;
  orchestrator : option Page.MultichainSmartAccount;
  meeScanLink : option string;
  recipients : list slot
}.

Definition initial_state : State :=
  {| account := None; walletClient := None; meeClient := None; orchestrator := None;
     meeScanLink := None; recipients := [Str ""] |}.

Inductive update : Type :=
| SetAccount (a : option string)
| SetWalletClient (c : ViemWalletClient)
| SetMeeClient (mee : Page.MeeClient)
| SetOrchestrator (multiAccount : Page.MultichainSmartAccount)
| SetMeeScanLink (link : string)
| SetRecipients (rs : list slot).

Definition apply_update (u : update) (st : State) : State :=
  match u with
  | SetAccount a =>
      {| account := a; walletClient := walletClient st; meeClient := meeClient st;
         orchestrator := orchestrator st; meeScanLink := meeScanLink st;
         recipients := recipients st |}
  | SetWalletClient c =>
      {| account := account st; walletClient := Some c; meeClient := meeClient st;
         orchestrator := orchestrator st; meeScanLink := meeScanLink st;
         recipients := recipients st |}
  | SetMeeClient mee =>
      {| account := account st; walletClient := walletClient st; meeClient := Some mee;
         orchestrator := orchestrator st; meeScanLink := meeScanLink st;
         recipients := recipients st |}
  | SetOrchestrator multiAccount =>
      {| account := account st; walletClient := walletClient st; meeClient := meeClient st;
         orchestrator := Some multiAccount; meeScanLink := meeScanLink st;
         recipients := recipients st |}
  | SetMeeScanLink link =>
      {| account := account st; walletClient := walletClient st; meeClient := meeClient st;
         orchestrator := orchestrator st; meeScanLink := Some link;
         recipients := recipients st |}
  | SetRecipients rs =>
      {| account := account st; walletClient := walletClient st; meeClient := meeClient st;
         orchestrator := orchestrator st; meeScanLink := meeScanLink st;
         recipients := rs |}
  end.

(** The calls that leave the page. *)
Inductive call : Type :=
| SwitchEthereumChain (chainId : string)
| AddEthereumChain (chainId : string)
| RequestAddresses
| ToMultichainNexusAccount (params : AccountParams)
| CreateMeeClient (multiAccount : Page.MultichainSmartAccount)
| BuildComposable (multiAccount : Page.MultichainSmartAccount) (c : Page.ComposableCall)
| GetFusionQuote (mee : Page.MeeClient) (params : Page.FusionQuoteParams)
| ExecuteFusionQuote (mee : Page.MeeClient) (fusionQuote : Page.FusionQuote)
| WaitForReceipt (mee : Page.MeeClient) (hash : string).

(** What a handler leaves behind, in order.  [AddLog msg] is the line
    [addLog] prints, without the clock time it puts in front. *)
Inductive event : Type :=
| Alert (msg : string)
| AddLog (msg : string)
| ConsoleError (e : raised)
| Called (c : call)
| StateSet (u : update).

Definition B (A : Type) : Type := State → settled A * State * list event.

Definition ret {A} (a : A) : B A := λ st, (Fulfilled a, st, []).

Definition bind {A C} (m : B A) (k : A → B C) : B C := λ st,
  match m st with
  | (Fulfilled a, st1, t1) => let '(r, st2, t2) := k a st1 in (r, st2, t1 ++ t2)
  | (Failed e, st1, t1) => (Failed e, st1, t1)
  end.

Definition try_catch {A} (m : B A) (handler : raised → B A) : B A := λ st,
  match m st with
  | (Failed e, st1, t1) => let '(r, st2, t2) := handler e st1 in (r, st2, t1 ++ t2)
  | done => done
  end.

Definition snapshot : B State := λ st, (Fulfilled st, st, []).
Definition emit (ev : event) : B unit := λ st, (Fulfilled tt, st, [ev]).
Definition set (u : update) : B unit := λ st, (Fulfilled tt, apply_update u st, [StateSet u]).
Definition await {A} (c : call) (answer : settled A) : B A := λ st, (answer, st, [Called c]).
Definition lift {A} (s : settled A) : B A := λ st, (s, st, []).

(** [addLog], lines 45-47. *)
Definition addLog (msg : string) : B unit := emit (AddLog msg).
Definition alert (msg : string) : B unit := emit (Alert msg).

Declare Scope biconomy_scope.
Delimit Scope biconomy_scope with biconomy.
Notation "'let*' x ':=' m 'in' k" := (bind m (λ x, k))
  (at level 10, x name, m at level 100, k at level 200) : biconomy_scope.
Notation "m >> k" := (bind m (λ _, k))
  (at level 100, k at level 200, right associativity) : biconomy_scope.
Local Open Scope biconomy_scope.

(** [window.ethereum.request(...)]: without [window.ethereum] the
    property read throws before any request is made. *)
Definition ethereum_request (w : World) (c : call) (answer : settled unit) : B unit :=
  if ethereum_defined w then await c answer
  else lift (Failed (plain
         (TypeError "Cannot read properties of undefined (reading 'request')"))).

(** [addBaseToWallet], lines 60-84. *)
Definition addBaseToWallet (w : World) : B unit :=
  try_catch
    (ethereum_request w (SwitchEthereumChain base_chainId)
       (wallet_switchEthereumChain w base_chainId))
    (λ switchError,
     if bool_decide (code switchError = Some 4902) then
       ethereum_request w (AddEthereumChain base_chainId)
         (wallet_addEthereumChain w base_chainId)
     else lift (Failed switchError)).

Definition account_params (address : option string) : AccountParams :=
  {| chainConfigurations :=
       [{| Page.chain := Page.base_id; Page.transport := "http()"; Page.version := "2.1.0" |}];
     signer := ViemClient address |}.

(** [address.slice(...)] on the first granted address, which is
    [undefined] when none was granted. *)
Definition address_pill (address : option string) : settled string :=
  match address with
  | Some a => Fulfilled (slice_to 6 a +:+ "..." +:+ slice_last 4 a)
  | None =>
      Failed (plain (TypeError "Cannot read properties of undefined (reading 'slice')"))
  end.

(** [connectAndInit], lines 86-130. *)
Definition connectAndInit (w : World) : B unit :=
  if negb (ethereum_defined w) then alert "MetaMask not detected"
  else
    try_catch
      (addLog "Initializing wallet connection..." >>
       set (SetWalletClient (ViemClient None)) >>
       let* addresses := await RequestAddresses (requestAddresses w) in
       let address := head addresses in
       set (SetAccount address) >>
       let* pill := lift (address_pill address) in
       addLog ("Wallet connected: " +:+ pill) >>
       addBaseToWallet w >>
       addLog "Network switched to Base" >>
       addLog "Creating Multichain Nexus Account..." >>
       let* multiAccount :=
         await (ToMultichainNexusAccount (account_params address))
               (toMultichainNexusAccount w (account_params address)) in
       set (SetOrchestrator multiAccount) >>
       addLog "Initializing MEE Client..." >>
       let* mee := await (CreateMeeClient multiAccount) (createMeeClient w multiAccount) in
       set (SetMeeClient mee) >>
       addLog "SYSTEM READY. MEE Client initialized.")
      (λ err, addLog ("ERROR: " +:+ template (message (what err)))).

(** [r.length > 0] on an element of the list. *)
Definition has_length (r : slot) : settled bool :=
  match r with
  | Str s => Fulfilled (0 <? str_length s)
  | _ => Failed (plain (TypeError "Cannot read properties of undefined (reading 'length')"))
  end.

(** [recipients.filter(r => r.length > 0)] *)
Fixpoint validRecipients_of (recipients : list slot) : settled (list slot) :=
  match recipients with
  | [] => Fulfilled []
  | x :: rest =>
      if is_hole x then validRecipients_of rest
      else
        match has_length x with
        | Failed e => Failed e
        | Fulfilled keep =>
            match validRecipients_of rest with
            | Failed e => Failed e
            | Fulfilled l => Fulfilled (if keep then x :: l else l)
            end
        end
  end.

(** [await Promise.all(calls)]: every call is made; the result is the
    list of the values, or the rejection that settles first, the later
    ones being dropped. [first] counts it among the rejections in list
    order, counting round. *)
Definition failures {A} (answers : list (settled A)) : list raised :=
  omap (λ s, match s with Failed e => Some e | Fulfilled _ => None end) answers.

Definition fulfilments {A} (answers : list (settled A)) : list A :=
  omap (λ s, match s with Fulfilled a => Some a | Failed _ => None end) answers.

Definition all_fulfilled {A} (first : nat) (answers : list (settled A)) : settled (list A) :=
  match failures answers with
  | [] => Fulfilled (fulfilments answers)
  | e :: later =>
      Failed (default e ((e :: later) !! (first mod length (e :: later))%nat))
  end.

Definition Promise_all {A} (first : nat) (calls : list (call * settled A)) : B (list A) :=
  λ st, (all_fulfilled first (snd <$> calls), st, (λ c, Called c.1) <$> calls).

(** [`${err.message ?? err}`] *)
Definition message_or_error (err : raised) : string :=
  match message (what err) with
  | Some m => m
  | None => to_String (what err)
  end.

(** [!account] *)
Definition no_account (st : State) : bool := Config.falsy (account st).

(** [executeTransfers], lines 132-201. *)
Definition executeTransfers (w : World) : B unit :=
  let* state := snapshot in
  match orchestrator state, meeClient state, no_account state with
  | Some orchestrator, Some meeClient, false =>
      try_catch
        (addLog "Switching to Base network..." >>
         addBaseToWallet w >>
         addLog "Encoding transfer instructions..." >>
         let* validRecipients := lift (validRecipients_of (recipients state)) in
         if (length validRecipients =? 0)%nat then addLog "ERROR: No valid recipients."
         else
           let* transfers :=
             Promise_all (settles_first w) ((λ recipient,
               (BuildComposable orchestrator (Page.transfer_call recipient),
                buildComposable w orchestrator (Page.transfer_call recipient)))
               <$> validRecipients) in
           let totalAmount := Z.of_nat (length transfers) * 100000 in
           addLog "Simulating & requesting Fusion Quote..." >>
           let* fusionQuote :=
             await (GetFusionQuote meeClient (Page.quote_request transfers totalAmount))
                   (getFusionQuote w meeClient (Page.quote_request transfers totalAmount)) in
           addLog "Quote received. Awaiting signature..." >>
           let* hash :=
             await (ExecuteFusionQuote meeClient fusionQuote)
                   (executeFusionQuote w meeClient fusionQuote) in
           let link := getMeeScanLink w hash in
           set (SetMeeScanLink link) >>
           addLog ("Transaction submitted. Hash: " +:+ slice_to 10 hash +:+ "...") >>
           addLog "Waiting for supertransaction receipt..." >>
           await (WaitForReceipt meeClient hash)
                 (waitForSupertransactionReceipt w meeClient hash) >>
           addLog "SUCCESS: Transaction confirmed on-chain.")
        (λ err, emit (ConsoleError err) >> addLog ("ERROR: " +:+ message_or_error err))
  | _, _, _ => alert "Account not initialized"
  end.

(** What the component shows, lines 217-321: the login card without an
    account; with one, the dashboard, whose parts that depend on the
    state are these. *)
Record Dashboard := {
  address_shown : string;
  initializing_notice : bool;
  pay_disabled : bool;
  pay_label : string;
  payment_successful : option string;
  remove_disabled : bool
}.

Inductive View : Type :=
| LoginCard
| DashboardView (d : Dashboard).

Definition BiconomyExample (st : State) : View :=
  match account st with
  | Some a =>
      if Config.falsy (Some a) then LoginCard
      else
        DashboardView
          {| address_shown := slice_to 6 a +:+ "..." +:+ slice_last 4 a;
             initializing_notice := negb (bool_decide (is_Some (meeClient st)));
             pay_disabled := negb (bool_decide (is_Some (meeClient st)));
             pay_label :=
               match meeClient st with
               | Some _ => "Pay Now"
               | None => "Setting up secure channel..."
               end;
             payment_successful :=
               if Config.falsy (meeScanLink st) then None else meeScanLink st;
             remove_disabled := (length (recipients st) =? 1)%nat |}
  | None => LoginCard
  end.

End Biconomy.

(** ** The Biconomy page, by how its calls settle *)

Module BiconomyFlow.
Import Signer Biconomy.

Definition and_then {A C} (s : settled A) (k : A → settled C) : settled C :=
  match s with
  | Fulfilled a => k a
  | Failed e => Failed e
  end.

(** How [addBaseToWallet] settles: as the switch request, or, when the
    wallet answers that it does not know the chain (code 4902), as the
    request that adds it. *)
Definition switched (w : World) : settled unit :=
  if ethereum_defined w then
    match wallet_switchEthereumChain w base_chainId with
    | Fulfilled u => Fulfilled u
    | Failed e =>
        if bool_decide (code e = Some 4902) then wallet_addEthereumChain w base_chainId
        else Failed e
    end
  else Failed (plain (TypeError "Cannot read properties of undefined (reading 'request')")).

(** The requests [addBaseToWallet] sends to the wallet. *)
Definition switch_trace (w : World) : list event :=
  if ethereum_defined w then
    Called (SwitchEthereumChain base_chainId) ::
    match wallet_switchEthereumChain w base_chainId with
    | Fulfilled _ => []
    | Failed e =>
        if bool_decide (code e = Some 4902) then [Called (AddEthereumChain base_chainId)]
        else []
    end
  else [].

(** The rows [r.length > 0] keeps. *)
Definition nonempty_rows (rs : list string) : list string :=
  List.filter (λ r, negb (String.eqb r "")) rs.

Definition built (w : World) (orch : Page.MultichainSmartAccount) (rows : list string)
    : settled (list Page.Instruction) :=
  all_fulfilled (settles_first w)
    ((λ r, buildComposable w orch (Page.transfer_call (Str r))) <$> rows).

(** The transfer up to the execution: the hash, if it got that far. *)
Definition executed (w : World) (orch : Page.MultichainSmartAccount) (mee : Page.MeeClient)
    (rows : list string) : settled string :=
  and_then (switched w) (λ _,
  and_then (built w orch rows) (λ transfers,
  and_then (getFusionQuote w mee
              (Page.quote_request transfers (Z.of_nat (length transfers) * 100000)))
    (λ fusionQuote, executeFusionQuote w mee fusionQuote))).

(** And to its end. *)
Definition confirmed (w : World) (orch : Page.MultichainSmartAccount) (mee : Page.MeeClient)
    (rows : list string) : settled unit :=
  and_then (executed w orch mee rows) (λ hash, waitForSupertransactionReceipt w mee hash).

(** The first guard of [executeTransfers] passes. *)
Definition initialised (st : State) : bool :=
  match orchestrator st, meeClient st with
  | Some _, Some _ => negb (no_account st)
  | _, _ => false
  end.

(** Projections of a trace. *)
Definition calls_of (t : list event) : list call :=
  omap (λ ev, match ev with Called c => Some c | _ => None end) t.

Definition builds (t : list event) : list (Page.MultichainSmartAccount * Page.ComposableCall) :=
  omap (λ ev, match ev with Called (BuildComposable a c) => Some (a, c) | _ => None end) t.

Definition logs (t : list event) : list string :=
  omap (λ ev, match ev with AddLog msg => Some msg | _ => None end) t.

Definition alerts (t : list event) : list string :=
  omap (λ ev, match ev with Alert msg => Some msg | _ => None end) t.

(** The connection up to the account and up to the client. *)
Definition first_address (w : World) : settled (option string) :=
  and_then (requestAddresses w) (λ addresses, Fulfilled (head addresses)).

Definition connect_account (w : World) : settled Page.MultichainSmartAccount :=
  and_then (first_address w) (λ address,
  and_then (address_pill address) (λ _,
  and_then (switched w) (λ _,
  toMultichainNexusAccount w (account_params address)))).

Definition connect_client (w : World) : settled Page.MeeClient :=
  and_then (connect_account w) (createMeeClient w).

(** A world in which the wallet grants one address and every later call
    answers as given. *)
Definition granting (address : string) (switch : settled unit)
    (client : settled Page.MeeClient) (receipt : settled unit) : World :=
  {| ethereum_defined := true;
     wallet_switchEthereumChain := λ _, switch;
     wallet_addEthereumChain := λ _, Fulfilled tt;
     requestAddresses := Fulfilled [address];
     toMultichainNexusAccount := λ _, Fulfilled (Page.NexusAccount 1);
     createMeeClient := λ _, client;
     buildComposable := λ _ c, Fulfilled (Page.Built (String.length (Page.args c).1));
     getFusionQuote := λ _ _, Fulfilled (Page.Quote 1);
     executeFusionQuote := λ _ _, Fulfilled "0xhash";
     getMeeScanLink := λ hash, "https://meescan.biconomy.io/details/" +:+ hash;
     waitForSupertransactionReceipt := λ _ _, receipt;
     settles_first := 0 |}.

Definition user_rejected : raised :=
  {| what := Error "User rejected the request."; code := Some 4001 |}.

Definition unknown_chain : raised :=
  {| what := Error "Unrecognized chain ID"; code := Some 4902 |}.

(** A connected page with the given rows. *)
Definition connected (rs : list slot) : State :=
  {| account := Some Sample.captured_address; walletClient := Some (ViemClient None);
     meeClient := Some (Page.MeeClientHandle 1); orchestrator := Some (Page.NexusAccount 1);
     meeScanLink := None; recipients := rs |}.

End BiconomyFlow.

(** ** The status line and the login form *)

Module StatusLine.
Import Signer Page Pages.

Fixpoint starts_with (needle hay : list ascii) : bool :=
  match needle, hay with
  | [], _ => true
  | _ :: _, [] => false
  | c :: needle', c' :: hay' => Ascii.eqb c c' && starts_with needle' hay'
  end.

Fixpoint includes_chars (needle hay : list ascii) : bool :=
  starts_with needle hay
  || match hay with
     | [] => false
     | _ :: hay' => includes_chars needle hay'
     end.

(** [s.includes(needle)] *)
Definition includes (s needle : string) : bool := includes_chars (chars needle) (chars s).

(** The [div] under the Pay Now button (lines 520-529 of
    PrivyExample.tsx, 352-361 of ParaExample.tsx, 460-469 of
    DynamicExample.tsx) and under the login form (lines 388-396 of
    PrivyExample.tsx). *)
Record StatusMessage := {
  className : string;
  text : string
}.

(** [status && <div className={`status-message ${status.includes('Error')
    ? 'status-error' : 'status-info'}`}>{status}</div>] *)
Definition status_message (status : option string) : option StatusMessage :=
  match status with
  | None => None
  | Some s =>
      if String.eqb s "" then None
      else Some {| className :=
                     "status-message " +:+
                     (if includes s "Error" then "status-error" else "status-info");
                   text := s |}
  end.


End StatusLine.

(** The email login of the Privy page. *)
Module PrivyLogin.
Import StatusLine.

(** The [useState] cells the login form reads and writes. *)
Record LoginState := {
  email : string;
  code : string;
  codeSent : bool;
  status : option string
}.

Definition initial_login : LoginState :=
  {| email := ""; code := ""; codeSent := false; status := None |}.

Definition setStatus (s : option string) (st : LoginState) : LoginState :=
  {| email := email st; code := code st; codeSent := codeSent st; status := s |}.

Definition setCodeSent (b : bool) (st : LoginState) : LoginState :=
  {| email := email st; code := code st; codeSent := b; status := status st |}.

Definition setCode (c : string) (st : LoginState) : LoginState :=
  {| email := email st; code := c; codeSent := codeSent st; status := status st |}.

Definition setEmail (e : string) (st : LoginState) : LoginState :=
  {| email := e; code := code st; codeSent := codeSent st; status := status st |}.

(** [handleSendCode], lines 183-192; [sendCode] is Privy's. *)
Definition handleSendCode (sendCode : string → outcome unit) (st : LoginState) : LoginState :=
  let st1 := setStatus (Some "Sending code...") st in
  match sendCode (email st) with
  | Resolved _ => setStatus (Some "Code sent! Check your email.") (setCodeSent true st1)
  | Rejected err => setStatus (Some ("Error: " +:+ template (message err))) st1
  end.

(** [handleLogin], lines 194-202; [loginWithCode] is Privy's. *)
Definition handleLogin (loginWithCode : string → outcome unit) (st : LoginState) : LoginState :=
  let st1 := setStatus (Some "Verifying code...") st in
  match loginWithCode (code st) with
  | Resolved _ => setStatus None st1
  | Rejected err => setStatus (Some ("Error: " +:+ template (message err))) st1
  end.

(** The handler of "Use Different Email", lines 377-381. *)
Definition useDifferentEmail (st : LoginState) : LoginState :=
  setStatus None (setCode "" (setCodeSent false st)).

(** The login form, lines 328-398, by what depends on the state. *)
Record LoginForm := {
  email_disabled : bool;
  send_code_button : option bool;       (* shown; its [disabled] *)
  verify_button : option bool;          (* shown; its [disabled] *)
  different_email_button : bool;
  message : option StatusMessage
}.

Definition login_form (st : LoginState) : LoginForm :=
  {| email_disabled := codeSent st;
     send_code_button := if codeSent st then None else Some (String.eqb (email st) "");
     verify_button := if codeSent st then Some (String.eqb (code st) "") else None;
     different_email_button := codeSent st;
     message := status_message (status st) |}.

End PrivyLogin.

(** * Properties *)

Import Signer.

(** ** Values and their serialisation *)

(** Induction on a value, with the hypothesis for every element of an
    array and every property of an object. *)
Lemma value_ind_nested (P : value → Prop) :
  P VUndefined → P VNull → (∀ b, P (VBool b)) → (∀ n, P (VNumber n)) →
  (∀ n, P (VBigInt n)) → (∀ s, P (VString s)) →
  (∀ items, Forall P items → P (VArray items)) →
  (∀ fields, Forall (λ kv, P kv.2) fields → P (VObject fields)) →
  ∀ v, P v.
Proof.
  intros HU HN HB HNum HBig HS HA HO.
  fix IH 1.
  intros [ | | b | n | n | s | items | fields];
    [exact HU | exact HN | apply HB | apply HNum | apply HBig | apply HS | apply HA | apply HO].
  - induction items as [|x items IHitems]; constructor; [apply IH | exact IHitems].
  - induction fields as [|[k x] fields IHfields]; constructor; [apply IH | exact IHfields].
Qed.

Lemma depth_item (x : value) (items : list value) :
  x ∈ items → (value_depth x ≤ foldr (λ x d, Nat.max (value_depth x) d) O items)%nat.
Proof.
  induction 1 as [x items|x y items _ IH]; simpl; lia.
Qed.

Lemma depth_field (kv : string * value) (fields : list (string * value)) :
  kv ∈ fields → (value_depth kv.2 ≤ foldr (λ kv d, Nat.max (value_depth kv.2) d) O fields)%nat.
Proof.
  induction 1 as [x items|x y items _ IH]; simpl; lia.
Qed.

(** The replacement keeps the shape of the payload. *)
Lemma depth_bigints_as_decimal_strings (v : value) :
  value_depth (bigints_as_decimal_strings v) = value_depth v.
Proof.
  induction v as [ | | b | n | n | s | items IH | fields IH] using value_ind_nested;
    try reflexivity; simpl; f_equal.
  - induction IH as [|x items Hx _ IHitems]; simpl; [reflexivity|].
    rewrite Hx. f_equal. exact IHitems.
  - induction IH as [|[k x] fields Hx _ IHfields]; simpl in *; [reflexivity|].
    rewrite Hx. f_equal. exact IHfields.
Qed.

(** After the replacement no bigint is left. *)
Lemma bigints_as_decimal_strings_free (v : value) :
  bigint_free (bigints_as_decimal_strings v) = true.
Proof.
  induction v as [ | | b | n | n | s | items IH | fields IH] using value_ind_nested;
    try reflexivity; simpl.
  - induction IH as [|x items Hx _ IHitems]; simpl; [reflexivity|].
    rewrite Hx. exact IHitems.
  - induction IH as [|[k x] fields Hx _ IHfields]; simpl in *; [reflexivity|].
    rewrite Hx. exact IHfields.
Qed.

(** A payload without bigints is left as it is. *)
Lemma bigints_as_decimal_strings_id (v : value) :
  bigint_free v = true → bigints_as_decimal_strings v = v.
Proof.
  induction v as [ | | b | n | n | s | items IH | fields IH] using value_ind_nested;
    try reflexivity; simpl; try discriminate; intros Hfree; f_equal.
  - induction IH as [|x items Hx _ IHitems]; simpl in *; [reflexivity|].
    apply andb_prop in Hfree as [H1 H2]. rewrite Hx by assumption.
    f_equal. apply IHitems. assumption.
  - induction IH as [|[k x] fields Hx _ IHfields]; simpl in *; [reflexivity|].
    apply andb_prop in Hfree as [H1 H2]. rewrite Hx by assumption.
    f_equal. apply IHfields. assumption.
Qed.

Lemma serialize_items_map (rec1 rec2 : string → value → ser (option string))
    (f : value → value) (items : list value) :
  (∀ k x, rec1 k x = rec2 k (f x)) →
  ∀ i, serialize_items rec1 i items = serialize_items rec2 i (f <$> items).
Proof.
  intros Hrec. induction items as [|x items IH]; intros i; simpl; [reflexivity|].
  rewrite Hrec. unfold ser_bind.
  destruct (rec2 _ (f x)) as [[t|e]|]; try reflexivity.
  rewrite IH. reflexivity.
Qed.

Lemma serialize_fields_map (rec1 rec2 : string → value → ser (option string))
    (f : value → value) (fields : list (string * value)) :
  (∀ k x, rec1 k x = rec2 k (f x)) →
  serialize_fields rec1 fields = serialize_fields rec2 ((λ kv, (kv.1, f kv.2)) <$> fields).
Proof.
  intros Hrec. induction fields as [|[k x] fields IH]; simpl; [reflexivity|].
  rewrite Hrec. unfold ser_bind.
  destruct (rec2 _ (f x)) as [[t|e]|]; try reflexivity.
  rewrite IH. reflexivity.
Qed.

(** Serialising through the page's replacer is serialising, without a
    replacer, the payload whose bigints are written in base 10. *)
Lemma replacer_serialises_decimal (fuel : nat) :
  ∀ key v,
    SerializeJSONProperty fuel (Some Privy.replacer) key v
    = SerializeJSONProperty fuel None key (bigints_as_decimal_strings v).
Proof.
  induction fuel as [|fuel IH]; intros key v; [reflexivity|].
  destruct v as [ | | b | n | n | s | items | fields]; try reflexivity.
  - cbn [SerializeJSONProperty Privy.replacer typeof_bigint bigints_as_decimal_strings].
    rewrite (serialize_items_map _ (SerializeJSONProperty fuel None)
               bigints_as_decimal_strings items IH). reflexivity.
  - cbn [SerializeJSONProperty Privy.replacer typeof_bigint bigints_as_decimal_strings].
    rewrite (serialize_fields_map _ (SerializeJSONProperty fuel None)
               bigints_as_decimal_strings fields IH). reflexivity.
Qed.

Lemma serialize_items_resolves (rec : string → value → ser (option string))
    (items : list value) :
  (∀ k x, x ∈ items → ∃ t, rec k x = Some (Resolved t)) →
  ∀ i, ∃ ts, serialize_items rec i items = Some (Resolved ts).
Proof.
  induction items as [|x items IH]; intros Hrec i; simpl; [eauto|].
  destruct (Hrec (NilZero.string_of_uint (Nat.to_uint i)) x) as [t ->]; [left|].
  destruct (IH (λ k y Hy, Hrec k y (list_elem_of_further _ _ _ Hy)) (S i)) as [ts ->].
  simpl. eauto.
Qed.

Lemma serialize_fields_resolves (rec : string → value → ser (option string))
    (fields : list (string * value)) :
  (∀ kv, kv ∈ fields → ∃ t, rec kv.1 kv.2 = Some (Resolved t)) →
  ∃ ts, serialize_fields rec fields = Some (Resolved ts).
Proof.
  induction fields as [|[k x] fields IH]; intros Hrec; simpl; [eauto|].
  destruct (Hrec (k, x)) as [t Ht]; [left|]. simpl in Ht. rewrite Ht.
  destruct (IH (λ kv Hkv, Hrec kv (list_elem_of_further _ _ _ Hkv))) as [ts ->].
  simpl. eauto.
Qed.

(** With the page's replacer the serialisation throws on no payload and,
    given a budget above the depth of the payload, finishes. *)
Lemma replacer_resolves (fuel : nat) :
  ∀ key v, (value_depth v < fuel)%nat →
    ∃ t, SerializeJSONProperty fuel (Some Privy.replacer) key v = Some (Resolved t).
Proof.
  induction fuel as [|fuel IH]; intros key v Hdepth; [lia|].
  destruct v as [ | | b | n | n | s | items | fields]; simpl; eauto.
  - destruct (serialize_items_resolves
                (SerializeJSONProperty fuel (Some Privy.replacer)) items) with (i := O)
      as [ts ->].
    + intros k x Hx. apply IH. apply depth_item in Hx. simpl in Hdepth. lia.
    + simpl. eauto.
  - destruct (serialize_fields_resolves
                (SerializeJSONProperty fuel (Some Privy.replacer)) fields) as [ts ->].
    + intros kv Hkv. apply IH. apply depth_field in Hkv. simpl in Hdepth. lia.
    + simpl. eauto.
Qed.

Lemma serialize_items_mono (rec1 rec2 : string → value → ser (option string))
    (items : list value) :
  (∀ k x o, rec1 k x = Some o → rec2 k x = Some o) →
  ∀ i o, serialize_items rec1 i items = Some o → serialize_items rec2 i items = Some o.
Proof.
  intros Hrec. induction items as [|x items IH]; intros i o; simpl; [auto|].
  destruct (rec1 _ x) as [[t|e]|] eqn:H1; try discriminate.
  - rewrite (Hrec _ _ _ H1). simpl.
    destruct (serialize_items rec1 (S i) items) as [[ts|e]|] eqn:H2; try discriminate.
    + rewrite (IH _ _ H2). auto.
    + rewrite (IH _ _ H2). auto.
  - rewrite (Hrec _ _ _ H1). auto.
Qed.

Lemma serialize_fields_mono (rec1 rec2 : string → value → ser (option string))
    (fields : list (string * value)) :
  (∀ k x o, rec1 k x = Some o → rec2 k x = Some o) →
  ∀ o, serialize_fields rec1 fields = Some o → serialize_fields rec2 fields = Some o.
Proof.
  intros Hrec. induction fields as [|[k x] fields IH]; intros o; simpl; [auto|].
  destruct (rec1 _ x) as [[t|e]|] eqn:H1; try discriminate.
  - rewrite (Hrec _ _ _ H1). simpl.
    destruct (serialize_fields rec1 fields) as [[ts|e]|]; try discriminate.
    + rewrite (IH _ eq_refl). auto.
    + rewrite (IH _ eq_refl). auto.
  - rewrite (Hrec _ _ _ H1). auto.
Qed.

(** A larger budget does not change a serialisation that finished. *)
Lemma SerializeJSONProperty_mono (replacer : option (string → value → value)) (fuel : nat) :
  ∀ fuel' key v o, (fuel ≤ fuel')%nat →
    SerializeJSONProperty fuel replacer key v = Some o →
    SerializeJSONProperty fuel' replacer key v = Some o.
Proof.
  induction fuel as [|fuel IH]; intros fuel' key v o Hle; [discriminate|].
  destruct fuel' as [|fuel']; [lia|]. simpl.
  destruct (match replacer with Some f => f key v | None => v end)
    as [ | | b | n | n | s | items | fields]; auto.
  - destruct (serialize_items _ O items) as [r|] eqn:H; [|discriminate].
    rewrite (serialize_items_mono _ (SerializeJSONProperty fuel' replacer) items
               (λ k x o', IH fuel' k x o' ltac:(lia)) _ _ H). auto.
  - destruct (serialize_fields _ fields) as [r|] eqn:H; [|discriminate].
    rewrite (serialize_fields_mono _ (SerializeJSONProperty fuel' replacer) fields
               (λ k x o', IH fuel' k x o' ltac:(lia)) _ H). auto.
Qed.

(** The budget [Privy.stringify] takes is enough: any larger one gives
    the same text. *)
Lemma stringify_fuel_enough (fuel : nat) (v : value) :
  (value_depth v < fuel)%nat →
  JSON_stringify_fuel fuel (Some Privy.replacer) v = Privy.stringify v.
Proof.
  intros Hdepth. unfold Privy.stringify, JSON_stringify_fuel.
  destruct (replacer_resolves (S (value_depth v)) "" v) as [t Ht]; [lia|].
  rewrite Ht. apply (SerializeJSONProperty_mono _ (S (value_depth v))); [lia|assumption].
Qed.

(** Base 10 loses nothing: the numeral reads back as the same integer. *)
Lemma BigInt_toString_lossless (z : Z) :
  parse_decimal (BigInt_toString z) = Some z.
Proof.
  unfold parse_decimal, BigInt_toString.
  rewrite NilZero.isi.
  - simpl. f_equal. apply DecimalZ.of_to.
  - destruct z; simpl; try discriminate.
    intros [= H]. exact (DecimalPos.Unsigned.to_uint_nonnil _ H).
  - destruct z; simpl; try discriminate.
    intros [= H]. exact (DecimalPos.Unsigned.to_uint_nonnil _ H).
Qed.

(** ** The signer adapters *)

(** C1. [signTransaction] of either adapter (Privy, Dynamic) rejects every
    input with the "not supported" error and reaches no signing transport;
    it returns a signature for no input. *)
Theorem signTransaction_always_unsupported :
  ∀ (provider : EthereumProvider) (walletClient : WalletClient)
    (address : string) (transaction : value),
    Privy.signTransaction transaction = (Rejected unsupported, [])
    ∧ Dynamic.signTransaction transaction = (Rejected unsupported, [])
    ∧ signTransaction (Privy.signer provider address) transaction = (Rejected unsupported, [])
    ∧ signTransaction (Dynamic.signer walletClient address) transaction
      = (Rejected unsupported, [])
    ∧ (∀ signature,
         (signTransaction (Privy.signer provider address) transaction).1 ≠ Resolved signature
         ∧ (signTransaction (Dynamic.signer walletClient address) transaction).1
           ≠ Resolved signature).
Proof.
  intros provider walletClient address transaction.
  repeat (split; [reflexivity|]).
  intros signature. split; discriminate.
Qed.

Lemma chars_of_chars (l : list ascii) : chars (of_chars l) = l.
Proof. apply list_ascii_of_string_of_list_ascii. Qed.

Lemma hex_of_byte_decodes (b : Byte.byte) (l : list ascii) :
  bytes_of_hex (hex_of_byte b ++ l) = cons b <$> bytes_of_hex l.
Proof.
  destruct b; simpl; destruct (bytes_of_hex l); reflexivity.
Qed.

(** The hex text is a faithful encoding of the bytes. *)
Lemma Buffer_toString_hex_decodes (bs : list Byte.byte) :
  bytes_of_hex (chars (Buffer_toString_hex bs)) = Some bs.
Proof.
  unfold Buffer_toString_hex. rewrite chars_of_chars.
  induction bs as [|b bs IH]; [reflexivity|].
  change (bytes_of_hex (hex_of_byte b ++ mjoin (hex_of_byte <$> bs)) = Some (b :: bs)).
  rewrite hex_of_byte_decodes.
  change (cons b <$> bytes_of_hex (mjoin (hex_of_byte <$> bs)) = Some (b :: bs)).
  rewrite IH. reflexivity.
Qed.

Lemma stringify_object (fields : list (string * value)) :
  ∃ text, Privy.stringify (VObject fields) = Some (Resolved (Some text)).
Proof.
  unfold Privy.stringify, JSON_stringify_fuel.
  destruct (serialize_fields_resolves
              (SerializeJSONProperty (value_depth (VObject fields)) (Some Privy.replacer))
              fields) as [ts Hts].
  - intros kv Hkv. apply replacer_resolves. apply depth_field in Hkv. simpl. lia.
  - cbn [SerializeJSONProperty Privy.replacer typeof_bigint]. rewrite Hts. simpl. eauto.
Qed.

(** C3 (as stated, refuted). The session of the provider is authenticated
    for another address than the one the adapter captured, and the
    signing calls still resolve with the signature the transport gave. *)
Lemma stale_session_still_signs :
  session_address Sample.other_session_provider ≠ Some Sample.captured_address
  ∧ (Privy.signMessage Sample.other_session_provider Sample.captured_address
       (MsgString "hello")).1 = Resolved "0x5160b5"
  ∧ (Privy.signTypedData Sample.other_session_provider Sample.captured_address
       [("message", VObject [("amount", VBigInt 100000)])]).1 = Resolved "0x5160b5"
  ∧ wc_session_address Sample.other_session_wallet ≠ Some Sample.captured_address
  ∧ (Dynamic.signMessage Sample.other_session_wallet Sample.captured_address
       (MsgString "hello")).1 = Resolved "0x5160b5".
Proof.
  repeat split; try discriminate; reflexivity.
Qed.

(** C3 (amended). No adapter compares addresses: a signing call makes
    one call to the provider's transport and settles exactly as that call
    settles, whatever address the session is authenticated for. The Privy
    adapter passes the captured address along with the request; the
    Dynamic adapter signs with the account of its wallet client. *)
Theorem signing_settles_as_the_transport :
  ∀ (provider : EthereumProvider) (walletClient : WalletClient) (address : string)
    (message : SignableMessage) (typedData : list (string * value)),
    (∃ text,
       Privy.signMessage provider address message
       = (request provider (RpcRequest "personal_sign" [Some text; Some address]),
          [ProviderRequest (RpcRequest "personal_sign" [Some text; Some address])]))
    ∧ (∃ text,
       Privy.signTypedData provider address typedData
       = (request provider (RpcRequest "eth_signTypedData_v4" [Some address; Some text]),
          [ProviderRequest (RpcRequest "eth_signTypedData_v4" [Some address; Some text])]))
    ∧ Dynamic.signMessage walletClient address message
      = (wc_signMessage walletClient (wc_account walletClient) message,
         [WalletSignMessage (wc_account walletClient) message])
    ∧ (∃ arg,
       Dynamic.signTypedData walletClient address typedData
       = (wc_signTypedData walletClient arg, [WalletSignTypedData arg]))
    ∧ (∀ session,
       Privy.signMessage {| session_address := session; request := request provider |}
         address message = Privy.signMessage provider address message
       ∧ Privy.signTypedData {| session_address := session; request := request provider |}
           address typedData = Privy.signTypedData provider address typedData
       ∧ Dynamic.signMessage
           {| wc_account := wc_account walletClient; wc_session_address := session;
              wc_signMessage := wc_signMessage walletClient;
              wc_signTypedData := wc_signTypedData walletClient |} address message
         = Dynamic.signMessage walletClient address message
       ∧ Dynamic.signTypedData
           {| wc_account := wc_account walletClient; wc_session_address := session;
              wc_signMessage := wc_signMessage walletClient;
              wc_signTypedData := wc_signTypedData walletClient |} address typedData
         = Dynamic.signTypedData walletClient address typedData).
Proof.
  intros provider walletClient address message typedData.
  split; [unfold Privy.signMessage; eauto|].
  split.
  { unfold Privy.signTypedData.
    destruct (stringify_object typedData) as [text ->]. eauto. }
  split; [reflexivity|].
  split; [unfold Dynamic.signTypedData; eauto|].
  intros session. repeat split.
Qed.

(** C5 (as stated, refuted). The Dynamic adapter hands a raw-bytes
    message to its wallet client as the byte array it received: what
    reaches the transport is not the hex text. *)
Lemma dynamic_signMessage_forwards_raw_bytes :
  (Dynamic.signMessage Sample.other_session_wallet Sample.captured_address
     (MsgRaw (RawBytes [Byte.xde; Byte.xad]))).2
  = [WalletSignMessage (wc_account Sample.other_session_wallet)
       (MsgRaw (RawBytes [Byte.xde; Byte.xad]))]
  ∧ "0x" +:+ Buffer_toString_hex [Byte.xde; Byte.xad] = "0xdead"
  ∧ forwarded_text <$>
      (Dynamic.signMessage Sample.other_session_wallet Sample.captured_address
         (MsgRaw (RawBytes [Byte.xde; Byte.xad]))).2
    ≠ [Some "0xdead"].
Proof.
  repeat split; try reflexivity. discriminate.
Qed.

(** C5 (amended). For every raw-bytes message the Privy adapter sends one
    [personal_sign] request whose message is ["0x"] followed by the
    lowercase hex digits of the bytes, two per byte and readable back to
    the same bytes, and it settles as that request settles. The Dynamic
    adapter passes the message on unchanged. *)
Theorem privy_signMessage_hex_encodes_raw_bytes :
  ∀ (provider : EthereumProvider) (walletClient : WalletClient) (address : string)
    (bytes : list Byte.byte),
    let text := "0x" +:+ Buffer_toString_hex bytes in
    let r := RpcRequest "personal_sign" [Some text; Some address] in
    Privy.signMessage provider address (MsgRaw (RawBytes bytes))
    = (request provider r, [ProviderRequest r])
    ∧ forwarded_text <$> (Privy.signMessage provider address (MsgRaw (RawBytes bytes))).2
      = [Some text]
    ∧ bytes_of_hex (chars (Buffer_toString_hex bytes)) = Some bytes
    ∧ (Dynamic.signMessage walletClient address (MsgRaw (RawBytes bytes))).2
      = [WalletSignMessage (wc_account walletClient) (MsgRaw (RawBytes bytes))].
Proof.
  intros provider walletClient address bytes text r.
  repeat split; try reflexivity. apply Buffer_toString_hex_decodes.
Qed.

(** A bigint no double can hold keeps every digit; without the replacer
    the same payload makes [JSON.stringify] throw. *)
Lemma stringify_large_bigint :
  Privy.stringify (VObject [("value", VBigInt (2 ^ 64 + 1)); ("nonce", VNumber 7)])
  = Some (Resolved (Some
      ("{" +:+ QuoteJSONString "value" +:+ ":" +:+ QuoteJSONString "18446744073709551617"
       +:+ "," +:+ QuoteJSONString "nonce" +:+ ":7}")))
  ∧ JSON_stringify_fuel 2 None (VObject [("value", VBigInt (2 ^ 64 + 1)); ("nonce", VNumber 7)])
    = Some (Rejected (TypeError "Do not know how to serialize a BigInt")).
Proof. split; reflexivity. Qed.

(** Serialising the replaced payload again changes nothing. *)
Lemma stringify_replaced_again (payload : value) :
  Privy.stringify (bigints_as_decimal_strings payload) = Privy.stringify payload.
Proof.
  unfold Privy.stringify, JSON_stringify_fuel.
  rewrite depth_bigints_as_decimal_strings, !replacer_serialises_decimal.
  rewrite (bigints_as_decimal_strings_id (bigints_as_decimal_strings payload))
    by apply bigints_as_decimal_strings_free.
  reflexivity.
Qed.

(** *** The text holds the numerals *)

Lemma chars_app (a b : string) : chars (a +:+ b) = chars a ++ chars b.
Proof.
  unfold chars. induction a as [|c a IH]; [reflexivity|].
  change (String c a +:+ b) with (String c (a +:+ b)).
  cbn [list_ascii_of_string app]. f_equal. exact IH.
Qed.

Lemma contains_refl (text : string) : contains text text.
Proof. exists [], []. rewrite app_nil_r. reflexivity. Qed.

Lemma contains_between (a b text part : string) :
  contains text part → contains (a +:+ text +:+ b) part.
Proof.
  intros (before & after & Htext).
  exists (chars a ++ before), (after ++ chars b).
  rewrite !chars_app, Htext, <- !app_assoc. reflexivity.
Qed.

Lemma contains_after (a text part : string) :
  contains text part → contains (a +:+ text) part.
Proof.
  intros (before & after & Htext). exists (chars a ++ before), after.
  rewrite chars_app, Htext, <- !app_assoc. reflexivity.
Qed.

Lemma contains_before (b text part : string) :
  contains text part → contains (text +:+ b) part.
Proof.
  intros (before & after & Htext). exists before, (after ++ chars b).
  rewrite chars_app, Htext, <- !app_assoc. reflexivity.
Qed.

Lemma join_step_contains (rest : list string) :
  ∀ acc part,
    contains acc part ∨ (∃ y, y ∈ rest ∧ contains y part) →
    contains (foldl (λ acc y, acc +:+ "," +:+ y) acc rest) part.
Proof.
  induction rest as [|x rest IH]; intros acc part [Hacc|(y & Hy & Hpart)].
  - exact Hacc.
  - inversion Hy.
  - cbn [foldl]. apply IH. left. apply contains_before, Hacc.
  - cbn [foldl]. apply IH. apply elem_of_cons in Hy as [->|Hy].
    + left. apply contains_after, contains_after, Hpart.
    + right. exists y. split; assumption.
Qed.

(** A text of the list occurs in the joined list. *)
Lemma join_comma_contains (ts : list string) (t part : string) :
  t ∈ ts → contains t part → contains (join_comma ts) part.
Proof.
  intros Hin Hpart. destruct ts as [|x rest]; [inversion Hin|].
  cbn [join_comma]. apply join_step_contains.
  apply elem_of_cons in Hin as [->|Hin]; [left; exact Hpart|].
  right. exists t. split; assumption.
Qed.

(** The characters of a numeral are written as they are. *)
Lemma uint_chars_plain (d : Decimal.uint) :
  Forall (λ c, quote_char c = [c]) (chars (NilEmpty.string_of_uint d)).
Proof. induction d; cbn; constructor; try reflexivity; assumption. Qed.

Lemma numeral_chars_plain (n : Z) :
  Forall (λ c, quote_char c = [c]) (chars (BigInt_toString n)).
Proof.
  unfold BigInt_toString.
  assert (Huint : ∀ d, Forall (λ c, quote_char c = [c]) (chars (NilZero.string_of_uint d))).
  { intros d. destruct d; try apply (uint_chars_plain (_ d)).
    cbn. constructor; [reflexivity|constructor]. }
  destruct (Z.to_int n) as [d|d]; cbn [NilZero.string_of_int]; [apply Huint|].
  change (chars (String "-" (NilZero.string_of_uint d)))
    with ("-"%char :: chars (NilZero.string_of_uint d)).
  constructor; [reflexivity|apply Huint].
Qed.

Lemma quote_plain (l : list ascii) :
  Forall (λ c, quote_char c = [c]) l → mjoin (quote_char <$> l) = l.
Proof.
  induction 1 as [|c l Hc _ IH]; [reflexivity|].
  cbn [fmap list_fmap mjoin list_join].
  change (list_fmap _ _ quote_char l) with (quote_char <$> l).
  change (list_join _ (quote_char <$> l)) with (mjoin (quote_char <$> l)).
  rewrite Hc. cbn [app]. f_equal. exact IH.
Qed.

(** The JSON string of a numeral is the numeral between double quotes:
    no character of it is escaped. *)
Lemma QuoteJSONString_numeral (n : Z) :
  QuoteJSONString (BigInt_toString n) = quoted_numeral n.
Proof.
  unfold QuoteJSONString, quoted_numeral.
  rewrite (quote_plain _ (numeral_chars_plain n)). reflexivity.
Qed.

Lemma serialize_items_member (rec : string → value → ser (option string))
    (items : list value) :
  ∀ i ts x,
    serialize_items rec i items = Some (Resolved ts) → x ∈ items →
    ∃ k t, rec k x = Some (Resolved t) ∧ default "null" t ∈ ts.
Proof.
  induction items as [|y items IH]; intros i ts x Hser Hin; [inversion Hin|].
  cbn [serialize_items] in Hser. unfold ser_bind in Hser.
  destruct (rec (NilZero.string_of_uint (Nat.to_uint i)) y) as [[t|e]|] eqn:Hy;
    try discriminate.
  destruct (serialize_items rec (S i) items) as [[ts'|e]|] eqn:Hrest; try discriminate.
  injection Hser as <-.
  apply elem_of_cons in Hin as [->|Hin].
  - exists (NilZero.string_of_uint (Nat.to_uint i)), t. split; [exact Hy|left].
  - destruct (IH (S i) ts' x Hrest Hin) as (k & t' & Hk & Ht').
    exists k, t'. split; [exact Hk|right; exact Ht'].
Qed.

Lemma serialize_fields_member (rec : string → value → ser (option string))
    (fields : list (string * value)) :
  ∀ ts k x,
    serialize_fields rec fields = Some (Resolved ts) → (k, x) ∈ fields →
    ∃ t, rec k x = Some (Resolved t)
         ∧ ∀ text, t = Some text → QuoteJSONString k +:+ ":" +:+ text ∈ ts.
Proof.
  induction fields as [|[k' y] fields IH]; intros ts k x Hser Hin; [inversion Hin|].
  cbn [serialize_fields] in Hser. unfold ser_bind in Hser.
  destruct (rec k' y) as [[t|e]|] eqn:Hy; try discriminate.
  destruct (serialize_fields rec fields) as [[ts'|e]|] eqn:Hrest; try discriminate.
  injection Hser as <-.
  apply elem_of_cons in Hin as [[= -> ->]|Hin].
  - exists t. split; [exact Hy|]. intros text ->. left.
  - destruct (IH ts' k x eq_refl Hin) as (t' & Hk & Ht').
    exists t'. split; [exact Hk|]. intros text Htext.
    destruct t; [right|]; apply (Ht' text Htext).
Qed.

(** Whatever the serialisation with the page's replacer returns for a
    value, it holds the text of every bigint of that value. *)
Lemma serialised_holds_numerals (fuel : nat) :
  ∀ key v t,
    SerializeJSONProperty fuel (Some Privy.replacer) key v = Some (Resolved t) →
    ∀ part, part ∈ bigint_texts v → ∃ text, t = Some text ∧ contains text part.
Proof.
  induction fuel as [|fuel IH]; intros key v t Hser part Hpart; [discriminate|].
  destruct v as [ | | b | n | n | s | items | fields];
    try (cbn in Hpart; inversion Hpart; fail).
  - cbn [SerializeJSONProperty Privy.replacer typeof_bigint] in Hser.
    injection Hser as <-.
    cbn [bigint_texts] in Hpart. apply list_elem_of_singleton in Hpart as ->.
    eexists. split; [reflexivity|]. rewrite QuoteJSONString_numeral. apply contains_refl.
  - cbn [SerializeJSONProperty Privy.replacer typeof_bigint] in Hser.
    unfold ser_bind in Hser.
    destruct (serialize_items _ O items) as [[ts|e]|] eqn:Hitems; try discriminate.
    injection Hser as <-. eexists. split; [reflexivity|].
    cbn [bigint_texts] in Hpart.
    apply list_elem_of_join in Hpart as (l & Hl & Hin).
    apply list_elem_of_fmap in Hin as (x & -> & Hx).
    destruct (serialize_items_member _ items O ts x Hitems Hx) as (k & t & Hk & Ht).
    destruct (IH k x t Hk part Hl) as (text & -> & Hcontains).
    apply contains_between. apply (join_comma_contains ts text); assumption.
  - cbn [SerializeJSONProperty Privy.replacer typeof_bigint] in Hser.
    unfold ser_bind in Hser.
    destruct (serialize_fields _ fields) as [[ts|e]|] eqn:Hfields; try discriminate.
    injection Hser as <-. eexists. split; [reflexivity|].
    cbn [bigint_texts] in Hpart.
    apply list_elem_of_join in Hpart as (l & Hl & Hin).
    apply list_elem_of_fmap in Hin as ([k x] & -> & Hx).
    destruct (serialize_fields_member _ fields ts k x Hfields Hx) as (t & Hk & Ht).
    apply contains_between. cbn [fst snd] in Hl.
    assert (Hcase : (∃ n, x = VBigInt n) ∨ part ∈ bigint_texts x).
    { destruct x; try (right; exact Hl). left. eauto. }
    destruct Hcase as [[n ->]|Hdeep].
    + apply list_elem_of_singleton in Hl as ->.
      destruct fuel as [|fuel']; [discriminate|].
      cbn [SerializeJSONProperty Privy.replacer typeof_bigint] in Hk.
      injection Hk as <-.
      apply (join_comma_contains ts _ _ (Ht _ eq_refl)).
      rewrite QuoteJSONString_numeral. apply contains_refl.
    + destruct (IH k x t Hk part Hdeep) as (text & -> & Hcontains).
      apply (join_comma_contains ts _ _ (Ht _ eq_refl)).
      apply contains_after, contains_after, Hcontains.
Qed.

(** C4. [JSON.stringify(typedData, replacer)] as [signTypedData] calls it
    finishes with a text and does not throw, and
    - every bigint of the payload, at any depth, stands in the text as
      the JSON string of its base-10 numeral, the digits between two
      double quotes: for a property the text holds the member
      ["key":"digits"], for an element of an array the quoted digits;
    - the replacer turns a bigint into its numeral, the numeral is
      written without an escape, and it reads back as the same integer;
    - the text is the plain serialisation of the payload in which every
      bigint is replaced by the string of its numeral, a payload in
      which no bigint is left, and serialising that payload with the
      replacer again gives the same text;
    - every call with this payload, whatever the provider and the
      address, sends this one text to the transport. *)
Theorem typed_data_bigints_serialised_in_base_10 :
  ∀ (typedData : list (string * value)),
    let payload := VObject typedData in
    ∃ text,
      Privy.stringify payload = Some (Resolved (Some text))
      ∧ (∀ part, part ∈ bigint_texts payload → contains text part)
      ∧ (∀ key n,
           Privy.replacer key (VBigInt n) = VString (BigInt_toString n)
           ∧ SerializeJSONProperty 1 (Some Privy.replacer) key (VBigInt n)
             = Some (Resolved (Some (quoted_numeral n)))
           ∧ parse_decimal (BigInt_toString n) = Some n)
      ∧ JSON_stringify_fuel (S (value_depth payload)) None (bigints_as_decimal_strings payload)
        = Some (Resolved (Some text))
      ∧ bigint_free (bigints_as_decimal_strings payload) = true
      ∧ Privy.stringify (bigints_as_decimal_strings payload) = Some (Resolved (Some text))
      ∧ (∀ provider address,
           typed_data_texts (Privy.signTypedData provider address typedData).2 = [Some text]).
Proof.
  intros typedData payload.
  destruct (stringify_object typedData) as [text Htext]. fold payload in Htext.
  exists text.
  split; [exact Htext|].
  split.
  { intros part Hpart.
    destruct (serialised_holds_numerals _ _ _ _ Htext part Hpart) as (text' & Heq & Hholds).
    injection Heq as <-. exact Hholds. }
  split.
  { intros key n. split; [reflexivity|]. split; [|apply BigInt_toString_lossless].
    cbn [SerializeJSONProperty Privy.replacer typeof_bigint].
    rewrite QuoteJSONString_numeral. reflexivity. }
  split; [rewrite <- Htext; symmetry; apply replacer_serialises_decimal|].
  split; [apply bigints_as_decimal_strings_free|].
  split; [rewrite stringify_replaced_again; exact Htext|].
  intros provider address. unfold Privy.signTypedData.
  fold payload. rewrite Htext. reflexivity.
Qed.

(** C4 on a payload with a bigint no double can hold, as a property and
    inside an array: the text holds both numerals, every digit of
    them. *)
Lemma typed_data_bigints_serialised_in_base_10_witness :
  ∃ text,
    Privy.stringify
      (VObject [("value", VBigInt (2 ^ 64 + 1));
                ("path", VArray [VBigInt (-7); VNumber (10 ^ 21)])])
    = Some (Resolved (Some text))
    ∧ contains text (QuoteJSONString "value" +:+ ":" +:+ quoted_numeral (2 ^ 64 + 1))
    ∧ contains text (quoted_numeral (-7))
    ∧ chars (quoted_numeral (2 ^ 64 + 1))
      = dquote :: chars "18446744073709551617" ++ [dquote].
Proof.
  destruct (typed_data_bigints_serialised_in_base_10
              [("value", VBigInt (2 ^ 64 + 1));
               ("path", VArray [VBigInt (-7); VNumber (10 ^ 21)])])
    as (text & Htext & Hparts & _).
  exists text. split; [exact Htext|].
  split; [apply Hparts; apply list_elem_of_here|].
  split; [apply Hparts; apply list_elem_of_further, list_elem_of_here|].
  reflexivity.
Defined.

(** ** The recipient list *)

Import Page.

Lemma length_spread (arr : list slot) : length (spread arr) = length arr.
Proof. apply length_fmap. Qed.

Lemma present_le_length (arr : list slot) : (present arr ≤ length arr)%nat.
Proof. apply length_filter. Qed.

Lemma present_app (a b : list slot) : present (a ++ b) = (present a + present b)%nat.
Proof. unfold present. rewrite filter_app, length_app. reflexivity. Qed.

Lemma present_cons (x : slot) (arr : list slot) :
  present (x :: arr) = ((if is_hole x then 0 else 1) + present arr)%nat.
Proof.
  unfold present. rewrite filter_cons.
  destruct (decide (is_hole x = false)) as [E|E].
  - rewrite E. reflexivity.
  - destruct (is_hole x); [reflexivity|congruence].
Qed.

Lemma present_replicate_hole (n : nat) : present (replicate n Hole) = O.
Proof. induction n as [|n IH]; [reflexivity|]. simpl. rewrite present_cons. exact IH. Qed.

(** A copy made by spreading has no hole. *)
Lemma present_spread (arr : list slot) : present (spread arr) = length arr.
Proof.
  induction arr as [|x arr IH]; [reflexivity|].
  change (spread (x :: arr)) with ((match x with Hole => Undef | _ => x end) :: spread arr).
  rewrite present_cons, IH. destruct x; reflexivity.
Qed.

Lemma present_insert (arr : list slot) (n : nat) (v : slot) :
  present arr = length arr → is_hole v = false →
  present (<[n := v]> arr) = length arr.
Proof.
  revert n. induction arr as [|x arr IH]; intros n Hdense Hv; [reflexivity|].
  rewrite present_cons in Hdense. pose proof (present_le_length arr) as Hle.
  destruct (is_hole x) eqn:Hx; simpl in Hdense; [lia|].
  destruct n as [|n]; simpl; rewrite present_cons.
  - rewrite Hv. simpl. lia.
  - rewrite Hx, IH by (assumption || lia). reflexivity.
Qed.

(** [filter] returns an array without holes. *)
Lemma present_filter_from (keep : slot → Z → bool) (arr : list slot) :
  ∀ i, present (filter_from keep i arr) = length (filter_from keep i arr).
Proof.
  induction arr as [|x arr IH]; intros i; [reflexivity|]. simpl.
  destruct (is_hole x) eqn:Hx; [apply IH|].
  destruct (keep x i); [|apply IH].
  rewrite present_cons, Hx, IH. reflexivity.
Qed.

(** Filtering on [i !== index] drops the holes and at most one element. *)
Lemma filter_out_index_length (index : Z) (arr : list slot) :
  ∀ i, (present arr ≤ S (length (filter_from (λ _ j, negb (Z.eqb j index)) i arr)))%nat
       ∧ (index < i →
          length (filter_from (λ _ j, negb (Z.eqb j index)) i arr) = present arr).
Proof.
  induction arr as [|x arr IH]; intros i;
    [split; [unfold present; simpl; lia|reflexivity]|].
  rewrite present_cons. simpl. destruct (IH (i + 1)) as [IH1 IH2].
  destruct (is_hole x); [split; [exact IH1|intros; apply IH2; lia]|].
  destruct (Z.eqb_spec i index) as [->|Hne]; simpl.
  - split; [rewrite IH2 by lia; lia|lia].
  - split; [lia|]. intros Hlt. rewrite IH2 by lia. reflexivity.
Qed.

Lemma well_populated_dense (arr : list slot) :
  present arr = length arr → (1 ≤ length arr)%nat → well_populated arr.
Proof. intros Hd Hl. split; lia. Qed.

Lemma well_populated_initial : well_populated (recipients initial_state).
Proof. split; simpl; [unfold present; simpl; lia | lia]. Qed.

Lemma handleRecipientChange_length (rs : list slot) (index : Z) (value : string) :
  0 ≤ index < Z.of_nat (length rs) →
  length (handleRecipientChange rs index value) = length rs.
Proof.
  intros Hin. unfold handleRecipientChange, array_set.
  destruct (is_array_index index); [|apply length_spread].
  rewrite length_spread.
  destruct (Nat.ltb_spec (Z.to_nat index) (length rs)); [|lia].
  rewrite length_insert. apply length_spread.
Qed.

Lemma well_populated_act (rs : list slot) (a : recipient_action) :
  well_populated rs → well_populated (act rs a).
Proof.
  intros [H1 H2]. pose proof (present_le_length rs) as Hle.
  destruct a as [index value| |index]; simpl.
  - unfold handleRecipientChange, array_set.
    destruct (is_array_index index).
    + rewrite length_spread.
      destruct (Nat.ltb_spec (Z.to_nat index) (length rs)).
      * apply well_populated_dense; rewrite length_insert, length_spread; [|lia].
        rewrite present_insert; rewrite ?present_spread, ?length_spread; reflexivity.
      * split; rewrite !present_app, present_spread, present_replicate_hole;
          unfold present; simpl; lia.
    + apply well_populated_dense; rewrite ?present_spread, length_spread; [reflexivity|lia].
  - unfold addRecipient. apply well_populated_dense.
    + rewrite present_app, length_app, present_spread, length_spread. reflexivity.
    + rewrite length_app. simpl. lia.
  - unfold removeRecipient, Array_filter.
    destruct (Nat.ltb_spec 1 (length rs)); [|split; assumption].
    destruct (filter_out_index_length index rs 0) as [Hdrop _].
    apply well_populated_dense; [apply present_filter_from|]. lia.
Qed.

Lemma well_populated_session (actions : list recipient_action) :
  ∀ rs, well_populated rs → well_populated (session actions rs).
Proof.
  induction actions as [|a actions IH]; intros rs Hrs; [exact Hrs|].
  simpl. apply IH, well_populated_act, Hrs.
Qed.

(** C10. The list of recipients starts with one (empty) entry;
    [addRecipient] makes it one longer; [handleRecipientChange] on a row
    that is shown keeps its length; [removeRecipient] leaves a list of
    one entry as it is; and after any sequence of the three handlers,
    with any indices, the list has at least one entry. *)
Theorem recipients_never_empty :
  recipients initial_state = [Str ""]
  ∧ (∀ rs, length (addRecipient rs) = S (length rs))
  ∧ (∀ rs index value,
       offered rs (Change index value) →
       length (handleRecipientChange rs index value) = length rs)
  ∧ (∀ rs index, (length rs ≤ 1)%nat → removeRecipient rs index = rs)
  ∧ (∀ actions, (1 ≤ length (session actions (recipients initial_state)))%nat).
Proof.
  split; [reflexivity|].
  split; [intros rs; unfold addRecipient; rewrite length_app, length_spread; simpl; lia|].
  split; [intros rs index value; apply handleRecipientChange_length|].
  split.
  - intros rs index Hlen. unfold removeRecipient.
    destruct (Nat.ltb_spec 1 (length rs)); [lia|reflexivity].
  - intros actions.
    destruct (well_populated_session actions _ well_populated_initial) as [Hp _].
    pose proof (present_le_length (session actions (recipients initial_state))). lia.
Qed.

(** The premises of C10 on a session of the page: a second row is added
    and filled in, the first row is removed, and removing the last row is
    refused. *)
Lemma recipients_never_empty_witness :
  offered [Str ""; Str ""] (Change 1 "0xabc")
  ∧ length (handleRecipientChange [Str ""; Str ""] 1 "0xabc") = 2%nat
  ∧ (length [Str "0xabc"] ≤ 1)%nat
  ∧ removeRecipient [Str "0xabc"] 0 = [Str "0xabc"]
  ∧ session [Add; Change 1 "0xabc"; Remove 0; Remove 0] (recipients initial_state)
    = [Str "0xabc"].
Proof.
  destruct recipients_never_empty as (_ & _ & Hchange & Hremove & _).
  assert (Hoffered : offered [Str ""; Str ""] (Change 1 "0xabc")) by (simpl; lia).
  assert (Hone : (length [Str "0xabc"] ≤ 1)%nat) by (simpl; lia).
  split; [exact Hoffered|].
  split; [exact (Hchange _ _ _ Hoffered)|].
  split; [exact Hone|].
  split; [exact (Hremove _ 0 Hone)|].
  reflexivity.
Defined.

(** ** Configuration *)

Import Config.

(** C6. On each provider page, when the key of the provider is absent
    from the environment (or empty), the page component returns the
    static "Configuration Required" panel, which names the variable to
    set, and does not return the provider component. *)
Theorem missing_key_shows_configuration_panel :
  ∀ (env : ImportMetaEnv),
    (falsy (VITE_PRIVY_APP_ID env) = true →
       ∃ panel, PrivyPage.PrivyExample env = ConfigurationError panel
                ∧ card_title panel = "Configuration Required"
                ∧ env_line panel = "VITE_PRIVY_APP_ID=your_privy_app_id_here"
                ∧ card_title panel ∈ visible_text (PrivyPage.PrivyExample env))
    ∧ (falsy (VITE_PARA_API_KEY env) = true →
       ∃ panel, ParaPage.ParaExample env = ConfigurationError panel
                ∧ card_title panel = "Configuration Required"
                ∧ env_line panel = "VITE_PARA_API_KEY=your_api_key_here"
                ∧ card_title panel ∈ visible_text (ParaPage.ParaExample env))
    ∧ (falsy (VITE_DYNAMIC_ENVIRONMENT_ID env) = true →
       ∃ panel, DynamicPage.DynamicExample env = ConfigurationError panel
                ∧ card_title panel = "Configuration Required"
                ∧ env_line panel = "VITE_DYNAMIC_ENVIRONMENT_ID=your_environment_id_here"
                ∧ card_title panel ∈ visible_text (DynamicPage.DynamicExample env)).
Proof.
  intros env. repeat split.
  - intros Hkey. unfold PrivyPage.PrivyExample. rewrite Hkey.
    eexists. repeat split. simpl. apply list_elem_of_further, list_elem_of_here.
  - intros Hkey. unfold ParaPage.ParaExample. rewrite Hkey.
    eexists. repeat split. simpl. apply list_elem_of_further, list_elem_of_here.
  - intros Hkey. unfold DynamicPage.DynamicExample. rewrite Hkey.
    eexists. repeat split. simpl. apply list_elem_of_further, list_elem_of_here.
Qed.

(** The premises of C6 in an environment that defines no key: the three
    pages return their panels. *)
Lemma missing_key_shows_configuration_panel_witness :
  falsy (VITE_PRIVY_APP_ID Sample.no_key) = true
  ∧ falsy (VITE_PARA_API_KEY Sample.no_key) = true
  ∧ falsy (VITE_DYNAMIC_ENVIRONMENT_ID Sample.no_key) = true
  ∧ is_panel (PrivyPage.PrivyExample Sample.no_key) = true
  ∧ is_panel (ParaPage.ParaExample Sample.no_key) = true
  ∧ is_panel (DynamicPage.DynamicExample Sample.no_key) = true.
Proof.
  destruct (missing_key_shows_configuration_panel Sample.no_key) as (Hprivy & Hpara & Hdynamic).
  destruct (Hprivy eq_refl) as (p1 & -> & _).
  destruct (Hpara eq_refl) as (p2 & -> & _).
  destruct (Hdynamic eq_refl) as (p3 & -> & _).
  repeat split.
Defined.

(** With a key the page mounts the provider and hands it the key. *)
Lemma key_mounts_provider (env : ImportMetaEnv) :
  (falsy (VITE_PRIVY_APP_ID env) = false →
     PrivyPage.PrivyExample env
     = Provider "PrivyProvider" (or_empty (VITE_PRIVY_APP_ID env)) "PrivyWallet")
  ∧ (falsy (VITE_PARA_API_KEY env) = false →
     ParaPage.ParaExample env
     = Provider "ParaProvider" (or_empty (VITE_PARA_API_KEY env)) "ParaWallet")
  ∧ (falsy (VITE_DYNAMIC_ENVIRONMENT_ID env) = false →
     DynamicPage.DynamicExample env
     = Provider "DynamicContextProvider" (or_empty (VITE_DYNAMIC_ENVIRONMENT_ID env))
         "DynamicWallet").
Proof.
  repeat split; intros Hkey.
  - unfold PrivyPage.PrivyExample. rewrite Hkey. reflexivity.
  - unfold ParaPage.ParaExample. rewrite Hkey. reflexivity.
  - unfold DynamicPage.DynamicExample. rewrite Hkey. reflexivity.
Qed.

(** ** Initialisation *)

(** Running a handler: unfold the monad and split on every settlement
    the run depends on. *)
Ltac settle :=
  repeat (simpl;
    match goal with
    | |- context [match ?o with Resolved _ => _ | Rejected _ => _ end] => destruct o
    end);
  simpl.

Ltac run_handler :=
  unfold bind, try_catch, snapshot, ret, emit, set, setStatus, await, lift,
    console_log, console_error, spawn; settle.

Lemma count_events_app (kind : event → bool) (t1 t2 : list event) :
  count_events kind (t1 ++ t2) = (count_events kind t1 + count_events kind t2)%nat.
Proof. unfold count_events. rewrite List.filter_app, length_app. reflexivity. Qed.

Section Rerun.
Context {I : Type} (handler : I → M unit).

(** The guard: with a client in the state, a run does nothing. *)
Hypothesis guarded :
  ∀ i st, is_Some (meeClient st) → handler i st = (Resolved tt, st, []).

(** A run sets the client at most once, and only if there was none. *)
Hypothesis sets_once :
  ∀ i st,
    (count_events is_client_set (handler i st).2 = 0%nat
     ∧ meeClient (handler i st).1.2 = meeClient st)
    ∨ (count_events is_client_set (handler i st).2 = 1%nat
       ∧ is_Some (meeClient (handler i st).1.2)).

Lemma rerun_guarded (inputs : list I) :
  ∀ st, is_Some (meeClient st) → rerun handler inputs st = (Resolved tt, st, []).
Proof.
  induction inputs as [|i inputs IH]; intros st Hst; [reflexivity|].
  simpl. unfold bind, spawn. rewrite (guarded i st Hst), (IH st Hst). reflexivity.
Qed.

Lemma rerun_sets_once (inputs : list I) :
  ∀ st, (count_events is_client_set (rerun handler inputs st).2 ≤ 1)%nat.
Proof.
  induction inputs as [|i inputs IH]; intros st; [unfold count_events; simpl; lia|].
  simpl. unfold bind, spawn.
  destruct (sets_once i st) as [[Hcount Hsame]|[Hcount Hset]];
    destruct (handler i st) as [[[u|e] st1] t1] eqn:Hrun; simpl in *.
  - specialize (IH st1). destruct (rerun handler inputs st1) as [[r2 st2] t2].
    simpl in *. rewrite count_events_app. lia.
  - specialize (IH st1). destruct (rerun handler inputs st1) as [[r2 st2] t2].
    simpl in *. rewrite !count_events_app.
    change (count_events is_client_set [UnhandledRejection e]) with O. lia.
  - rewrite (rerun_guarded inputs st1 Hset). simpl.
    rewrite count_events_app. change (count_events is_client_set []) with O. lia.
  - rewrite (rerun_guarded inputs st1 Hset). simpl.
    rewrite !count_events_app.
    change (count_events is_client_set [UnhandledRejection e]) with O.
    change (count_events is_client_set []) with O. lia.
Qed.
End Rerun.

(** Under the dependency rule only the first run can get past the
    guard: the whole effect holds what that run holds. *)
Lemma effect_for_address_first_run (handler : World → M unit) (kind : event → bool)
    (worlds : list World) (st : PageState) :
  (∀ w st, is_Some (meeClient st) → handler w st = (Resolved tt, st, [])) →
  (∀ w st, is_resolved (handler w st).1.1 = true) →
  (∀ w st, meeClient (handler w st).1.2 = meeClient st
           ∨ is_Some (meeClient (handler w st).1.2)) →
  (∀ w st, (count_events kind (handler w st).2 ≤ 1)%nat) →
  (count_events kind (effect_for_address handler worlds st).2 ≤ 1)%nat.
Proof.
  intros Hguard Hresolves Hset Hbound.
  destruct worlds as [|w1 later]; [unfold count_events; simpl; lia|].
  simpl. unfold spawn.
  specialize (Hset w1 st). specialize (Hbound w1 st). specialize (Hresolves w1 st).
  destruct (handler w1 st) as [[[u|e] st1] t1]; simpl in *; [|discriminate].
  destruct (decide (meeClient st1 = meeClient st)) as [Hsame|Hchanged]; [exact Hbound|].
  destruct Hset as [Hsame|Hsome]; [contradiction|].
  destruct later as [|w2 later]; simpl; [rewrite app_nil_r; exact Hbound|].
  unfold spawn. rewrite (Hguard w2 st1 Hsome).
  destruct (decide (meeClient st1 = meeClient st1)); [|congruence].
  simpl. rewrite app_nil_r. exact Hbound.
Qed.

Lemma privy_initMee_guarded (w : World) (wallet : option Wallet) (st : PageState) :
  is_Some (meeClient st) → PrivyPage.initMee w wallet st = (Resolved tt, st, []).
Proof.
  intros [mee Hmee]. unfold PrivyPage.initMee, bind, snapshot, ret.
  destruct (address_of wallet); [rewrite Hmee|]; reflexivity.
Qed.

Lemma para_initMee_guarded (w : World) (wallet : option Wallet) (isConnected : bool)
    (st : PageState) :
  is_Some (meeClient st) → ParaPage.initMee w wallet isConnected st = (Resolved tt, st, []).
Proof.
  intros [mee Hmee]. unfold ParaPage.initMee, bind, snapshot, ret.
  destruct (address_of wallet), isConnected; try rewrite Hmee; reflexivity.
Qed.

Lemma dynamic_initMee_guarded (w : World) (wallet : option Wallet) (st : PageState) :
  is_Some (meeClient st) → DynamicPage.initMee w wallet st = (Resolved tt, st, []).
Proof.
  intros [mee Hmee]. unfold DynamicPage.initMee, bind, snapshot, ret.
  destruct (address_of wallet), wallet; try rewrite Hmee; reflexivity.
Qed.

Lemma privy_initMee_sets_once (w : World) (wallet : option Wallet) (st : PageState) :
  (count_events is_client_set (PrivyPage.initMee w wallet st).2 = 0%nat
   ∧ meeClient (PrivyPage.initMee w wallet st).1.2 = meeClient st)
  ∨ (count_events is_client_set (PrivyPage.initMee w wallet st).2 = 1%nat
     ∧ is_Some (meeClient (PrivyPage.initMee w wallet st).1.2)).
Proof.
  unfold PrivyPage.initMee.
  destruct (address_of wallet) as [a|]; [|left; split; reflexivity].
  unfold bind, snapshot; simpl.
  destruct (meeClient st) as [mee|] eqn:Hmee; [left; split; [reflexivity|assumption]|].
  run_handler; (left; split; [reflexivity|assumption]) || (right; split; [reflexivity|eauto]).
Qed.

Lemma para_initMee_sets_once (w : World) (wallet : option Wallet) (isConnected : bool)
    (st : PageState) :
  (count_events is_client_set (ParaPage.initMee w wallet isConnected st).2 = 0%nat
   ∧ meeClient (ParaPage.initMee w wallet isConnected st).1.2 = meeClient st)
  ∨ (count_events is_client_set (ParaPage.initMee w wallet isConnected st).2 = 1%nat
     ∧ is_Some (meeClient (ParaPage.initMee w wallet isConnected st).1.2)).
Proof.
  unfold ParaPage.initMee.
  destruct (address_of wallet) as [a|], isConnected; try (left; split; reflexivity).
  unfold bind, snapshot; simpl.
  destruct (meeClient st) as [mee|] eqn:Hmee; [left; split; [reflexivity|assumption]|].
  run_handler; (left; split; [reflexivity|assumption]) || (right; split; [reflexivity|eauto]).
Qed.

Lemma dynamic_initMee_sets_once (w : World) (wallet : option Wallet) (st : PageState) :
  (count_events is_client_set (DynamicPage.initMee w wallet st).2 = 0%nat
   ∧ meeClient (DynamicPage.initMee w wallet st).1.2 = meeClient st)
  ∨ (count_events is_client_set (DynamicPage.initMee w wallet st).2 = 1%nat
     ∧ is_Some (meeClient (DynamicPage.initMee w wallet st).1.2)).
Proof.
  unfold DynamicPage.initMee.
  destruct (address_of wallet) as [a|], wallet as [wallet|]; try (left; split; reflexivity).
  unfold bind, snapshot; simpl.
  destruct (meeClient st) as [mee|] eqn:Hmee; [left; split; [reflexivity|assumption]|].
  destruct (isEthereumWallet wallet); simpl; [|left; split; [reflexivity|assumption]].
  run_handler; (left; split; [reflexivity|assumption]) || (right; split; [reflexivity|eauto]).
Qed.

Ltac one_initialisation_done :=
  unfold one_initialisation, count_events; simpl;
  repeat split; solve [reflexivity | lia | left; assumption | left; reflexivity | right; eauto].

Lemma privy_initMee_once (w : World) (wallet : option Wallet) (st : PageState) :
  one_initialisation (PrivyPage.initMee w wallet st) st.
Proof.
  unfold PrivyPage.initMee.
  destruct (address_of wallet) as [a|]; [|one_initialisation_done].
  unfold bind, snapshot; simpl.
  destruct (meeClient st) as [mee|] eqn:Hmee; [one_initialisation_done|].
  run_handler; one_initialisation_done.
Qed.

Lemma para_initMee_once (w : World) (wallet : option Wallet) (isConnected : bool)
    (st : PageState) :
  one_initialisation (ParaPage.initMee w wallet isConnected st) st.
Proof.
  unfold ParaPage.initMee.
  destruct (address_of wallet) as [a|], isConnected; try one_initialisation_done.
  unfold bind, snapshot; simpl.
  destruct (meeClient st) as [mee|] eqn:Hmee; [one_initialisation_done|].
  run_handler; one_initialisation_done.
Qed.

Lemma dynamic_initMee_once (w : World) (wallet : option Wallet) (st : PageState) :
  one_initialisation (DynamicPage.initMee w wallet st) st.
Proof.
  unfold DynamicPage.initMee.
  destruct (address_of wallet) as [a|], wallet as [wallet|]; try one_initialisation_done.
  unfold bind, snapshot; simpl.
  destruct (meeClient st) as [mee|] eqn:Hmee; [one_initialisation_done|].
  destruct (isEthereumWallet wallet); simpl; [|one_initialisation_done].
  run_handler; one_initialisation_done.
Qed.

Lemma effect_for_address_once (handler : World → M unit) (worlds : list World)
    (st : PageState) :
  (∀ w st, is_Some (meeClient st) → handler w st = (Resolved tt, st, [])) →
  (∀ w st, one_initialisation (handler w st) st) →
  initialised_once (effect_for_address handler worlds st).2.
Proof.
  intros Hguard Hone. unfold initialised_once.
  repeat split; apply effect_for_address_first_run; try exact Hguard;
    intros w' st'; destruct (Hone w' st') as (? & ? & ? & ? & ? & ?); assumption.
Qed.

(** C7. On each provider page, once the state holds an execution client
    a run of the initialisation effect returns at once: the state is left
    as it is and nothing is called, so no account and no client is
    created, and the same holds for any number of later runs of the
    effect. For a connected address the effect, which runs again only
    when [meeClient] has changed, creates at most one account and one
    client and sets each handle at most once; and over any sequence of
    runs at all the client is set at most once. *)
Theorem initialised_at_most_once :
  ∀ (st : PageState),
    (is_Some (meeClient st) →
       (∀ w wallet, PrivyPage.initMee w wallet st = (Resolved tt, st, []))
       ∧ (∀ w wallet isConnected,
            ParaPage.initMee w wallet isConnected st = (Resolved tt, st, []))
       ∧ (∀ w wallet, DynamicPage.initMee w wallet st = (Resolved tt, st, []))
       ∧ (∀ runs : list (World * option Wallet),
            rerun (λ i, PrivyPage.initMee i.1 i.2) runs st = (Resolved tt, st, []))
       ∧ (∀ runs : list (World * option Wallet * bool),
            rerun (λ i, ParaPage.initMee i.1.1 i.1.2 i.2) runs st = (Resolved tt, st, []))
       ∧ (∀ runs : list (World * option Wallet),
            rerun (λ i, DynamicPage.initMee i.1 i.2) runs st = (Resolved tt, st, [])))
    ∧ (∀ (wallet : option Wallet) (isConnected : bool) (worlds : list World),
         initialised_once
           (effect_for_address (λ w, PrivyPage.initMee w wallet) worlds st).2
         ∧ initialised_once
             (effect_for_address (λ w, ParaPage.initMee w wallet isConnected) worlds st).2
         ∧ initialised_once
             (effect_for_address (λ w, DynamicPage.initMee w wallet) worlds st).2)
    ∧ (∀ runs : list (World * option Wallet),
         (count_events is_client_set
            (rerun (λ i, PrivyPage.initMee i.1 i.2) runs st).2 ≤ 1)%nat)
    ∧ (∀ runs : list (World * option Wallet * bool),
         (count_events is_client_set
            (rerun (λ i, ParaPage.initMee i.1.1 i.1.2 i.2) runs st).2 ≤ 1)%nat)
    ∧ (∀ runs : list (World * option Wallet),
         (count_events is_client_set
            (rerun (λ i, DynamicPage.initMee i.1 i.2) runs st).2 ≤ 1)%nat).
Proof.
  intros st. split; [intros Hmee; repeat split|split; [|repeat split]].
  - intros w wallet. apply privy_initMee_guarded, Hmee.
  - intros w wallet isConnected. apply para_initMee_guarded, Hmee.
  - intros w wallet. apply dynamic_initMee_guarded, Hmee.
  - intros runs. apply rerun_guarded; [|exact Hmee].
    intros i st' H. apply privy_initMee_guarded, H.
  - intros runs. apply rerun_guarded; [|exact Hmee].
    intros i st' H. apply para_initMee_guarded, H.
  - intros runs. apply rerun_guarded; [|exact Hmee].
    intros i st' H. apply dynamic_initMee_guarded, H.
  - intros wallet isConnected worlds. split; [|split].
    + apply effect_for_address_once.
      * intros w st' H. apply privy_initMee_guarded, H.
      * intros w st'. apply privy_initMee_once.
    + apply effect_for_address_once.
      * intros w st' H. apply para_initMee_guarded, H.
      * intros w st'. apply para_initMee_once.
    + apply effect_for_address_once.
      * intros w st' H. apply dynamic_initMee_guarded, H.
      * intros w st'. apply dynamic_initMee_once.
  - intros runs. apply rerun_sets_once.
    + intros i st' H. apply privy_initMee_guarded, H.
    + intros i st'. apply privy_initMee_sets_once.
  - intros runs. apply rerun_sets_once.
    + intros i st' H. apply para_initMee_guarded, H.
    + intros i st'. apply para_initMee_sets_once.
  - intros runs. apply rerun_sets_once.
    + intros i st' H. apply dynamic_initMee_guarded, H.
    + intros i st'. apply dynamic_initMee_sets_once.
Qed.

(** The premise of C7 on an initialised page: in a world where every
    call would succeed, a further run of the effect calls nothing. On the
    fresh page the effect creates the account and the client in its
    first run, and its second run, the one the new client triggers,
    creates nothing. *)
Lemma initialised_at_most_once_witness :
  is_Some (meeClient (Sample.ready_state [Str ""]))
  ∧ PrivyPage.initMee Sample.fair_world Sample.connected_wallet (Sample.ready_state [Str ""])
    = (Resolved tt, Sample.ready_state [Str ""], [])
  ∧ count_events is_creation
      (PrivyPage.initMee Sample.fair_world Sample.connected_wallet initial_state).2 = 2%nat
  ∧ count_events is_creation
      (effect_for_address (λ w, PrivyPage.initMee w Sample.connected_wallet)
         [Sample.fair_world; Sample.fair_world; Sample.fair_world] initial_state).2 = 2%nat
  ∧ count_events is_creation
      (rerun (λ i, PrivyPage.initMee i.1 i.2)
         [(Sample.fair_world, Sample.connected_wallet);
          (Sample.fair_world, Sample.connected_wallet);
          (Sample.fair_world, Sample.connected_wallet)] initial_state).2 = 2%nat.
Proof.
  assert (Hmee : is_Some (meeClient (Sample.ready_state [Str ""]))) by (simpl; eauto).
  split; [exact Hmee|].
  destruct (initialised_at_most_once (Sample.ready_state [Str ""])) as [Hguard _].
  destruct (Hguard Hmee) as (Hprivy & _).
  split; [apply Hprivy|].
  repeat split.
Defined.

(** ** The balance poll *)

(** A failing tick: the request is made once, the failure (if it is one)
    is logged, and the state is the one before the tick. *)
Lemma fetchBalance_fails (w : World) (wallet : option Wallet) (address : string)
    (st : PageState) :
  address_of wallet = Some address → tick_fails w address = true →
  ∃ logged,
    Page.fetchBalance w wallet st
    = (Resolved tt, st, Called (CallFetch (balance_request address)) :: logged)
    ∧ count_events is_fetch logged = 0%nat
    ∧ status_updates logged = [].
Proof.
  intros Haddress Hfails. unfold Page.fetchBalance. rewrite Haddress.
  unfold tick_fails in Hfails. unfold bind, try_catch, await, lift, console_error, emit.
  destruct (fetch w (balance_request address)) as [response|e]; simpl;
    [|eexists; repeat split].
  destruct (json response) as [data|e]; simpl; [|eexists; repeat split].
  unfold lacks_result in Hfails.
  destruct (get_property data "result") as [result|e]; simpl; [|eexists; repeat split].
  destruct result; try discriminate. simpl. eexists; repeat split.
Qed.

(** C9. A tick of the balance poll whose request fails, or whose reply
    has no [result], leaves the state of the page, and so the balance it
    shows, as it was; it makes the request once and does not repeat it;
    the next request is the one of the next tick, one interval later. *)
Theorem failed_poll_keeps_balance :
  ∀ (w : World) (wallet : option Wallet) (address : string) (st : PageState),
    address_of wallet = Some address →
    tick_fails w address = true →
    (Page.fetchBalance w wallet st).1 = (Resolved tt, st)
    ∧ balance (Page.fetchBalance w wallet st).1.2 = balance st
    ∧ count_events is_fetch (Page.fetchBalance w wallet st).2 = 1%nat
    ∧ (∀ k later,
         poll_from k (w :: later) wallet st
         = after (TimerFired (Z.of_nat k * POLL_INTERVAL) :: (Page.fetchBalance w wallet st).2)
             (poll_from (S k) later wallet st))
    ∧ (∀ k w' later,
         ∃ rest,
           (poll_from (S k) (w' :: later) wallet st).2
           = TimerFired ((Z.of_nat k + 1) * POLL_INTERVAL) :: rest).
Proof.
  intros w wallet address st Haddress Hfails.
  destruct (fetchBalance_fails w wallet address st Haddress Hfails)
    as (logged & Hrun & Hcount & _).
  rewrite Hrun. repeat split.
  - unfold count_events in *. simpl. rewrite Hcount. reflexivity.
  - intros k later. simpl. unfold bind, spawn, emit. rewrite Hrun.
    destruct (poll_from (S k) later wallet st) as [[r st'] t']. reflexivity.
  - intros k w' later. simpl. unfold bind, emit.
    replace (Z.of_nat (S k)) with (Z.of_nat k + 1) by lia.
    destruct (spawn (Page.fetchBalance w' wallet) st) as [[[u|e] st1] t1];
      [destruct (poll_from (S (S k)) later wallet st1) as [[r st2] t2]|];
      eexists; reflexivity.
Qed.

(** The premises of C9 with the network down: the balance shown stays
    at 1 USDC, and two ticks make two requests, at 0 and at 10000 ms. *)
Lemma failed_poll_keeps_balance_witness :
  address_of Sample.connected_wallet = Some Sample.captured_address
  ∧ tick_fails Sample.offline_world Sample.captured_address = true
  ∧ balance (Page.fetchBalance Sample.offline_world Sample.connected_wallet
               (Sample.ready_state [Str ""])).1.2 = Some 1000000
  ∧ List.filter (λ ev, match ev with TimerFired _ => true | _ => is_fetch ev end)
      (poll [Sample.offline_world; Sample.offline_world] Sample.connected_wallet
         (Sample.ready_state [Str ""])).2
    = [TimerFired 0; Called (CallFetch (balance_request Sample.captured_address));
       TimerFired 10000; Called (CallFetch (balance_request Sample.captured_address))].
Proof.
  assert (Haddress : address_of Sample.connected_wallet = Some Sample.captured_address)
    by reflexivity.
  assert (Hfails : tick_fails Sample.offline_world Sample.captured_address = true)
    by reflexivity.
  split; [exact Haddress|]. split; [exact Hfails|].
  destruct (failed_poll_keeps_balance Sample.offline_world Sample.connected_wallet
              Sample.captured_address (Sample.ready_state [Str ""]) Haddress Hfails)
    as (_ & Hbalance & _).
  split; [exact Hbalance|]. reflexivity.
Defined.

(** ** The transfer flow *)

Lemma quote_requests_app (t1 t2 : list event) :
  quote_requests (t1 ++ t2) = quote_requests t1 ++ quote_requests t2.
Proof. apply omap_app. Qed.

Lemma status_updates_app (t1 t2 : list event) :
  status_updates (t1 ++ t2) = status_updates t1 ++ status_updates t2.
Proof. apply omap_app. Qed.

Lemma Promise_all_builds (w : World) (orchestrator : MultichainSmartAccount)
    (valid : list slot) (st : PageState) :
  Promise_all (settles_first w) ((λ recipient,
      (CallBuildComposable orchestrator (transfer_call recipient),
       buildComposable w orchestrator (transfer_call recipient))) <$> valid) st
  = (built_transfers w orchestrator valid, st,
     (λ recipient, Called (CallBuildComposable orchestrator (transfer_call recipient)))
       <$> valid).
Proof.
  unfold Promise_all, built_transfers. rewrite <- !list_fmap_compose. reflexivity.
Qed.

Lemma quote_requests_builds (orchestrator : MultichainSmartAccount) (valid : list slot) :
  quote_requests
    ((λ recipient, Called (CallBuildComposable orchestrator (transfer_call recipient)))
       <$> valid) = [].
Proof. induction valid as [|r valid IH]; [reflexivity|exact IH]. Qed.

(** When every instruction is built there are as many as recipients. *)
Lemma fulfilments_length {A} (answers : list (outcome A)) :
  rejections answers = [] → length (fulfilments answers) = length answers.
Proof.
  induction answers as [|[a|e] answers IH]; [reflexivity| |discriminate].
  intros Hnone. cbn. f_equal. exact (IH Hnone).
Qed.

Lemma all_resolved_length {A} (first : nat) (answers : list (outcome A)) (values : list A) :
  all_resolved first answers = Resolved values → length values = length answers.
Proof.
  unfold all_resolved. destruct (rejections answers) eqn:Hnone; [|discriminate].
  intros [= <-]. apply fulfilments_length, Hnone.
Qed.

(** A rejection of [Promise.all] is the rejection of one of its calls,
    and each of them is the one for some timing. *)
Lemma all_resolved_rejection {A} (first : nat) (answers : list (outcome A)) (e : thrown) :
  all_resolved first answers = Rejected e → e ∈ rejections answers.
Proof.
  unfold all_resolved. destruct (rejections answers) as [|e0 later]; [discriminate|].
  generalize (first mod length (e0 :: later))%nat. intros i.
  destruct ((e0 :: later) !! i) as [e'|] eqn:Hlookup; intros [= <-].
  - apply (list_elem_of_lookup_2 _ _ _ Hlookup).
  - apply list_elem_of_here.
Qed.

Lemma all_resolved_any_first {A} (answers : list (outcome A)) (e : thrown) :
  e ∈ rejections answers → ∃ first, all_resolved first answers = Rejected e.
Proof.
  intros Hin. apply list_elem_of_lookup_1 in Hin as [i Hi].
  exists i. unfold all_resolved.
  destruct (rejections answers) as [|e0 later]; [discriminate|].
  apply lookup_lt_Some in Hi as Hlt.
  rewrite Nat.mod_small by exact Hlt. rewrite Hi. reflexivity.
Qed.

Lemma built_transfers_length (w : World) (orchestrator : MultichainSmartAccount)
    (valid : list slot) (transfers : list Instruction) :
  built_transfers w orchestrator valid = Resolved transfers →
  length transfers = length valid.
Proof.
  unfold built_transfers. intros H. apply all_resolved_length in H.
  rewrite length_fmap in H. exact H.
Qed.

Lemma transfer_flow_run (w : World) (orchestrator : MultichainSmartAccount)
    (meeClient : MeeClient) (valid : list slot) (st : PageState) :
  ∃ st' t,
    transfer_flow w orchestrator meeClient valid st
    = (transfer_outcome w orchestrator meeClient valid, st', t)
    ∧ quote_requests t = flow_quote_requests (built_transfers w orchestrator valid)
    ∧ (is_resolved (transfer_outcome w orchestrator meeClient valid) = true →
       status st' = Some "Transaction confirmed!").
Proof.
  unfold transfer_flow, transfer_outcome, and_then.
  unfold bind, setStatus, set, await. cbn beta.
  rewrite Promise_all_builds.
  destruct (built_transfers w orchestrator valid) as [transfers|e]; cbn beta iota;
    [|do 2 eexists; split; [reflexivity|]; simpl;
      rewrite quote_requests_builds; split; [reflexivity|discriminate]].
  destruct (getFusionQuote w meeClient _) as [fusionQuote|e]; cbn beta iota;
    [|do 2 eexists; split; [reflexivity|]; simpl;
      rewrite quote_requests_app, quote_requests_builds; split; [reflexivity|discriminate]].
  destruct (executeFusionQuote w meeClient fusionQuote) as [hash|e]; cbn beta iota;
    [|do 2 eexists; split; [reflexivity|]; simpl;
      rewrite quote_requests_app, quote_requests_builds; split; [reflexivity|discriminate]].
  destruct (waitForSupertransactionReceipt w meeClient hash) as [[]|e]; cbn beta iota;
    do 2 eexists; (split; [reflexivity|]); simpl;
    rewrite quote_requests_app, quote_requests_builds;
    (split; [reflexivity|]); intros; reflexivity || discriminate.
Qed.

Arguments transfer_flow : simpl never.
Arguments transfer_outcome : simpl never.
Arguments built_transfers : simpl never.
Arguments quote_requests : simpl never.

Lemma quote_requests_skip (ev : event) (t : list event) :
  match ev with Called (CallGetFusionQuote _ _) => False | _ => True end →
  quote_requests (ev :: t) = quote_requests t.
Proof. destruct ev as [| |[]| | |]; simpl; intros H; reflexivity || destruct H. Qed.

(** A run of [executeTransfers] past its two guards, on any of the three
    pages: it ends with the status of the flow, and its quote requests
    are those of the flow. *)
Ltac past_guards Horch Hmee Hvalid :=
  unfold bind at 1; unfold snapshot at 1; cbn beta iota;
  rewrite Horch, Hmee; cbn beta iota;
  unfold bind at 1; unfold lift at 1; rewrite Hvalid; cbn beta iota.

Ltac finish_flow w orch mee valid :=
  let st' := fresh "st'" in
  let t := fresh "t" in
  let Hquotes := fresh "Hquotes" in
  let Hstatus := fresh "Hstatus" in
  match goal with
  | |- context [transfer_flow w orch mee valid ?s] =>
      destruct (transfer_flow_run w orch mee valid s) as (st' & t & -> & Hquotes & Hstatus)
  end;
  destruct (transfer_outcome w orch mee valid) as [[]|?]; cbn;
  do 2 eexists; (split; [reflexivity|]);
  (split; [auto|]);
  rewrite ?quote_requests_skip by exact I;
  rewrite ?quote_requests_app, Hquotes, ?app_nil_r; reflexivity.

Lemma privy_executeTransfers_run (w : World) (wallet : option Wallet) (st : PageState)
    (orch : MultichainSmartAccount) (mee : MeeClient) (valid : list slot) :
  orchestrator st = Some orch → meeClient st = Some mee → is_Some wallet →
  validRecipients_of (recipients st) = Resolved valid → valid ≠ [] →
  ∃ st' t,
    PrivyPage.executeTransfers w wallet st = (Resolved tt, st', t)
    ∧ status st' = transfer_status (transfer_outcome w orch mee valid)
    ∧ quote_requests t = flow_quote_requests (built_transfers w orch valid).
Proof.
  intros Horch Hmee [wallet' ->] Hvalid Hnonempty.
  unfold PrivyPage.executeTransfers. past_guards Horch Hmee Hvalid.
  destruct valid as [|r valid']; [contradiction|]. cbn [length Nat.eqb].
  unfold try_catch, bind, setStatus, set, await, console_log, emit, transfer_failed,
    console_error.
  destruct (switchChain w base_id) as [[]|e]; cbn beta iota;
    finish_flow w orch mee (r :: valid').
Qed.

Lemma para_executeTransfers_run (w : World) (wallet : option Wallet) (st : PageState)
    (orch : MultichainSmartAccount) (mee : MeeClient) (valid : list slot) :
  orchestrator st = Some orch → meeClient st = Some mee → is_Some (address_of wallet) →
  validRecipients_of (recipients st) = Resolved valid → valid ≠ [] →
  ∃ st' t,
    ParaPage.executeTransfers w wallet st = (Resolved tt, st', t)
    ∧ status st' = transfer_status (transfer_outcome w orch mee valid)
    ∧ quote_requests t = flow_quote_requests (built_transfers w orch valid).
Proof.
  intros Horch Hmee [a Ha] Hvalid Hnonempty.
  unfold ParaPage.executeTransfers.
  unfold bind at 1; unfold snapshot at 1; cbn beta iota.
  rewrite Horch, Hmee, Ha; cbn beta iota.
  unfold bind at 1; unfold lift at 1; rewrite Hvalid; cbn beta iota.
  destruct valid as [|r valid']; [contradiction|]. cbn [length Nat.eqb].
  unfold try_catch, bind, setStatus, set, transfer_failed, console_error, emit.
  cbn beta iota. finish_flow w orch mee (r :: valid').
Qed.

Lemma dynamic_executeTransfers_run (w : World) (wallet : option Wallet) (st : PageState)
    (orch : MultichainSmartAccount) (mee : MeeClient) (valid : list slot) :
  orchestrator st = Some orch → meeClient st = Some mee → is_Some wallet →
  validRecipients_of (recipients st) = Resolved valid → valid ≠ [] →
  ∃ st' t,
    DynamicPage.executeTransfers w wallet st = (Resolved tt, st', t)
    ∧ status st' = transfer_status (transfer_outcome w orch mee valid)
    ∧ quote_requests t = flow_quote_requests (built_transfers w orch valid).
Proof.
  intros Horch Hmee [wallet' ->] Hvalid Hnonempty.
  unfold DynamicPage.executeTransfers. past_guards Horch Hmee Hvalid.
  destruct valid as [|r valid']; [contradiction|]. cbn [length Nat.eqb].
  unfold try_catch, bind, setStatus, set, await, console_log, emit, transfer_failed,
    console_error.
  destruct (switchChain w base_id) as [[]|e]; cbn beta iota;
    finish_flow w orch mee (r :: valid').
Qed.

(** *** The recipients that count *)

Lemma length_of_chars (l : list ascii) : String.length (of_chars l) = length l.
Proof. induction l as [|c l IH]; simpl; [reflexivity|]. f_equal. exact IH. Qed.

Lemma drop_whitespace_nil (l : list ascii) :
  drop_whitespace l = [] ↔ forallb is_whitespace l = true.
Proof.
  induction l as [|c l IH]; simpl; [tauto|].
  destruct (is_whitespace c); simpl; [exact IH|]. split; discriminate.
Qed.

Lemma blank_drop_whitespace (l : list ascii) :
  forallb is_whitespace (drop_whitespace l) = forallb is_whitespace l.
Proof.
  induction l as [|c l IH]; simpl; [reflexivity|].
  destruct (is_whitespace c) eqn:Hc; simpl; [exact IH|]. rewrite Hc. reflexivity.
Qed.

Lemma blank_reverse (l : list ascii) :
  forallb is_whitespace (reverse l) = forallb is_whitespace l.
Proof.
  induction l as [|c l IH]; [reflexivity|].
  rewrite reverse_cons, forallb_app, IH. simpl.
  destruct (is_whitespace c), (forallb is_whitespace l); reflexivity.
Qed.

(** [r.trim().length > 0] says that [r] is not blank. *)
Lemma trim_length_positive (s : string) :
  (0 <? str_length (trim s)) = negb (blank s).
Proof.
  unfold str_length, trim, blank. rewrite length_of_chars, length_reverse.
  destruct (drop_whitespace (reverse (drop_whitespace (chars s)))) as [|c l] eqn:Hdrop.
  - apply drop_whitespace_nil in Hdrop.
    rewrite blank_reverse, blank_drop_whitespace in Hdrop. rewrite Hdrop. reflexivity.
  - destruct (forallb is_whitespace (chars s)) eqn:Hblank; [|reflexivity].
    rewrite <- blank_drop_whitespace, <- blank_reverse in Hblank.
    apply drop_whitespace_nil in Hblank. congruence.
Qed.

Lemma filter_valid_strings (rs : list string) :
  ∀ i, filter_try_from (λ r _, on_string "trim" (λ s, 0 <? str_length (trim s)) r)
         i (Str <$> rs)
       = Resolved (Str <$> List.filter (λ r, negb (blank r)) rs).
Proof.
  induction rs as [|r rs IH]; intros i; [reflexivity|].
  cbn [fmap list_fmap filter_try_from is_hole on_string List.filter].
  change (list_fmap _ _ Str rs) with (Str <$> rs).
  rewrite IH, trim_length_positive. destruct (negb (blank r)); reflexivity.
Qed.

(** On a list of strings, [validRecipients] is the list of those that
    are not blank, in order. *)
Lemma validRecipients_of_strings (rs : list string) :
  validRecipients_of (Str <$> rs)
  = Resolved (Str <$> List.filter (λ r, negb (blank r)) rs).
Proof. apply filter_valid_strings. Qed.

Lemma all_resolved_Forall {A} (first : nat) (answers : list (outcome A)) :
  Forall (λ o, is_resolved o = true) answers →
  is_resolved (all_resolved first answers) = true.
Proof.
  intros Hall. unfold all_resolved.
  assert (Hnone : rejections answers = []).
  { induction Hall as [|[a|e] answers Ha _ IH]; [reflexivity|exact IH|discriminate]. }
  rewrite Hnone. reflexivity.
Qed.

Lemma all_resolved_rejects {A} (first : nat) (answers : list (outcome A)) (o : outcome A) :
  o ∈ answers → is_resolved o = false → is_resolved (all_resolved first answers) = false.
Proof.
  intros Hin Hrejected. unfold all_resolved.
  assert (Hsome : rejections answers ≠ []).
  { induction answers as [|o' answers IH]; [inversion Hin|].
    apply elem_of_cons in Hin as [<-|Hin].
    - destruct o; [discriminate|]. discriminate.
    - destruct o' as [a|e]; [exact (IH Hin)|discriminate]. }
  destruct (rejections answers); [contradiction|reflexivity].
Qed.

Lemma builds_succeed_resolved (w : World) (orch : MultichainSmartAccount) (rs : list string) :
  builds_succeed w orch rs →
  ∃ transfers, built_transfers w orch (Str <$> rs) = Resolved transfers
               ∧ length transfers = length rs.
Proof.
  intros Hbuilds. unfold built_transfers.
  destruct (all_resolved _) as [transfers|e] eqn:Hall.
  - exists transfers. split; [reflexivity|].
    apply all_resolved_length in Hall. rewrite Hall, !length_fmap. reflexivity.
  - assert (Hres : is_resolved
      (all_resolved (settles_first w)
         ((λ recipient, buildComposable w orch (transfer_call recipient))
            <$> (Str <$> rs))) = true).
    { apply all_resolved_Forall. rewrite <- list_fmap_compose.
      apply Forall_fmap. exact Hbuilds. }
    rewrite Hall in Hres. discriminate.
Qed.

Lemma flow_one_quote_request (w : World) (orch : MultichainSmartAccount)
    (rs : list string) (t : list event) :
  builds_succeed w orch rs →
  quote_requests t = flow_quote_requests (built_transfers w orch (Str <$> rs)) →
  one_quote_request (length rs) t.
Proof.
  intros Hbuilds Hquotes.
  destruct (builds_succeed_resolved w orch rs Hbuilds) as (transfers & Hbuilt & Hlen).
  rewrite Hbuilt in Hquotes. simpl in Hquotes.
  eexists. split; [exact Hquotes|]. simpl. rewrite Hlen. repeat split.
Qed.

Lemma flow_no_other_quote_request (w : World) (orch : MultichainSmartAccount)
    (rs : list string) (t : list event) :
  quote_requests t = flow_quote_requests (built_transfers w orch (Str <$> rs)) →
  no_other_quote_request (length rs) t.
Proof.
  intros Hquotes request Hin. rewrite Hquotes in Hin.
  destruct (built_transfers w orch (Str <$> rs)) as [transfers|e] eqn:Hbuilt.
  - apply built_transfers_length in Hbuilt. rewrite length_fmap in Hbuilt.
    eexists. split; [exact Hquotes|]. simpl. rewrite Hbuilt. repeat split.
  - simpl in Hin. inversion Hin.
Qed.

(** C2 (as stated, refuted). An initialised page with two recipients
    that are not blank, and the network down: every build rejects, and
    [executeTransfers] issues no quote request, on any of the pages; the
    status shows the error. *)
Lemma valid_recipients_without_quote_request :
  length (nonblank_entries Sample.two_recipients) = 2%nat
  ∧ quote_requests
      (PrivyPage.executeTransfers Sample.offline_world Sample.connected_wallet
         (Sample.ready_state (Str <$> Sample.two_recipients))).2 = []
  ∧ quote_requests
      (ParaPage.executeTransfers Sample.offline_world Sample.connected_wallet
         (Sample.ready_state (Str <$> Sample.two_recipients))).2 = []
  ∧ quote_requests
      (DynamicPage.executeTransfers Sample.offline_world Sample.connected_wallet
         (Sample.ready_state (Str <$> Sample.two_recipients))).2 = []
  ∧ status (PrivyPage.executeTransfers Sample.offline_world Sample.connected_wallet
              (Sample.ready_state (Str <$> Sample.two_recipients))).1.2
    = Some "Error: Failed to fetch".
Proof. repeat split. Qed.

(** C2 (amended). On an initialised page (account, client and wallet
    present), for a list of recipients of which [n >= 1] are not blank,
    [executeTransfers] issues at most one quote request, and a request
    it issues has [n] instructions and a trigger amount of [n * 100000];
    it issues exactly one when every instruction gets built, and none
    when the build for one of the recipients rejects. This on the
    Privy, the Para and the Dynamic page. *)
Theorem transfers_issue_one_quote_request :
  ∀ (w : World) (wallet : option Wallet) (st : PageState)
    (orch : MultichainSmartAccount) (mee : MeeClient) (rs : list string) (n : nat),
    orchestrator st = Some orch → meeClient st = Some mee →
    is_Some (address_of wallet) →
    recipients st = Str <$> rs →
    n = length (nonblank_entries rs) → (1 ≤ n)%nat →
    TRANSFER_AMOUNT = 100000
    ∧ no_other_quote_request n (PrivyPage.executeTransfers w wallet st).2
    ∧ no_other_quote_request n (ParaPage.executeTransfers w wallet st).2
    ∧ no_other_quote_request n (DynamicPage.executeTransfers w wallet st).2
    ∧ (builds_succeed w orch (nonblank_entries rs) →
       one_quote_request n (PrivyPage.executeTransfers w wallet st).2
       ∧ one_quote_request n (ParaPage.executeTransfers w wallet st).2
       ∧ one_quote_request n (DynamicPage.executeTransfers w wallet st).2)
    ∧ (∀ r, r ∈ nonblank_entries rs →
       is_resolved (buildComposable w orch (transfer_call (Str r))) = false →
       quote_requests (PrivyPage.executeTransfers w wallet st).2 = []
       ∧ quote_requests (ParaPage.executeTransfers w wallet st).2 = []
       ∧ quote_requests (DynamicPage.executeTransfers w wallet st).2 = []).
Proof.
  intros w wallet st orch mee rs n Horch Hmee Haddress Hrs -> Hn.
  assert (Hwallet : is_Some wallet).
  { destruct wallet; [eauto|]. destruct Haddress as [a Ha]. discriminate. }
  assert (Hvalid : validRecipients_of (recipients st)
                   = Resolved (Str <$> nonblank_entries rs)).
  { rewrite Hrs. apply validRecipients_of_strings. }
  assert (Hnonempty : Str <$> nonblank_entries rs ≠ []).
  { destruct (nonblank_entries rs); [simpl in Hn; lia|discriminate]. }
  destruct (privy_executeTransfers_run w wallet st orch mee _
              Horch Hmee Hwallet Hvalid Hnonempty) as (st1 & t1 & -> & _ & Hq1).
  destruct (para_executeTransfers_run w wallet st orch mee _
              Horch Hmee Haddress Hvalid Hnonempty) as (st2 & t2 & -> & _ & Hq2).
  destruct (dynamic_executeTransfers_run w wallet st orch mee _
              Horch Hmee Hwallet Hvalid Hnonempty) as (st3 & t3 & -> & _ & Hq3).
  simpl.
  split; [reflexivity|].
  split; [exact (flow_no_other_quote_request w orch _ t1 Hq1)|].
  split; [exact (flow_no_other_quote_request w orch _ t2 Hq2)|].
  split; [exact (flow_no_other_quote_request w orch _ t3 Hq3)|].
  split.
  { intros Hbuilds. repeat split.
    - exact (flow_one_quote_request w orch _ t1 Hbuilds Hq1).
    - exact (flow_one_quote_request w orch _ t2 Hbuilds Hq2).
    - exact (flow_one_quote_request w orch _ t3 Hbuilds Hq3). }
  intros r Hr Hrejected. rewrite Hq1, Hq2, Hq3.
  assert (Hbuilt : is_resolved (built_transfers w orch (Str <$> nonblank_entries rs))
                   = false).
  { unfold built_transfers.
    apply (all_resolved_rejects _ _ (buildComposable w orch (transfer_call (Str r))));
      [|exact Hrejected].
    rewrite <- list_fmap_compose.
    apply (list_elem_of_fmap_2 (λ r, buildComposable w orch (transfer_call (Str r)))), Hr. }
  destruct (built_transfers w orch (Str <$> nonblank_entries rs)); [discriminate|].
  repeat split.
Qed.

(** The premises of C2 in the end-to-end scenario: two recipients, every
    call succeeding. The one quote request has two instructions and a
    trigger of 200000. *)
Lemma transfers_issue_one_quote_request_witness :
  quote_requests
    (PrivyPage.executeTransfers Sample.fair_world Sample.connected_wallet
       (Sample.ready_state (Str <$> Sample.two_recipients))).2
  = [quote_request [Built 42; Built 42] 200000]
  ∧ builds_succeed Sample.fair_world (NexusAccount 1) (nonblank_entries Sample.two_recipients)
  ∧ one_quote_request 2
      (ParaPage.executeTransfers Sample.fair_world Sample.connected_wallet
         (Sample.ready_state (Str <$> Sample.two_recipients))).2.
Proof.
  assert (Hbuilds : builds_succeed Sample.fair_world (NexusAccount 1)
                      (nonblank_entries Sample.two_recipients)) by repeat constructor.
  assert (Haddress : is_Some (address_of Sample.connected_wallet)) by (simpl; eauto).
  assert (Hn : (1 ≤ 2)%nat) by lia.
  split; [reflexivity|]. split; [exact Hbuilds|].
  destruct (transfers_issue_one_quote_request
    Sample.fair_world Sample.connected_wallet
    (Sample.ready_state (Str <$> Sample.two_recipients))
    (NexusAccount 1) (MeeClientHandle 1) Sample.two_recipients 2
    eq_refl eq_refl Haddress eq_refl eq_refl Hn) as (_ & _ & _ & _ & Hone & _).
  exact (proj1 (proj2 (Hone Hbuilds))).
Defined.

(** Without recipients that count, or with the network down, no quote is
    requested and the status says why. *)
Lemma no_quote_without_recipients_or_network :
  (PrivyPage.executeTransfers Sample.fair_world Sample.connected_wallet
     (Sample.ready_state [Str ""; Str "  "])).1.2.(status)
  = Some "Error: Please add at least one recipient."
  ∧ quote_requests
      (PrivyPage.executeTransfers Sample.fair_world Sample.connected_wallet
         (Sample.ready_state [Str ""; Str "  "])).2 = []
  ∧ quote_requests
      (PrivyPage.executeTransfers Sample.offline_world Sample.connected_wallet
         (Sample.ready_state (Str <$> Sample.two_recipients))).2 = []
  ∧ (PrivyPage.executeTransfers Sample.fair_world Sample.connected_wallet
       initial_state).1.2.(status)
    = Some "Error: MEE client not initialized. Please wait...".
Proof. repeat split. Qed.

(** A blank row is not a recipient: with one among three rows the
    request still has two instructions. *)
Lemma blank_rows_are_skipped :
  quote_requests
    (DynamicPage.executeTransfers Sample.fair_world Sample.connected_wallet
       (Sample.ready_state
          [Str "0xabc0000000000000000000000000000000000001"; Str "   ";
           Str "0xabc0000000000000000000000000000000000002"])).2
  = [quote_request [Built 42; Built 42] 200000].
Proof. reflexivity. Qed.

(** ** Errors and the status text *)

Lemma para_initMee_status (w : World) (wallet : option Wallet) (st : PageState)
    (a : string) :
  address_of wallet = Some a → meeClient st = None →
  status (ParaPage.initMee w wallet true st).1.2
  = match ParaPage.init_outcome w with
    | Rejected err => Some ("Error initializing MEE: " +:+ ParaPage.error_text err)
    | Resolved _ => status st
    end.
Proof.
  intros Ha Hmee. unfold ParaPage.initMee, ParaPage.init_outcome, and_then.
  rewrite Ha. unfold bind, snapshot; simpl. rewrite Hmee.
  run_handler; reflexivity.
Qed.

Lemma dynamic_initMee_status (w : World) (wallet : Wallet) (st : PageState) (a : string) :
  address_of (Some wallet) = Some a → isEthereumWallet wallet = true →
  meeClient st = None →
  status (DynamicPage.initMee w (Some wallet) st).1.2
  = match DynamicPage.init_outcome w a with
    | Rejected err => Some ("Error initializing MEE: " +:+ DynamicPage.error_text err)
    | Resolved _ => status st
    end.
Proof.
  intros Ha Heth Hmee. unfold DynamicPage.initMee, DynamicPage.init_outcome, and_then.
  rewrite Ha. unfold bind, snapshot; simpl. rewrite Hmee, Heth. simpl.
  run_handler; reflexivity.
Qed.

(** On the Privy page a failed initialisation is written to the console
    and the status stays as it was. *)
Lemma privy_initMee_status (w : World) (wallet : option Wallet) (st : PageState) :
  status (PrivyPage.initMee w wallet st).1.2 = status st
  ∧ status_updates (PrivyPage.initMee w wallet st).2 = [].
Proof.
  unfold PrivyPage.initMee. destruct (address_of wallet) as [a|]; [|split; reflexivity].
  unfold bind, snapshot; simpl.
  destruct (meeClient st); [split; reflexivity|].
  run_handler; split; reflexivity.
Qed.

(** C8 (as stated, refuted). With the network down the balance request
    of a tick rejects: the run ends with one console entry, no status is
    set, and the status the page shows is the one it showed before. *)
Lemma balance_fetch_error_only_logged :
  Page.fetchBalance Sample.offline_world Sample.connected_wallet (Sample.ready_state [Str ""])
  = (Resolved tt, Sample.ready_state [Str ""],
     [Called (CallFetch (balance_request Sample.captured_address));
      ConsoleError [LogText "Failed to fetch balance:";
                    LogThrown (TypeError "Failed to fetch")]])
  ∧ status_updates
      (Page.fetchBalance Sample.offline_world Sample.connected_wallet
         (Sample.ready_state [Str ""])).2 = []
  ∧ status (Page.fetchBalance Sample.offline_world Sample.connected_wallet
              (Sample.ready_state [Str ""])).1.2
    = status (Sample.ready_state [Str ""]).
Proof. repeat split. Qed.

(** C8 (amended). On the Privy, Para and Dynamic pages the rejection
    that ends the transfer flow (of building the instructions, the
    quote, the execution, the receipt) ends [executeTransfers] with the
    status ["Error: "] followed by the message of that error. When
    several instructions fail to build, the flow ends with the one of
    these rejections that settles first, whichever it is in the list;
    the others are dropped. On the Para and Dynamic pages a rejection of
    any call of the initialisation ends [initMee] with the status
    ["Error initializing MEE: "] followed by the text of the error. A
    failing balance request is written to the console only: it sets no
    status. *)
Theorem errors_surface_as_status :
  (∀ (w : World) (wallet : option Wallet) (st : PageState)
     (orch : MultichainSmartAccount) (mee : MeeClient) (valid : list slot) (err : thrown),
     orchestrator st = Some orch → meeClient st = Some mee →
     is_Some (address_of wallet) →
     validRecipients_of (recipients st) = Resolved valid → valid ≠ [] →
     transfer_outcome w orch mee valid = Rejected err →
     status (PrivyPage.executeTransfers w wallet st).1.2
     = Some ("Error: " +:+ template (message err))
     ∧ status (ParaPage.executeTransfers w wallet st).1.2
       = Some ("Error: " +:+ template (message err))
     ∧ status (DynamicPage.executeTransfers w wallet st).1.2
       = Some ("Error: " +:+ template (message err)))
  ∧ (∀ (w : World) (wallet : option Wallet) (st : PageState) (a : string) (err : thrown),
       address_of wallet = Some a → meeClient st = None →
       ParaPage.init_outcome w = Rejected err →
       status (ParaPage.initMee w wallet true st).1.2
       = Some ("Error initializing MEE: " +:+ ParaPage.error_text err))
  ∧ (∀ (w : World) (wallet : Wallet) (st : PageState) (a : string) (err : thrown),
       address_of (Some wallet) = Some a → isEthereumWallet wallet = true →
       meeClient st = None →
       DynamicPage.init_outcome w a = Rejected err →
       status (DynamicPage.initMee w (Some wallet) st).1.2
       = Some ("Error initializing MEE: " +:+ DynamicPage.error_text err))
  ∧ (∀ (w : World) (wallet : option Wallet) (st : PageState) (a : string),
       address_of wallet = Some a → tick_fails w a = true →
       status (Page.fetchBalance w wallet st).1.2 = status st
       ∧ status_updates (Page.fetchBalance w wallet st).2 = [])
  ∧ (∀ (w : World) (orch : MultichainSmartAccount) (mee : MeeClient) (valid : list slot)
       (e : thrown) (later : list thrown),
       rejections ((λ recipient, buildComposable w orch (transfer_call recipient)) <$> valid)
       = e :: later →
       transfer_outcome w orch mee valid
       = Rejected (default e ((e :: later) !! (settles_first w mod length (e :: later))%nat))).
Proof.
  split; [|split; [|split; [|split]]].
  - intros w wallet st orch mee valid err Horch Hmee Haddress Hvalid Hnonempty Hflow.
    assert (Hwallet : is_Some wallet).
    { destruct wallet; [eauto|]. destruct Haddress as [a Ha]. discriminate. }
    destruct (privy_executeTransfers_run w wallet st orch mee valid
                Horch Hmee Hwallet Hvalid Hnonempty) as (st1 & t1 & -> & Hst1 & _).
    destruct (para_executeTransfers_run w wallet st orch mee valid
                Horch Hmee Haddress Hvalid Hnonempty) as (st2 & t2 & -> & Hst2 & _).
    destruct (dynamic_executeTransfers_run w wallet st orch mee valid
                Horch Hmee Hwallet Hvalid Hnonempty) as (st3 & t3 & -> & Hst3 & _).
    simpl. rewrite Hst1, Hst2, Hst3, Hflow. repeat split.
  - intros w wallet st a err Ha Hmee Hinit.
    rewrite (para_initMee_status w wallet st a Ha Hmee), Hinit. reflexivity.
  - intros w wallet st a err Ha Heth Hmee Hinit.
    rewrite (dynamic_initMee_status w wallet st a Ha Heth Hmee), Hinit. reflexivity.
  - intros w wallet st a Ha Hfails.
    destruct (fetchBalance_fails w wallet a st Ha Hfails) as (logged & -> & _ & Hstatus).
    split; [reflexivity|exact Hstatus].
  - intros w orch mee valid e later Hrejected.
    unfold transfer_outcome, built_transfers, all_resolved. rewrite Hrejected. reflexivity.
Qed.

(** The premises of C8 with the network down: the transfer and the two
    initialisations end on their error status, the balance poll on the
    status it found. And with two builds that reject, the second one
    first: the status is the message of the second. *)
Lemma errors_surface_as_status_witness :
  status (PrivyPage.executeTransfers Sample.offline_world Sample.connected_wallet
            (Sample.ready_state (Str <$> Sample.two_recipients))).1.2
  = Some "Error: Failed to fetch"
  ∧ status (ParaPage.initMee Sample.offline_world Sample.connected_wallet true
              initial_state).1.2
    = Some "Error initializing MEE: Failed to fetch"
  ∧ status (DynamicPage.initMee Sample.offline_world Sample.connected_wallet
              initial_state).1.2
    = Some "Error initializing MEE: Failed to fetch"
  ∧ status (Page.fetchBalance Sample.offline_world Sample.connected_wallet
              initial_state).1.2 = None
  ∧ status (DynamicPage.executeTransfers Scenario.racing_world Sample.connected_wallet
              (Sample.ready_state (Str <$> Sample.two_recipients))).1.2
    = Some "Error: second (early)".
Proof.
  destruct errors_surface_as_status as (Htransfer & Hpara & Hdynamic & Hbalance & Hrace).
  split.
  { refine (proj1 (Htransfer Sample.offline_world Sample.connected_wallet
      (Sample.ready_state (Str <$> Sample.two_recipients))
      (NexusAccount 1) (MeeClientHandle 1) (Str <$> Sample.two_recipients)
      (Error "Failed to fetch") eq_refl eq_refl _ eq_refl _ eq_refl)).
    - simpl. eauto.
    - discriminate. }
  split.
  { exact (Hpara Sample.offline_world Sample.connected_wallet initial_state
             Sample.captured_address (Error "Failed to fetch") eq_refl eq_refl eq_refl). }
  split.
  { exact (Hdynamic Sample.offline_world
             {| wallet_address := Some Sample.captured_address; isEthereumWallet := true |}
             initial_state Sample.captured_address (Error "Failed to fetch")
             eq_refl eq_refl eq_refl eq_refl). }
  split.
  { exact (proj1 (Hbalance Sample.offline_world Sample.connected_wallet initial_state
                    Sample.captured_address eq_refl eq_refl)). }
  refine (proj2 (proj2 (Htransfer Scenario.racing_world Sample.connected_wallet
    (Sample.ready_state (Str <$> Sample.two_recipients))
    (NexusAccount 1) (MeeClientHandle 1) (Str <$> Sample.two_recipients)
    (Error "second (early)") eq_refl eq_refl _ eq_refl _
    (Hrace Scenario.racing_world (NexusAccount 1) (MeeClientHandle 1)
       (Str <$> Sample.two_recipients) (Error "first (late)") [Error "second (early)"]
       eq_refl)))).
  - simpl. eauto.
  - discriminate.
Defined.

(** The rejection that settles later is dropped: the page shows and logs
    the one that settled first and nothing of the other. *)
Lemma late_rejection_is_dropped :
  rejections ((λ recipient,
      buildComposable Scenario.racing_world (NexusAccount 1) (transfer_call recipient))
    <$> (Str <$> Sample.two_recipients))
  = [Error "first (late)"; Error "second (early)"]
  ∧ status_updates
      (PrivyPage.executeTransfers Scenario.racing_world Sample.connected_wallet
         (Sample.ready_state (Str <$> Sample.two_recipients))).2
    = [Some "Preparing transaction..."; Some "Building transfer instructions...";
       Some "Error: second (early)"]
  ∧ List.filter (λ ev, match ev with ConsoleError _ => true | _ => false end)
      (PrivyPage.executeTransfers Scenario.racing_world Sample.connected_wallet
         (Sample.ready_state (Str <$> Sample.two_recipients))).2
    = [ConsoleError [LogThrown (Error "second (early)")]].
Proof. repeat split. Qed.

(** * Further properties of the pages *)

Import Pages.

(** ** [executeTransfers] *)

(** Past its two guards [executeTransfers] is, on every page, the status
    ['Preparing transaction...'], the chain switch of the page, and the
    flow with its [catch]. *)
Lemma executeTransfers_past_guards (p : page) (w : World) (wallet : option Wallet)
    (st : PageState) (orch : MultichainSmartAccount) (mee : MeeClient) (valid : list slot) :
  orchestrator st = Some orch → meeClient st = Some mee → wallet_present p wallet = true →
  validRecipients_of (recipients st) = Resolved valid → valid ≠ [] →
  executeTransfers_of p w wallet st
  = after (StateSet (SetStatus (Some "Preparing transaction...")) :: switch_trace p w)
      (caught_flow w orch mee valid
         (apply_update (SetStatus (Some "Preparing transaction...")) st)).
Proof.
  intros Horch Hmee Hwallet Hvalid Hnonempty.
  destruct valid as [|r valid']; [contradiction|].
  destruct p; simpl in Hwallet; unfold executeTransfers_of.
  - destruct wallet as [wallet'|]; [|discriminate].
    unfold PrivyPage.executeTransfers. past_guards Horch Hmee Hvalid.
    cbn [length Nat.eqb].
    unfold caught_flow, try_catch, bind, setStatus, set, await, console_log, emit, after.
    cbn [switch_trace].
    destruct (switchChain w base_id) as [[]|e]; cbn beta iota;
      destruct (transfer_flow w orch mee (r :: valid') _) as [[[[]|err] st1] t1];
      cbn beta iota; try reflexivity;
      destruct (transfer_failed err st1) as [[r2 st2] t2]; reflexivity.
  - destruct (address_of wallet) as [a|] eqn:Ha; [|discriminate].
    unfold ParaPage.executeTransfers.
    unfold bind at 1; unfold snapshot at 1; cbn beta iota.
    rewrite Horch, Hmee, Ha; cbn beta iota.
    unfold bind at 1; unfold lift at 1; rewrite Hvalid; cbn beta iota.
    cbn [length Nat.eqb].
    unfold caught_flow, try_catch, bind, setStatus, set, after. cbn [switch_trace].
    cbn beta iota.
    destruct (transfer_flow w orch mee (r :: valid') _) as [[[[]|err] st1] t1];
      cbn beta iota; try reflexivity;
      destruct (transfer_failed err st1) as [[r2 st2] t2]; reflexivity.
  - destruct wallet as [wallet'|]; [|discriminate].
    unfold DynamicPage.executeTransfers. past_guards Horch Hmee Hvalid.
    cbn [length Nat.eqb].
    unfold caught_flow, try_catch, bind, setStatus, set, await, console_log, emit, after.
    cbn [switch_trace].
    destruct (switchChain w base_id) as [[]|e]; cbn beta iota;
      destruct (transfer_flow w orch mee (r :: valid') _) as [[[[]|err] st1] t1];
      cbn beta iota; try reflexivity;
      destruct (transfer_failed err st1) as [[r2 st2] t2]; reflexivity.
Qed.

Import Flow.

Lemma build_calls_builds (orch : MultichainSmartAccount) (valid : list slot) :
  build_calls ((λ r, Called (CallBuildComposable orch (transfer_call r))) <$> valid)
  = (λ r, (orch, transfer_call r)) <$> valid.
Proof. induction valid as [|r valid IH]; [reflexivity|]. simpl. f_equal. exact IH. Qed.

Lemma calls_of_builds (orch : MultichainSmartAccount) (valid : list slot) :
  calls_of ((λ r, Called (CallBuildComposable orch (transfer_call r))) <$> valid)
  = (λ r, CallBuildComposable orch (transfer_call r)) <$> valid.
Proof. induction valid as [|r valid IH]; [reflexivity|]. simpl. f_equal. exact IH. Qed.

Lemma status_updates_builds (orch : MultichainSmartAccount) (valid : list slot) :
  status_updates ((λ r, Called (CallBuildComposable orch (transfer_call r))) <$> valid) = [].
Proof. induction valid as [|r valid IH]; [reflexivity|exact IH]. Qed.

Lemma unhandled_builds (orch : MultichainSmartAccount) (valid : list slot) :
  unhandled ((λ r, Called (CallBuildComposable orch (transfer_call r))) <$> valid) = [].
Proof. induction valid as [|r valid IH]; [reflexivity|exact IH]. Qed.

Lemma build_calls_app (t1 t2 : list event) :
  build_calls (t1 ++ t2) = build_calls t1 ++ build_calls t2.
Proof. apply omap_app. Qed.

Lemma calls_of_app (t1 t2 : list event) : calls_of (t1 ++ t2) = calls_of t1 ++ calls_of t2.
Proof. apply omap_app. Qed.

Lemma unhandled_app (t1 t2 : list event) : unhandled (t1 ++ t2) = unhandled t1 ++ unhandled t2.
Proof. apply omap_app. Qed.

Ltac flow_projections orch valid :=
  rewrite ?build_calls_app, ?calls_of_app, ?status_updates_app, ?unhandled_app,
    ?quote_requests_app;
  rewrite ?(build_calls_builds orch valid), ?(calls_of_builds orch valid),
    ?(status_updates_builds orch valid), ?(unhandled_builds orch valid),
    ?(quote_requests_builds orch valid).

(** The flow with its [catch] never rejects, and what it leaves is
    determined by how its calls settle. *)
Lemma caught_flow_run (w : World) (orch : MultichainSmartAccount) (mee : MeeClient)
    (valid : list slot) (st : PageState) :
  ∃ st' t,
    caught_flow w orch mee valid st = (Resolved tt, st', t)
    ∧ flow_result w orch mee valid st st' t.
Proof.
  unfold caught_flow, try_catch, transfer_flow, transfer_failed.
  unfold bind, setStatus, set, await, console_error, emit. cbn beta.
  rewrite Promise_all_builds.
  assert (Hlater := eq_refl (later_calls w orch mee valid)).
  assert (Hout := eq_refl (transfer_outcome w orch mee valid)).
  assert (Hexec := eq_refl (executed w orch mee valid)).
  unfold later_calls in Hlater at 2. unfold transfer_outcome in Hout at 2.
  unfold executed in Hexec at 2. unfold and_then in Hout, Hexec.
  destruct (built_transfers w orch valid) as [transfers|e]; cbn beta iota in *;
    [|do 2 eexists; split; [reflexivity|];
      split; rewrite ?Hlater, ?Hout, ?Hexec; try reflexivity;
      try (intros; discriminate); flow_projections orch valid;
      simpl; rewrite ?app_nil_r; reflexivity].
  destruct (getFusionQuote w mee _) as [fusionQuote|e]; cbn beta iota in *;
    [|do 2 eexists; split; [reflexivity|];
      split; rewrite ?Hlater, ?Hout, ?Hexec; try reflexivity;
      try (intros; discriminate); flow_projections orch valid;
      simpl; rewrite ?app_nil_r; reflexivity].
  destruct (executeFusionQuote w mee fusionQuote) as [hash|e]; cbn beta iota in *;
    [|do 2 eexists; split; [reflexivity|];
      split; rewrite ?Hlater, ?Hout, ?Hexec; try reflexivity;
      try (intros; discriminate); flow_projections orch valid;
      simpl; rewrite ?app_nil_r; reflexivity].
  destruct (waitForSupertransactionReceipt w mee hash) as [[]|e]; cbn beta iota in *;
    do 2 eexists; (split; [reflexivity|]);
    split; rewrite ?Hlater, ?Hout, ?Hexec; try reflexivity;
    try (intros; discriminate); flow_projections orch valid;
      simpl; rewrite ?app_nil_r; reflexivity.
Qed.

Import Shape.

(** The three [executeTransfers] are one function, up to the wallet test
    and the chain switch. *)
Lemma executeTransfers_shaped (p : page) (w : World) (wallet : option Wallet)
    (st : PageState) :
  executeTransfers_of p w wallet st = executeTransfers_shape p w wallet st.
Proof.
  unfold executeTransfers_shape.
  destruct (orchestrator st) as [orch|] eqn:Horch;
    [|destruct p; unfold executeTransfers_of, PrivyPage.executeTransfers,
        ParaPage.executeTransfers, DynamicPage.executeTransfers, bind, snapshot;
      cbn beta iota; rewrite Horch; reflexivity].
  destruct (meeClient st) as [mee|] eqn:Hmee;
    [|destruct p; unfold executeTransfers_of, PrivyPage.executeTransfers,
        ParaPage.executeTransfers, DynamicPage.executeTransfers, bind, snapshot;
      cbn beta iota; rewrite Horch, Hmee; reflexivity].
  destruct (wallet_present p wallet) eqn:Hwallet.
  - destruct (validRecipients_of (recipients st)) as [valid|e] eqn:Hvalid.
    + destruct valid as [|r valid'] eqn:Hlist.
      * destruct p; simpl in Hwallet; unfold executeTransfers_of,
          PrivyPage.executeTransfers, ParaPage.executeTransfers,
          DynamicPage.executeTransfers, bind, snapshot, lift; cbn beta iota;
          rewrite Horch, Hmee; [destruct wallet; [|discriminate] |
            destruct (address_of wallet); [|discriminate] |
            destruct wallet; [|discriminate]];
          cbn beta iota; rewrite Hvalid; reflexivity.
      * cbn [length Nat.eqb]. rewrite <- Hlist in *.
        apply executeTransfers_past_guards; try assumption. subst valid. discriminate.
    + destruct p; simpl in Hwallet; unfold executeTransfers_of,
        PrivyPage.executeTransfers, ParaPage.executeTransfers,
        DynamicPage.executeTransfers, bind, snapshot, lift; cbn beta iota;
        rewrite Horch, Hmee; [destruct wallet; [|discriminate] |
          destruct (address_of wallet); [|discriminate] |
          destruct wallet; [|discriminate]];
        cbn beta iota; rewrite Hvalid; reflexivity.
  - destruct p; simpl in Hwallet; unfold executeTransfers_of,
      PrivyPage.executeTransfers, ParaPage.executeTransfers,
      DynamicPage.executeTransfers, bind, snapshot; cbn beta iota;
      rewrite Horch, Hmee; [destruct wallet; [discriminate|] |
        destruct (address_of wallet); [discriminate|] |
        destruct wallet; [discriminate|]]; reflexivity.
Qed.

(** A run of [executeTransfers] on an initialised page with string
    recipients of which one at least is not blank. *)
Lemma transfer_run (p : page) (w : World) (wallet : option Wallet) (st : PageState)
    (rs : list string) :
  initialised p wallet st = true → recipients st = Str <$> rs →
  nonblank_entries rs ≠ [] →
  ∃ orch mee st' t,
    orchestrator st = Some orch ∧ meeClient st = Some mee
    ∧ executeTransfers_of p w wallet st
      = (Resolved tt, st',
         StateSet (SetStatus (Some "Preparing transaction...")) :: switch_trace p w ++ t)
    ∧ flow_result w orch mee (Str <$> nonblank_entries rs)
        (apply_update (SetStatus (Some "Preparing transaction...")) st) st' t.
Proof.
  intros Hinit Hrs Hnonblank. rewrite executeTransfers_shaped.
  unfold executeTransfers_shape. unfold initialised in Hinit.
  destruct (orchestrator st) as [orch|]; [|discriminate].
  destruct (meeClient st) as [mee|]; [|discriminate].
  rewrite Hinit, Hrs, validRecipients_of_strings. fold (nonblank_entries rs).
  destruct (nonblank_entries rs) as [|r valid'] eqn:Hvalid; [contradiction|].
  rewrite length_fmap. cbn [length Nat.eqb].
  destruct (caught_flow_run w orch mee (Str <$> r :: valid')
              (apply_update (SetStatus (Some "Preparing transaction...")) st))
    as (st' & t & Hrun & Hresult).
  exists orch, mee, st', t. rewrite Hrun.
  split; [reflexivity|]. split; [reflexivity|]. split; [reflexivity|exact Hresult].
Qed.

(** X1. [executeTransfers] refuses, on every provider page, when the
    account, the client or the wallet is missing, and when no recipient
    is left after the blank ones are dropped: it sets the status that
    says so, makes no call outside the page (not even the chain switch),
    and changes nothing else. *)
Theorem transfer_refusals_make_no_call :
  ∀ (p : page) (w : World) (wallet : option Wallet) (st : PageState),
    (initialised p wallet st = false →
     executeTransfers_of p w wallet st
     = (Resolved tt, apply_update (SetStatus (Some not_initialised_status)) st,
        [StateSet (SetStatus (Some not_initialised_status))]))
    ∧ (∀ rs, initialised p wallet st = true → recipients st = Str <$> rs →
         all_blank rs = true →
         executeTransfers_of p w wallet st
         = (Resolved tt, apply_update (SetStatus (Some no_recipient_status)) st,
            [StateSet (SetStatus (Some no_recipient_status))])).
Proof.
  intros p w wallet st. split.
  - intros Hinit. rewrite executeTransfers_shaped. unfold executeTransfers_shape.
    unfold initialised in Hinit.
    destruct (orchestrator st), (meeClient st); try reflexivity.
    rewrite Hinit. reflexivity.
  - intros rs Hinit Hrs Hblank. rewrite executeTransfers_shaped.
    unfold executeTransfers_shape. unfold initialised in Hinit.
    destruct (orchestrator st); [|discriminate].
    destruct (meeClient st); [|discriminate].
    rewrite Hinit, Hrs, validRecipients_of_strings.
    assert (Hnone : nonblank_entries rs = []).
    { clear -Hblank. unfold nonblank_entries, all_blank in *.
      induction rs as [|r rs IH]; [reflexivity|]. simpl in *.
      apply andb_prop in Hblank as [Hr Hrest]. rewrite Hr. simpl. exact (IH Hrest). }
    unfold nonblank_entries in Hnone. rewrite Hnone. reflexivity.
Qed.

(** The premises of X1: the fresh page, and an initialised page whose
    rows are empty or white space. *)
Lemma transfer_refusals_make_no_call_witness :
  status (executeTransfers_of OnPara Sample.fair_world Sample.connected_wallet
            initial_state).1.2 = Some not_initialised_status
  ∧ (executeTransfers_of OnDynamic Sample.fair_world Sample.connected_wallet
       (Sample.ready_state [Str ""; Str "  "])).2
    = [StateSet (SetStatus (Some no_recipient_status))].
Proof.
  destruct (transfer_refusals_make_no_call OnPara Sample.fair_world
              Sample.connected_wallet initial_state) as [Hfirst _].
  destruct (transfer_refusals_make_no_call OnDynamic Sample.fair_world
              Sample.connected_wallet (Sample.ready_state [Str ""; Str "  "]))
    as [_ Hsecond].
  split.
  - rewrite (Hfirst eq_refl). reflexivity.
  - rewrite (Hsecond [""; "  "] eq_refl eq_refl eq_refl). reflexivity.
Defined.

Lemma status_updates_switch (p : page) (w : World) : status_updates (switch_trace p w) = [].
Proof. destruct p; simpl; try reflexivity; destruct (switchChain w base_id); reflexivity. Qed.

Lemma build_calls_switch (p : page) (w : World) : build_calls (switch_trace p w) = [].
Proof. destruct p; simpl; try reflexivity; destruct (switchChain w base_id); reflexivity. Qed.

Lemma quote_requests_switch (p : page) (w : World) : quote_requests (switch_trace p w) = [].
Proof. destruct p; simpl; try reflexivity; destruct (switchChain w base_id); reflexivity. Qed.

Lemma unhandled_switch (p : page) (w : World) : unhandled (switch_trace p w) = [].
Proof. destruct p; simpl; try reflexivity; destruct (switchChain w base_id); reflexivity. Qed.


(** X2. A transfer that goes through. On an initialised page with at
    least one recipient that is not blank, when every call of the flow
    resolves, [executeTransfers] shows the six progress statuses in
    order, ends on ['Transaction confirmed!'], and stores the MEE Scan
    link of the hash the execution returned. *)
Theorem transfer_goes_through :
  ∀ (p : page) (w : World) (wallet : option Wallet) (st : PageState) (rs : list string)
    (orch : MultichainSmartAccount) (mee : MeeClient),
    initialised p wallet st = true →
    orchestrator st = Some orch → meeClient st = Some mee →
    recipients st = Str <$> rs → nonblank_entries rs ≠ [] →
    flow_succeeds w orch mee (Str <$> nonblank_entries rs) →
    (executeTransfers_of p w wallet st).1.1 = Resolved tt
    ∧ status (executeTransfers_of p w wallet st).1.2 = Some "Transaction confirmed!"
    ∧ status_updates (executeTransfers_of p w wallet st).2 = progress_statuses
    ∧ (∃ hash,
         executed w orch mee (Str <$> nonblank_entries rs) = Resolved hash
         ∧ meeScanLink (executeTransfers_of p w wallet st).1.2
           = Some (getMeeScanLink w hash)).
Proof.
  intros p w wallet st rs orch mee Hinit Horch Hmee Hrs Hnonblank Hok.
  destruct (transfer_run p w wallet st rs Hinit Hrs Hnonblank)
    as (orch' & mee' & st' & t & Horch' & Hmee' & Hrun & Hresult).
  assert (orch' = orch) as -> by congruence.
  assert (mee' = mee) as -> by congruence.
  rewrite Hrun. simpl. destruct Hresult.
  unfold flow_succeeds in Hok.
  split; [reflexivity|]. split.
  { rewrite flow_status0.
    destruct (transfer_outcome w orch mee _) as [[]|e]; [reflexivity|discriminate]. }
  split.
  { rewrite status_updates_app, status_updates_switch, (flow_statuses0 Hok). reflexivity. }
  rewrite flow_link0.
  assert (Hexec : is_resolved (executed w orch mee (Str <$> nonblank_entries rs)) = true).
  { revert Hok. unfold transfer_outcome, executed, and_then.
    destruct (built_transfers w orch _); [|discriminate].
    destruct (getFusionQuote w mee _); [|discriminate].
    destruct (executeFusionQuote w mee _); [reflexivity|discriminate]. }
  destruct (executed w orch mee _) as [hash|e]; [eauto|discriminate].
Qed.

(** The premises of X2 in the end-to-end scenario. *)
Lemma transfer_goes_through_witness :
  flow_succeeds Sample.fair_world (NexusAccount 1) (MeeClientHandle 1)
    (Str <$> nonblank_entries Sample.two_recipients)
  ∧ status_updates
      (executeTransfers_of OnPrivy Sample.fair_world Sample.connected_wallet
         (Sample.ready_state (Str <$> Sample.two_recipients))).2 = progress_statuses
  ∧ meeScanLink
      (executeTransfers_of OnPrivy Sample.fair_world Sample.connected_wallet
         (Sample.ready_state (Str <$> Sample.two_recipients))).1.2
    = Some "https://meescan.biconomy.io/details/0xhash".
Proof.
  assert (Hok : flow_succeeds Sample.fair_world (NexusAccount 1) (MeeClientHandle 1)
                  (Str <$> nonblank_entries Sample.two_recipients)) by reflexivity.
  assert (Hnonblank : nonblank_entries Sample.two_recipients ≠ []) by discriminate.
  destruct (transfer_goes_through OnPrivy Sample.fair_world Sample.connected_wallet
              (Sample.ready_state (Str <$> Sample.two_recipients)) Sample.two_recipients
              (NexusAccount 1) (MeeClientHandle 1) eq_refl eq_refl eq_refl eq_refl
              Hnonblank Hok) as (_ & _ & Hstatuses & _).
  split; [exact Hok|]. split; [exact Hstatuses|]. reflexivity.
Defined.

(** [executeTransfers] leaves recipients, balance, client and account
    alone. *)
Lemma executeTransfers_frame (p : page) (w : World) (wallet : option Wallet)
    (st : PageState) :
  recipients (executeTransfers_of p w wallet st).1.2 = recipients st
  ∧ balance (executeTransfers_of p w wallet st).1.2 = balance st
  ∧ meeClient (executeTransfers_of p w wallet st).1.2 = meeClient st
  ∧ orchestrator (executeTransfers_of p w wallet st).1.2 = orchestrator st.
Proof.
  rewrite executeTransfers_shaped. unfold executeTransfers_shape.
  destruct (orchestrator st) as [orch|] eqn:Horch; [|rewrite <- Horch; repeat split].
  destruct (meeClient st) as [mee|] eqn:Hmee;
    [|rewrite <- Horch, <- Hmee; repeat split].
  destruct (wallet_present p wallet); [|rewrite <- Horch, <- Hmee; repeat split].
  destruct (validRecipients_of (recipients st)) as [valid|e];
    [|rewrite <- Horch, <- Hmee; repeat split].
  destruct (length valid =? 0)%nat; [rewrite <- Horch, <- Hmee; repeat split|].
  destruct (caught_flow_run w orch mee valid
              (apply_update (SetStatus (Some "Preparing transaction...")) st))
    as (st' & t & -> & Hresult).
  destruct Hresult. simpl in *.
  rewrite flow_recipients0, flow_balance0, flow_client0, flow_account0, Horch, Hmee.
  repeat split.
Qed.

(** X3. [executeTransfers] changes the status and the MEE Scan link and
    nothing else: whatever the world answers and whatever the state, the
    recipients, the balance, the account and the client are after the
    run what they were before it. *)
Theorem transfer_touches_status_and_link_only :
  ∀ (p : page) (w : World) (wallet : option Wallet) (st : PageState),
    recipients (executeTransfers_of p w wallet st).1.2 = recipients st
    ∧ balance (executeTransfers_of p w wallet st).1.2 = balance st
    ∧ meeClient (executeTransfers_of p w wallet st).1.2 = meeClient st
    ∧ orchestrator (executeTransfers_of p w wallet st).1.2 = orchestrator st.
Proof. intros p w wallet st. apply executeTransfers_frame. Qed.

(** X4. The MEE Scan link follows the execution, not the receipt. After
    a run on an initialised page the link is the one of the hash that
    [executeFusionQuote] returned, if the flow got that far, and the one
    the page had before otherwise. So a transfer whose receipt wait
    rejects ends on an error status with the link of that transfer set,
    and a transfer that fails earlier leaves the link of an older
    transfer in place. *)
Theorem link_follows_execution :
  ∀ (p : page) (w : World) (wallet : option Wallet) (st : PageState) (rs : list string)
    (orch : MultichainSmartAccount) (mee : MeeClient),
    initialised p wallet st = true →
    orchestrator st = Some orch → meeClient st = Some mee →
    recipients st = Str <$> rs → nonblank_entries rs ≠ [] →
    meeScanLink (executeTransfers_of p w wallet st).1.2
    = match executed w orch mee (Str <$> nonblank_entries rs) with
      | Resolved hash => Some (getMeeScanLink w hash)
      | Rejected _ => meeScanLink st
      end
    ∧ (∀ hash err,
         executed w orch mee (Str <$> nonblank_entries rs) = Resolved hash →
         waitForSupertransactionReceipt w mee hash = Rejected err →
         status (executeTransfers_of p w wallet st).1.2
         = Some ("Error: " +:+ template (message err))
         ∧ meeScanLink (executeTransfers_of p w wallet st).1.2
           = Some (getMeeScanLink w hash)).
Proof.
  intros p w wallet st rs orch mee Hinit Horch Hmee Hrs Hnonblank.
  destruct (transfer_run p w wallet st rs Hinit Hrs Hnonblank)
    as (orch' & mee' & st' & t & Horch' & Hmee' & Hrun & Hresult).
  assert (orch' = orch) as -> by congruence.
  assert (mee' = mee) as -> by congruence.
  rewrite Hrun. simpl. destruct Hresult. split; [exact flow_link0|].
  intros hash err Hexec Hwait. rewrite flow_status0, flow_link0, Hexec.
  split; [|reflexivity].
  revert Hexec. unfold transfer_outcome, executed, and_then.
  destruct (built_transfers w orch _); [|discriminate].
  destruct (getFusionQuote w mee _); [|discriminate].
  intros ->. rewrite Hwait. reflexivity.
Qed.

(** The premises of X4: the receipt is lost after the execution, and the
    page ends on the error with the link of the new hash; with the
    network down the link of the earlier transfer stays. *)
Lemma link_follows_execution_witness :
  status (executeTransfers_of OnPara Scenario.receipt_lost_world Sample.connected_wallet
            Scenario.state_after_a_transfer).1.2
  = Some "Error: Timed out waiting for receipt"
  ∧ meeScanLink
      (executeTransfers_of OnPara Scenario.receipt_lost_world Sample.connected_wallet
         Scenario.state_after_a_transfer).1.2
    = Some "https://meescan.biconomy.io/details/0xhash"
  ∧ meeScanLink
      (executeTransfers_of OnPara Sample.offline_world Sample.connected_wallet
         Scenario.state_after_a_transfer).1.2
    = Some "https://meescan.biconomy.io/details/0xolder".
Proof.
  assert (Hnonblank : nonblank_entries Sample.two_recipients ≠ []) by discriminate.
  destruct (link_follows_execution OnPara Scenario.receipt_lost_world
              Sample.connected_wallet Scenario.state_after_a_transfer Sample.two_recipients
              (NexusAccount 1) (MeeClientHandle 1) eq_refl eq_refl eq_refl eq_refl Hnonblank)
    as [_ Hlate].
  destruct (Hlate "0xhash" Scenario.timeout_error eq_refl eq_refl) as [Hstatus Hlink].
  destruct (link_follows_execution OnPara Sample.offline_world
              Sample.connected_wallet Scenario.state_after_a_transfer Sample.two_recipients
              (NexusAccount 1) (MeeClientHandle 1) eq_refl eq_refl eq_refl eq_refl Hnonblank)
    as [Hstale _].
  split; [exact Hstatus|]. split; [exact Hlink|]. exact Hstale.
Defined.

(** X5. The instructions that are built. On an initialised page
    [executeTransfers] calls [buildComposable] on the page's account once
    for each recipient that is not blank, in the order of the list, each
    time for a [transfer] of 100000 units of USDC on Base to that
    recipient, as typed (the text is not trimmed). *)
Theorem one_instruction_per_recipient :
  ∀ (p : page) (w : World) (wallet : option Wallet) (st : PageState) (rs : list string)
    (orch : MultichainSmartAccount) (mee : MeeClient),
    initialised p wallet st = true →
    orchestrator st = Some orch → meeClient st = Some mee →
    recipients st = Str <$> rs → nonblank_entries rs ≠ [] →
    build_calls (executeTransfers_of p w wallet st).2
    = (λ r, (orch, usdc_transfer_to r)) <$> nonblank_entries rs.
Proof.
  intros p w wallet st rs orch mee Hinit Horch Hmee Hrs Hnonblank.
  destruct (transfer_run p w wallet st rs Hinit Hrs Hnonblank)
    as (orch' & mee' & st' & t & Horch' & Hmee' & Hrun & Hresult).
  assert (orch' = orch) as -> by congruence.
  rewrite Hrun. destruct Hresult.
  change (build_calls (switch_trace p w ++ t)
          = (λ r, (orch, usdc_transfer_to r)) <$> nonblank_entries rs).
  rewrite build_calls_app, build_calls_switch, flow_builds0, <- list_fmap_compose.
  reflexivity.
Qed.

(** The premises of X5 on a page with a padded row and a blank one. *)
Lemma one_instruction_per_recipient_witness :
  build_calls
    (executeTransfers_of OnDynamic Sample.offline_world Sample.connected_wallet
       (Sample.ready_state [Str " 0xabc "; Str "  "; Str "0xdef"])).2
  = [(NexusAccount 1, usdc_transfer_to " 0xabc "); (NexusAccount 1, usdc_transfer_to "0xdef")].
Proof.
  assert (Hnonblank : nonblank_entries [" 0xabc "; "  "; "0xdef"] ≠ []) by discriminate.
  exact (one_instruction_per_recipient OnDynamic Sample.offline_world
           Sample.connected_wallet (Sample.ready_state [Str " 0xabc "; Str "  "; Str "0xdef"])
           [" 0xabc "; "  "; "0xdef"] (NexusAccount 1) (MeeClientHandle 1)
           eq_refl eq_refl eq_refl eq_refl Hnonblank).
Defined.






Lemma after_result {A} (t0 : list event) (run : outcome A * PageState * list event) :
  (after t0 run).1 = run.1.
Proof. destruct run as [[r st] t]. reflexivity. Qed.

Lemma caught_flow_same (w1 w2 : World) (orch : MultichainSmartAccount) (mee : MeeClient)
    (valid : list slot) (st : PageState) :
  same_but_switch w1 w2 →
  caught_flow w1 orch mee valid st = caught_flow w2 orch mee valid st.
Proof.
  intros (Hbuild & Hquote & Hexec & Hlink & Hwait & Hfirst).
  destruct w1, w2. simpl in *. subst. reflexivity.
Qed.

(** X7. The chain switch at the head of [executeTransfers] does not
    bear on the transfer. Two worlds that differ only in what the switch
    answers (it resolves in one and rejects in the other, say) give the
    same result, the same final state, the same instructions and the
    same quote requests, on every page and from every state. *)
Theorem chain_switch_does_not_bear_on_transfer :
  ∀ (p : page) (w1 w2 : World) (wallet : option Wallet) (st : PageState),
    same_but_switch w1 w2 →
    (executeTransfers_of p w1 wallet st).1 = (executeTransfers_of p w2 wallet st).1
    ∧ build_calls (executeTransfers_of p w1 wallet st).2
      = build_calls (executeTransfers_of p w2 wallet st).2
    ∧ quote_requests (executeTransfers_of p w1 wallet st).2
      = quote_requests (executeTransfers_of p w2 wallet st).2.
Proof.
  intros p w1 w2 wallet st Hsame. rewrite !executeTransfers_shaped.
  unfold executeTransfers_shape.
  destruct (orchestrator st) as [orch|]; [|repeat split].
  destruct (meeClient st) as [mee|]; [|repeat split].
  destruct (wallet_present p wallet); [|repeat split].
  destruct (validRecipients_of (recipients st)) as [valid|e]; [|repeat split].
  destruct (length valid =? 0)%nat; [repeat split|].
  rewrite (caught_flow_same w1 w2 orch mee valid _ Hsame).
  destruct (caught_flow w2 orch mee valid _) as [[r st'] t].
  unfold after. cbn [fst snd].
  split; [reflexivity|].
  rewrite !build_calls_app, !quote_requests_app.
  change (StateSet (SetStatus (Some "Preparing transaction...")) :: switch_trace p w1)
    with ([StateSet (SetStatus (Some "Preparing transaction..."))] ++ switch_trace p w1).
  change (StateSet (SetStatus (Some "Preparing transaction...")) :: switch_trace p w2)
    with ([StateSet (SetStatus (Some "Preparing transaction..."))] ++ switch_trace p w2).
  rewrite !build_calls_app, !quote_requests_app, !build_calls_switch, !quote_requests_switch.
  split; reflexivity.
Qed.

(** The premises of X7: with the switch refused the Privy page builds
    and requests what it does with the switch accepted. *)
Lemma chain_switch_does_not_bear_on_transfer_witness :
  same_but_switch Scenario.no_switch_world Sample.fair_world
  ∧ status (executeTransfers_of OnPrivy Scenario.no_switch_world Sample.connected_wallet
              (Sample.ready_state (Str <$> Sample.two_recipients))).1.2
    = Some "Transaction confirmed!".
Proof.
  assert (Hsame : same_but_switch Scenario.no_switch_world Sample.fair_world)
    by (repeat split).
  destruct (chain_switch_does_not_bear_on_transfer OnPrivy Scenario.no_switch_world
              Sample.fair_world Sample.connected_wallet
              (Sample.ready_state (Str <$> Sample.two_recipients)) Hsame) as (Hrun & _).
  split; [exact Hsame|]. rewrite Hrun. reflexivity.
Defined.

(** ** [initMee] *)

Import Init.

(** A run of [initMee] that goes to work: what it leaves is determined
    by how its calls settle. *)
Lemma initMee_run (p : page) (w : World) (wallet : option Wallet) (isConnected : bool)
    (st : PageState) (a : string) :
  init_starts p wallet isConnected st = Some a →
  (initMee_of p w wallet isConnected st).1.1 = Resolved tt
  ∧ orchestrator (initMee_of p w wallet isConnected st).1.2
    = match init_account p w a with
      | Resolved account => Some account
      | Rejected _ => orchestrator st
      end
  ∧ meeClient (initMee_of p w wallet isConnected st).1.2
    = match init_client p w a with
      | Resolved client => Some client
      | Rejected _ => None
      end
  ∧ status (initMee_of p w wallet isConnected st).1.2
    = init_status p (init_client p w a) (status st)
  ∧ recipients (initMee_of p w wallet isConnected st).1.2 = recipients st
  ∧ balance (initMee_of p w wallet isConnected st).1.2 = balance st
  ∧ meeScanLink (initMee_of p w wallet isConnected st).1.2 = meeScanLink st.
Proof.
  unfold init_starts. intros Hstart.
  destruct (meeClient st) as [mee|] eqn:Hmee; [discriminate|].
  unfold init_client, init_account, init_status, and_then.
  destruct p; unfold initMee_of.
  - unfold PrivyPage.initMee. rewrite Hstart. unfold bind, snapshot; simpl. rewrite Hmee.
    run_handler; repeat split; try assumption.
  - destruct isConnected; [|discriminate].
    unfold ParaPage.initMee. rewrite Hstart. unfold bind, snapshot; simpl. rewrite Hmee.
    run_handler; repeat split; try assumption.
  - destruct wallet as [connected|]; [|discriminate].
    destruct (isEthereumWallet connected) eqn:Heth; [|discriminate].
    unfold DynamicPage.initMee. rewrite Hstart. unfold bind, snapshot; simpl.
    rewrite Hmee, Heth. simpl.
    run_handler; repeat split; try assumption.
Qed.


(** X10. A run of [initMee] calls the account factory at most once, with
    the one chain configuration of Base, and with the signer the page
    made: on the Privy and Dynamic pages the adapter around the provider
    (the wallet client) the SDK returned, its address the checksummed
    form of the wallet's address; on the Para page the account the Para
    SDK returned. *)
Theorem factory_called_once_with_page_signer (p : page) (w : World) (wallet : option Wallet)
    (isConnected : bool) (st : PageState) (a : string) (params : NexusParams) :
  init_starts p wallet isConnected st = Some a →
  params ∈ factory_calls (initMee_of p w wallet isConnected st).2 →
  factory_calls (initMee_of p w wallet isConnected st).2 = [params]
  ∧ base_only params
  ∧ match p with
    | OnPrivy =>
        ∃ provider,
          getEthereumProvider w = Resolved provider
          ∧ getAddress w a = Resolved (address (signer params))
          ∧ signer params = Signer.Privy.signer provider (address (signer params))
    | OnPara => createParaAccount w = Resolved (signer params)
    | OnDynamic =>
        ∃ walletClient,
          getWalletClient w (Number_toString base_id) = Resolved walletClient
          ∧ getAddress w a = Resolved (address (signer params))
          ∧ signer params = Signer.Dynamic.signer walletClient (address (signer params))
    end.
Proof.
  unfold init_starts. intros Hstart.
  destruct (meeClient st) as [mee|] eqn:Hmee; [discriminate|].
  destruct p; unfold initMee_of.
  - unfold PrivyPage.initMee. rewrite Hstart. unfold bind, snapshot; simpl. rewrite Hmee.
    unfold bind, try_catch, snapshot, ret, emit, set, setStatus, await, lift,
      console_log, console_error, spawn; simpl.
    destruct (switchChain w base_id); simpl; [|intros H; inversion H].
    destruct (getEthereumProvider w) as [provider|]; simpl; [|intros H; inversion H].
    destruct (getAddress w a) as [checksummed|]; simpl; [|intros H; inversion H].
    destruct (toMultichainNexusAccount w _); simpl.
    all: destruct (createMeeClient w _) || idtac; simpl.
    all: intros H; apply list_elem_of_singleton in H; subst params.
    all: split; [reflexivity|]; split; [reflexivity|].
    all: exists provider; repeat split.
  - destruct isConnected; [|discriminate].
    unfold ParaPage.initMee. rewrite Hstart. unfold bind, snapshot; simpl. rewrite Hmee.
    unfold bind, try_catch, snapshot, ret, emit, set, setStatus, await, lift,
      console_log, console_error, spawn; simpl.
    destruct (createParaAccount w) as [viemParaAccount|]; simpl; [|intros H; inversion H].
    destruct (toMultichainNexusAccount w _); simpl.
    all: destruct (createMeeClient w _) || idtac; simpl.
    all: intros H; apply list_elem_of_singleton in H; subst params.
    all: repeat split.
  - destruct wallet as [connected|]; [|discriminate].
    destruct (isEthereumWallet connected) eqn:Heth; [|discriminate].
    unfold DynamicPage.initMee. rewrite Hstart. unfold bind, snapshot; simpl.
    rewrite Hmee, Heth. simpl.
    unfold bind, try_catch, snapshot, ret, emit, set, setStatus, await, lift,
      console_log, console_error, spawn; simpl.
    destruct (switchChain w base_id); simpl.
    all: destruct (getWalletClient w _) as [walletClient|]; simpl; [|intros H; inversion H].
    all: destruct (getAddress w a) as [checksummed|]; simpl; [|intros H; inversion H].
    all: destruct (toMultichainNexusAccount w _); simpl.
    all: destruct (createMeeClient w _) || idtac; simpl.
    all: intros H; apply list_elem_of_singleton in H; subst params.
    all: split; [reflexivity|]; split; [reflexivity|].
    all: exists walletClient; repeat split.
Qed.

Lemma factory_called_once_with_page_signer_witness :
  factory_calls (initMee_of OnDynamic Sample.fair_world Sample.connected_wallet true
                   initial_state).2
  = [nexus_params (Signer.Dynamic.signer Sample.other_session_wallet
                     Sample.captured_address)]
  ∧ getAddress Sample.fair_world Sample.captured_address = Resolved Sample.captured_address.
Proof.
  destruct (factory_called_once_with_page_signer OnDynamic Sample.fair_world
              Sample.connected_wallet true initial_state Sample.captured_address
              (nexus_params (Signer.Dynamic.signer Sample.other_session_wallet
                               Sample.captured_address)))
    as (Hcalls & _ & walletClient & _ & Haddress & _).
  - reflexivity.
  - apply list_elem_of_here.
  - split; [exact Hcalls|exact Haddress].
Defined.


(** A run that does not go to work leaves the state as it is and logs at
    most one console line. *)
Lemma initMee_idle (p : page) (w : World) (wallet : option Wallet) (isConnected : bool)
    (st : PageState) :
  init_starts p wallet isConnected st = None →
  (initMee_of p w wallet isConnected st).1 = (Resolved tt, st)
  ∧ calls_of (initMee_of p w wallet isConnected st).2 = [].
Proof.
  unfold init_starts. intros Hstart.
  destruct p; unfold initMee_of.
  - unfold PrivyPage.initMee, bind, snapshot; simpl.
    destruct (address_of wallet); [|split; reflexivity].
    destruct (meeClient st); [split; reflexivity|discriminate].
  - unfold ParaPage.initMee, bind, snapshot; simpl.
    destruct (address_of wallet), isConnected; try (split; reflexivity).
    all: destruct (meeClient st); [split; reflexivity|discriminate].
  - unfold DynamicPage.initMee, bind, snapshot; simpl.
    destruct wallet as [connected|]; [|split; reflexivity].
    destruct (address_of (Some connected)); [|split; reflexivity].
    destruct (meeClient st); [split; reflexivity|].
    destruct (isEthereumWallet connected); [discriminate|split; reflexivity].
Qed.

(** A run that goes to work makes a call. *)
Lemma initMee_busy (p : page) (w : World) (wallet : option Wallet) (isConnected : bool)
    (st : PageState) (a : string) :
  init_starts p wallet isConnected st = Some a →
  calls_of (initMee_of p w wallet isConnected st).2 ≠ [].
Proof.
  unfold init_starts. intros Hstart.
  destruct (meeClient st) as [mee|] eqn:Hmee; [discriminate|].
  destruct p; unfold initMee_of.
  - unfold PrivyPage.initMee. rewrite Hstart. unfold bind, snapshot; simpl. rewrite Hmee.
    run_handler; discriminate.
  - destruct isConnected; [|discriminate].
    unfold ParaPage.initMee. rewrite Hstart. unfold bind, snapshot; simpl. rewrite Hmee.
    run_handler; discriminate.
  - destruct wallet as [connected|]; [|discriminate].
    destruct (isEthereumWallet connected) eqn:Heth; [|discriminate].
    unfold DynamicPage.initMee. rewrite Hstart. unfold bind, snapshot; simpl.
    rewrite Hmee, Heth. simpl.
    run_handler; discriminate.
Qed.

(** X8. When every call of [initMee] succeeds, the page holds the
    account the factory returned and the client made from that very
    account; status, recipients, balance and link are as before. *)
Theorem initialisation_stores_account_and_client
    (p : page) (w : World) (wallet : option Wallet) (isConnected : bool)
    (st : PageState) (a : string) (client : MeeClient) :
  init_starts p wallet isConnected st = Some a →
  init_client p w a = Resolved client →
  ∃ account,
    init_account p w a = Resolved account
    ∧ createMeeClient w account = Resolved client
    ∧ (initMee_of p w wallet isConnected st).1
      = (Resolved tt,
         apply_update (SetMeeClient client) (apply_update (SetOrchestrator account) st)).
Proof.
  intros Hstart Hclient.
  destruct (initMee_run p w wallet isConnected st a Hstart)
    as (Hres & Horch & Hmee & Hstatus & Hrec & Hbal & Hlink).
  rewrite Hclient in Hmee, Hstatus. unfold init_client, and_then in Hclient.
  destruct (init_account p w a) as [account|] eqn:Haccount; [|discriminate].
  exists account. split; [reflexivity|]. split; [exact Hclient|].
  destruct (initMee_of p w wallet isConnected st) as [[o st'] t]. simpl in *.
  subst o. f_equal. destruct st', st. simpl in *. subst. reflexivity.
Qed.

Lemma initialisation_stores_account_and_client_witness :
  ∃ account,
    init_account OnPrivy Sample.fair_world Sample.captured_address = Resolved account
    ∧ createMeeClient Sample.fair_world account = Resolved (MeeClientHandle 1)
    ∧ (initMee_of OnPrivy Sample.fair_world Sample.connected_wallet true initial_state).1
      = (Resolved tt,
         apply_update (SetMeeClient (MeeClientHandle 1))
           (apply_update (SetOrchestrator account) initial_state)).
Proof.
  apply (initialisation_stores_account_and_client OnPrivy Sample.fair_world
           Sample.connected_wallet true initial_state Sample.captured_address
           (MeeClientHandle 1)); reflexivity.
Defined.

(** X9. When the account is made but the client factory fails, the page
    is left half initialised: the account is stored, the client is not.
    The Para and Dynamic pages say so in the status; the Privy page
    shows nothing.  A payment attempted in that state is refused with
    the not-initialised status, without a call. *)
Theorem client_failure_leaves_account_without_client
    (p : page) (w : World) (wallet : option Wallet) (isConnected : bool)
    (st : PageState) (a : string) (account : MultichainSmartAccount) (e : thrown) :
  init_starts p wallet isConnected st = Some a →
  init_account p w a = Resolved account →
  createMeeClient w account = Rejected e →
  let st' := (initMee_of p w wallet isConnected st).1.2 in
  orchestrator st' = Some account
  ∧ meeClient st' = None
  ∧ status st'
    = match p with
      | OnPrivy => status st
      | OnPara => Some ("Error initializing MEE: " +:+ ParaPage.error_text e)
      | OnDynamic => Some ("Error initializing MEE: " +:+ DynamicPage.error_text e)
      end
  ∧ ∀ w', executeTransfers_of p w' wallet st'
          = (Resolved tt, apply_update (SetStatus (Some not_initialised_status)) st',
             [StateSet (SetStatus (Some not_initialised_status))]).
Proof.
  intros Hstart Haccount Hclient st'.
  destruct (initMee_run p w wallet isConnected st a Hstart)
    as (Hres & Horch & Hmee & Hstatus & Hrec & Hbal & Hlink).
  unfold init_client, and_then in Hmee, Hstatus.
  rewrite Haccount in Horch, Hmee, Hstatus. rewrite Hclient in Hmee, Hstatus.
  fold st' in Horch, Hmee, Hstatus.
  split; [exact Horch|]. split; [exact Hmee|].
  split; [rewrite Hstatus; destruct p; reflexivity|].
  intros w'. rewrite executeTransfers_shaped. unfold executeTransfers_shape.
  rewrite Horch, Hmee. reflexivity.
Qed.

Lemma client_failure_leaves_account_without_client_witness :
  let st' := (initMee_of OnPara Scenario.no_client_world Sample.connected_wallet true
                initial_state).1.2 in
  orchestrator st' = Some (NexusAccount 1)
  ∧ meeClient st' = None
  ∧ status st' = Some "Error initializing MEE: MEE node unreachable".
Proof.
  intros st'.
  destruct (client_failure_leaves_account_without_client OnPara Scenario.no_client_world
              Sample.connected_wallet true initial_state Sample.captured_address
              (NexusAccount 1) (Error "MEE node unreachable")
              eq_refl eq_refl eq_refl) as (Horch & Hmee & Hstatus & _).
  split; [exact Horch|]. split; [exact Hmee|exact Hstatus].
Defined.


(** X11. The chain switch at the head of [initMee] is required on the
    Privy page and optional on the Dynamic page.  On the Privy page a
    rejected switch ends the run after that one call: no account, no
    client, and no word in the status.  On the Dynamic page the answer
    of the switch does not bear on the state the run leaves, nor on the
    call to the account factory. *)
Theorem chain_switch_gates_privy_initialisation_only
    (w w1 w2 : World) (wallet : option Wallet) (st : PageState) (a : string) (e : thrown) :
  (init_starts OnPrivy wallet true st = Some a →
   switchChain w base_id = Rejected e →
   (initMee_of OnPrivy w wallet true st).1 = (Resolved tt, st)
   ∧ calls_of (initMee_of OnPrivy w wallet true st).2 = [CallSwitchChain base_id])
  ∧ (same_but_switch_init w1 w2 →
     (initMee_of OnDynamic w1 wallet true st).1 = (initMee_of OnDynamic w2 wallet true st).1
     ∧ factory_calls (initMee_of OnDynamic w1 wallet true st).2
       = factory_calls (initMee_of OnDynamic w2 wallet true st).2).
Proof.
  split.
  - unfold init_starts. intros Hstart Hswitch.
    destruct (meeClient st) as [mee|] eqn:Hmee; [discriminate|].
    unfold initMee_of, PrivyPage.initMee. rewrite Hstart.
    unfold bind, snapshot; simpl. rewrite Hmee.
    unfold bind, try_catch, snapshot, ret, emit, set, setStatus, await, lift,
      console_log, console_error, spawn; simpl.
    rewrite Hswitch. simpl. split; reflexivity.
  - intros (_ & Hclient & _ & Haddress & Hfactory & Hmee).
    unfold initMee_of, DynamicPage.initMee, bind, snapshot; simpl.
    destruct (address_of wallet) as [wallet_address|]; [|split; reflexivity].
    destruct wallet as [connected|]; [|split; reflexivity].
    destruct (meeClient st); [split; reflexivity|].
    destruct (isEthereumWallet connected); simpl; [|split; reflexivity].
    unfold bind, try_catch, snapshot, ret, emit, set, setStatus, await, lift,
      console_log, console_error, spawn; simpl.
    rewrite Hclient, Haddress, Hfactory, Hmee.
    destruct (switchChain w1 base_id), (switchChain w2 base_id); simpl.
    all: destruct (getWalletClient w2 _); simpl; [|split; reflexivity].
    all: destruct (getAddress w2 _); simpl; [|split; reflexivity].
    all: destruct (toMultichainNexusAccount w2 _); simpl; [|split; reflexivity].
    all: destruct (createMeeClient w2 _); simpl; split; reflexivity.
Qed.

Lemma chain_switch_gates_privy_initialisation_only_witness :
  ((initMee_of OnPrivy Scenario.no_switch_world Sample.connected_wallet true
      initial_state).1 = (Resolved tt, initial_state))
  ∧ meeClient (initMee_of OnDynamic Scenario.no_switch_world Sample.connected_wallet true
                 initial_state).1.2 = Some (MeeClientHandle 1).
Proof.
  destruct (chain_switch_gates_privy_initialisation_only Scenario.no_switch_world
              Scenario.no_switch_world Sample.fair_world Sample.connected_wallet
              initial_state Sample.captured_address (Error "Unsupported chain"))
    as [Hprivy Hdynamic].
  destruct (Hprivy eq_refl eq_refl) as [Hstate _].
  destruct Hdynamic as [Hsame _].
  { repeat split. }
  split; [exact Hstate|]. rewrite Hsame. reflexivity.
Defined.

(** X12. [initMee] stays idle exactly when its guards say so: with a
    client already in the state, without a wallet address, on the Para
    page while not connected, on the Dynamic page with a wallet that is
    not an Ethereum wallet.  An idle run makes no call and leaves the
    state as it is; any other run makes a call. *)
Theorem initMee_idle_exactly_when_guarded
    (p : page) (w : World) (wallet : option Wallet) (isConnected : bool) (st : PageState) :
  (calls_of (initMee_of p w wallet isConnected st).2 = []
   ↔ init_starts p wallet isConnected st = None)
  ∧ (init_starts p wallet isConnected st = None →
     (initMee_of p w wallet isConnected st).1 = (Resolved tt, st)).
Proof.
  split; [split|].
  - intros Hcalls. destruct (init_starts p wallet isConnected st) as [a|] eqn:Hstart;
      [|reflexivity].
    destruct (initMee_busy p w wallet isConnected st a Hstart Hcalls).
  - intros Hstart. apply (initMee_idle p w wallet isConnected st Hstart).
  - intros Hstart. apply (initMee_idle p w wallet isConnected st Hstart).
Qed.

Lemma initMee_idle_exactly_when_guarded_witness :
  (initMee_of OnDynamic Sample.fair_world
     (Some {| wallet_address := Some Sample.captured_address; isEthereumWallet := false |})
     true initial_state).1 = (Resolved tt, initial_state).
Proof.
  apply (initMee_idle_exactly_when_guarded OnDynamic Sample.fair_world
           (Some {| wallet_address := Some Sample.captured_address;
                    isEthereumWallet := false |}) true initial_state).
  reflexivity.
Defined.


(** ** [fetchBalance] and the poll *)

Import Balance.

Lemma with_balance_same (st : PageState) : with_balance (balance st) st = st.
Proof. destruct st; reflexivity. Qed.

(** A read settles, whatever the world answers; it leaves the state with
    the balance of [balance_after], and its one call is the request. *)
Lemma fetchBalance_run (w : World) (wallet : option Wallet) (st : PageState) :
  (Page.fetchBalance w wallet st).1
  = (Resolved tt, with_balance (balance_after w wallet (balance st)) st)
  ∧ calls_of (Page.fetchBalance w wallet st).2
    = match address_of wallet with
      | Some address => [CallFetch (balance_request address)]
      | None => []
      end.
Proof.
  unfold Page.fetchBalance, balance_after, balance_reply, and_then.
  destruct (address_of wallet) as [address|];
    [|simpl; rewrite with_balance_same; split; reflexivity].
  unfold bind, try_catch, snapshot, ret, emit, set, setStatus, await, lift,
    console_log, console_error, spawn; simpl.
  destruct (fetch w (balance_request address)) as [response|]; simpl;
    [|rewrite with_balance_same; split; reflexivity].
  destruct (json response) as [data|]; simpl;
    [|rewrite with_balance_same; split; reflexivity].
  destruct (get_property data "result") as [result|]; simpl;
    [|rewrite with_balance_same; split; reflexivity].
  destruct (truthy result); simpl; [|rewrite with_balance_same; split; reflexivity].
  destruct (BigInt w result); simpl; [split; reflexivity|].
  rewrite with_balance_same; split; reflexivity.
Qed.


Lemma fetches_app (t1 t2 : list event) : fetches (t1 ++ t2) = fetches t1 ++ fetches t2.
Proof. apply omap_app. Qed.

Lemma fetchBalance_fetches (w : World) (wallet : option Wallet) (st : PageState) :
  fetches (Page.fetchBalance w wallet st).2
  = match address_of wallet with
    | Some address => [balance_request address]
    | None => []
    end
  ∧ unhandled (Page.fetchBalance w wallet st).2 = [].
Proof.
  unfold Page.fetchBalance.
  destruct (address_of wallet) as [address|]; [|split; reflexivity].
  run_handler; try destruct (truthy _); settle; split; reflexivity.
Qed.

(** The poll, tick by tick. *)
Lemma poll_from_run (ticks : list World) (wallet : option Wallet) :
  ∀ (k : nat) (st : PageState),
    (poll_from k ticks wallet st).1
    = (Resolved tt, with_balance (polled_balance ticks wallet (balance st)) st)
    ∧ fetches (poll_from k ticks wallet st).2
      = match address_of wallet with
        | Some address => replicate (length ticks) (balance_request address)
        | None => []
        end
    ∧ unhandled (poll_from k ticks wallet st).2 = [].
Proof.
  induction ticks as [|w later IH]; intros k st.
  - simpl. rewrite with_balance_same. destruct (address_of wallet); repeat split.
  - destruct (fetchBalance_run w wallet st) as [Hstate _].
    destruct (fetchBalance_fetches w wallet st) as [Hfetch Hunhandled].
    simpl. unfold bind, emit, spawn.
    destruct (Page.fetchBalance w wallet st) as [[o st1] t1]. simpl in Hstate, Hfetch, Hunhandled.
    injection Hstate as -> ->.
    specialize (IH (S k) (with_balance (balance_after w wallet (balance st)) st)).
    destruct (poll_from (S k) later wallet _) as [[o2 st2] t2].
    destruct IH as (IHstate & IHfetch & IHunhandled). simpl in *.
    injection IHstate as -> ->.
    split; [reflexivity|]. rewrite fetches_app, unhandled_app, Hfetch, Hunhandled, IHfetch,
      IHunhandled.
    destruct (address_of wallet); split; reflexivity.
Qed.

(** X13. A read of the balance cannot fail and cannot disturb the page:
    whatever the network, the parser and [BigInt] answer, [fetchBalance]
    settles without an error, sends the one [eth_call] request for the
    wallet's address (none without an address), and leaves a state that
    differs from the one it found in the balance at most; the balance
    changes only to a value [BigInt] returned for a truthy [result]. *)
Theorem balance_read_touches_balance_only
    (w : World) (wallet : option Wallet) (st : PageState) :
  let run := Page.fetchBalance w wallet st in
  run.1.1 = Resolved tt
  ∧ run.1.2 = with_balance (balance run.1.2) st
  ∧ fetches run.2 = balance_request <$> option_list (address_of wallet)
  ∧ unhandled run.2 = []
  ∧ (balance run.1.2 ≠ balance st →
     ∃ address b,
       address_of wallet = Some address
       ∧ balance_reply w address = Resolved (Some b)
       ∧ balance run.1.2 = Some b).
Proof.
  intros run. subst run.
  destruct (fetchBalance_run w wallet st) as [Hstate _].
  destruct (fetchBalance_fetches w wallet st) as [Hfetch Hunhandled].
  rewrite Hstate, Hfetch, Hunhandled. simpl.
  split; [reflexivity|]. split; [reflexivity|].
  split; [destruct (address_of wallet); reflexivity|]. split; [reflexivity|].
  unfold balance_after. intros Hchanged.
  destruct (address_of wallet) as [address|]; [|contradiction].
  destruct (balance_reply w address) as [[b|]|] eqn:Hreply; try contradiction.
  exists address, b. repeat split. exact Hreply.
Qed.

Lemma balance_read_touches_balance_only_witness :
  balance (Page.fetchBalance Sample.fair_world Sample.connected_wallet initial_state).1.2
  = Some 1000000.
Proof.
  destruct (balance_read_touches_balance_only Sample.fair_world Sample.connected_wallet
              initial_state) as (_ & _ & _ & _ & Hchanged).
  destruct Hchanged as (address & b & Haddress & Hreply & Hbalance).
  - vm_compute. discriminate.
  - rewrite Hbalance. vm_compute in Hreply. injection Hreply as <-. reflexivity.
Defined.

(** X14. The poll shows the last balance it could read.  It sends one
    request per tick, no tick ends in an unhandled rejection, and the
    state it leaves differs from the one it found in the balance at
    most, which is the one read by the last tick that read one: a tick
    that reads a balance overrides what was there, a later tick that
    fails keeps it. *)
Theorem poll_keeps_last_balance_read
    (ticks : list World) (wallet : option Wallet) (st : PageState)
    (w failing : World) (address : string) (b : Z) :
  address_of wallet = Some address →
  balance_reply w address = Resolved (Some b) →
  is_resolved (balance_reply failing address) = false →
  (poll (ticks ++ [w; failing]) wallet st).1 = (Resolved tt, with_balance (Some b) st)
  ∧ fetches (poll (ticks ++ [w; failing]) wallet st).2
    = replicate (length ticks + 2) (balance_request address)
  ∧ unhandled (poll (ticks ++ [w; failing]) wallet st).2 = [].
Proof.
  intros Haddress Hreply Hfails. unfold poll.
  destruct (poll_from_run (ticks ++ [w; failing]) wallet O st) as (Hstate & Hfetch & Hun).
  rewrite Hstate, Hfetch, Hun, Haddress, length_app. simpl.
  split; [|split; reflexivity].
  unfold polled_balance. rewrite foldl_app. simpl.
  unfold balance_after at 1 2. rewrite Haddress, Hreply.
  destruct (balance_reply failing address) as [[b'|]|]; try discriminate; reflexivity.
Qed.

Lemma poll_keeps_last_balance_read_witness :
  balance (poll [Sample.offline_world; Sample.fair_world; Sample.offline_world]
             Sample.connected_wallet initial_state).1.2 = Some 1000000.
Proof.
  destruct (poll_keeps_last_balance_read [Sample.offline_world] Sample.connected_wallet
              initial_state Sample.fair_world Sample.offline_world Sample.captured_address
              1000000 eq_refl eq_refl eq_refl) as (Hstate & _).
  simpl app in Hstate. rewrite Hstate. reflexivity.
Defined.


(** ** Sessions *)

Import Session.

Lemma spawn_run (m : M unit) (st : PageState) :
  (spawn m st).1.1 = Resolved tt
  ∧ (spawn m st).1.2 = (m st).1.2
  ∧ unhandled (spawn m st).2
    = unhandled (m st).2 ++ match (m st).1.1 with Rejected e => [e] | Resolved _ => [] end.
Proof.
  unfold spawn. destruct (m st) as [[[[]|e] st1] t1]; simpl.
  - rewrite app_nil_r. repeat split.
  - rewrite unhandled_app. repeat split.
Qed.

(** On a list of strings [executeTransfers] settles, and nothing in it is
    left unhandled. *)
Lemma executeTransfers_settles (p : page) (w : World) (wallet : option Wallet)
    (st : PageState) :
  strings (recipients st) →
  (executeTransfers_of p w wallet st).1.1 = Resolved tt
  ∧ unhandled (executeTransfers_of p w wallet st).2 = [].
Proof.
  intros [ss Hss]. rewrite executeTransfers_shaped. unfold executeTransfers_shape.
  destruct (orchestrator st) as [orch|]; [|split; reflexivity].
  destruct (meeClient st) as [mee|]; [|split; reflexivity].
  destruct (wallet_present p wallet); [|split; reflexivity].
  rewrite Hss, validRecipients_of_strings.
  destruct (length _ =? 0)%nat; [split; reflexivity|].
  destruct (caught_flow_run w orch mee (Str <$> List.filter (λ r, negb (blank r)) ss)
              (apply_update (SetStatus (Some "Preparing transaction...")) st))
    as (st' & t & -> & Hresult).
  destruct Hresult. unfold after. simpl.
  split; [reflexivity|].
  change (unhandled (switch_trace p w ++ t) = []).
  rewrite unhandled_app, unhandled_switch. assumption.
Qed.

(** [initMee] settles too. *)
Lemma initMee_settles (p : page) (w : World) (wallet : option Wallet) (isConnected : bool)
    (st : PageState) :
  (initMee_of p w wallet isConnected st).1.1 = Resolved tt
  ∧ unhandled (initMee_of p w wallet isConnected st).2 = [].
Proof.
  destruct p; unfold initMee_of.
  - unfold PrivyPage.initMee, bind, snapshot; simpl.
    destruct (address_of wallet); [|split; reflexivity].
    destruct (meeClient st); [split; reflexivity|].
    run_handler; split; reflexivity.
  - unfold ParaPage.initMee, bind, snapshot; simpl.
    destruct (address_of wallet), isConnected; try (split; reflexivity).
    destruct (meeClient st); [split; reflexivity|].
    run_handler; split; reflexivity.
  - unfold DynamicPage.initMee, bind, snapshot; simpl.
    destruct (address_of wallet); [|split; reflexivity].
    destruct wallet as [connected|]; [|split; reflexivity].
    destruct (meeClient st); [split; reflexivity|].
    destruct (isEthereumWallet connected); simpl; [|split; reflexivity].
    run_handler; split; reflexivity.
Qed.


(** ** The recipient handlers on lists of strings *)

Lemma spread_strings (ss : list string) : spread (Str <$> ss) = Str <$> ss.
Proof. unfold spread. induction ss as [|s ss IH]; [reflexivity|]. cbn. f_equal. exact IH. Qed.

Lemma insert_strings (ss : list string) (n : nat) (v : string) :
  <[n := Str v]> (Str <$> ss) = Str <$> <[n := v]> ss.
Proof. symmetry. apply list_fmap_insert. Qed.

Lemma handleRecipientChange_strings (ss : list string) (index : Z) (value : string) :
  0 ≤ index < Z.of_nat (length ss) → index < 2 ^ 32 - 1 →
  handleRecipientChange (Str <$> ss) index value = Str <$> <[Z.to_nat index := value]> ss.
Proof.
  intros Hrange Hindex. unfold handleRecipientChange, array_set, is_array_index.
  rewrite spread_strings, length_fmap.
  destruct (Z.leb_spec 0 index); [|lia].
  destruct (Z.ltb_spec index (2 ^ 32 - 1)); [|lia]. cbn [andb].
  destruct (Nat.ltb_spec (Z.to_nat index) (length ss)); [|lia].
  apply insert_strings.
Qed.

Lemma addRecipient_strings (ss : list string) :
  addRecipient (Str <$> ss) = Str <$> (ss ++ [""]).
Proof. unfold addRecipient. rewrite spread_strings, fmap_app. reflexivity. Qed.

(** The filter of [removeRecipient], scanned from index [i]. *)
Lemma filter_from_strings (index : Z) (ss : list string) :
  ∀ i : Z,
    filter_from (λ _ j, negb (j =? index)) i (Str <$> ss)
    = Str <$> (if (i <=? index) && (index <? i + Z.of_nat (length ss))
               then delete (Z.to_nat (index - i)) ss else ss).
Proof.
  induction ss as [|s ss IH]; intros i.
  - cbn. destruct (_ && _); reflexivity.
  - cbn [fmap list_fmap filter_from is_hole]. change (list_fmap _ _ Str ss) with (Str <$> ss).
    rewrite IH. cbn [length].
    destruct (Z.eqb_spec i index) as [->|Hne]; cbn [negb].
    + destruct (Z.leb_spec index index); [|lia].
      destruct (Z.ltb_spec index (index + Z.of_nat (S (length ss)))); [|lia].
      destruct (Z.leb_spec (index + 1) index); [lia|]. cbn [andb].
      replace (index - index) with 0 by lia. reflexivity.
    + destruct (Z.leb_spec (i + 1) index), (Z.leb_spec i index); try lia; cbn [andb].
      * destruct (Z.ltb_spec index (i + 1 + Z.of_nat (length ss))),
          (Z.ltb_spec index (i + Z.of_nat (S (length ss)))); try lia; [|reflexivity].
        replace (Z.to_nat (index - i)) with (S (Z.to_nat (index - (i + 1)))) by lia.
        reflexivity.
      * reflexivity.
Qed.

Lemma removeRecipient_strings (ss : list string) (index : Z) :
  removeRecipient (Str <$> ss) index
  = Str <$> (if (1 <? length ss)%nat && (0 <=? index) && (index <? Z.of_nat (length ss))
             then delete (Z.to_nat index) ss else ss).
Proof.
  unfold removeRecipient, Array_filter. rewrite length_fmap.
  destruct (1 <? length ss)%nat; [|reflexivity].
  rewrite filter_from_strings. cbn [andb]. replace (index - 0) with index by lia.
  reflexivity.
Qed.

(** An action leaves a list of strings a list of strings, offered or
    not past the end being the difference: an index past the end makes
    holes. *)
Lemma act_strings (rs : list slot) (a : recipient_action) :
  strings rs → offered rs a → strings (act rs a).
Proof.
  intros [ss ->] Hoffered. destruct a as [index value| |index]; simpl in *.
  - rewrite length_fmap in Hoffered.
    unfold handleRecipientChange, array_set. rewrite spread_strings, length_fmap.
    destruct (is_array_index index); [|exists ss; reflexivity].
    destruct (Nat.ltb_spec (Z.to_nat index) (length ss)); [|lia].
    exists (<[Z.to_nat index := value]> ss). apply insert_strings.
  - eexists. apply addRecipient_strings.
  - eexists. apply removeRecipient_strings.
Qed.


(** X15. On a list of strings the handlers of the recipient rows do what
    the rows show: a change of a row that is shown replaces that entry
    and no other, [addRecipient] appends one empty row, and
    [removeRecipient] deletes the row it is given, the later rows moving
    up, unless that row is the only one. *)
Theorem row_edits_are_exact (ss : list string) (index : Z) (value : string) :
  0 ≤ index < Z.of_nat (length ss) → Z.of_nat (length ss) ≤ 2 ^ 32 - 1 →
  handleRecipientChange (Str <$> ss) index value = Str <$> <[Z.to_nat index := value]> ss
  ∧ addRecipient (Str <$> ss) = Str <$> (ss ++ [""])
  ∧ removeRecipient (Str <$> ss) index
    = Str <$> (if (1 <? length ss)%nat then delete (Z.to_nat index) ss else ss).
Proof.
  intros Hrange Hlength.
  split; [apply handleRecipientChange_strings; lia|].
  split; [apply addRecipient_strings|].
  rewrite removeRecipient_strings.
  destruct (Z.leb_spec 0 index); [|lia].
  destruct (Z.ltb_spec index (Z.of_nat (length ss))); [|lia].
  rewrite !andb_true_r. reflexivity.
Qed.

Lemma row_edits_are_exact_witness :
  handleRecipientChange (Str <$> Sample.two_recipients) 1 "0xdef"
  = Str <$> ["0xabc0000000000000000000000000000000000001"; "0xdef"]
  ∧ removeRecipient (Str <$> Sample.two_recipients) 0
    = Str <$> ["0xabc0000000000000000000000000000000000002"].
Proof.
  destruct (row_edits_are_exact Sample.two_recipients 1 "0xdef") as (Hchange & _ & _);
    [simpl; lia|simpl; lia|].
  destruct (row_edits_are_exact Sample.two_recipients 0 "") as (_ & _ & Hremove);
    [simpl; lia|simpl; lia|].
  split; [exact Hchange|exact Hremove].
Defined.

(** X16. The edits of the rows can be undone.  Removing the row that
    [addRecipient] just added gives the list back; so does changing a
    row back to the text it had; and a removal at an index that names no
    row changes nothing. *)
Theorem row_edits_can_be_undone (ss : list string) (index : Z) (old value : string) :
  ss ≠ [] → Z.of_nat (length ss) < 2 ^ 32 - 1 →
  removeRecipient (addRecipient (Str <$> ss)) (Z.of_nat (length ss)) = Str <$> ss
  ∧ (0 ≤ index → ss !! Z.to_nat index = Some old →
     handleRecipientChange (handleRecipientChange (Str <$> ss) index value) index old
     = Str <$> ss)
  ∧ (index < 0 ∨ Z.of_nat (length ss) ≤ index →
     removeRecipient (Str <$> ss) index = Str <$> ss).
Proof.
  intros Hrows Hlength. split; [|split].
  - rewrite addRecipient_strings, removeRecipient_strings, length_app. cbn [length].
    destruct ss as [|s ss]; [contradiction|]. cbn [length] in *.
    destruct (Nat.ltb_spec 1 (S (length ss) + 1)); [|lia].
    destruct (Z.leb_spec 0 (Z.of_nat (S (length ss)))); [|lia].
    destruct (Z.ltb_spec (Z.of_nat (S (length ss))) (Z.of_nat (S (length ss) + 1))); [|lia].
    cbn [andb]. rewrite Nat2Z.id. f_equal.
    change (S (length ss)) with (length (s :: ss)).
    generalize (s :: ss). clear. intros l.
    induction l as [|x l IH]; [reflexivity|]. cbn. f_equal. exact IH.
  - intros Hindex Hold. apply lookup_lt_Some in Hold as Hlt.
    rewrite handleRecipientChange_strings by lia.
    rewrite handleRecipientChange_strings by (rewrite ?length_insert; lia).
    rewrite list_insert_insert_eq, list_insert_id by exact Hold. reflexivity.
  - intros Hout. rewrite removeRecipient_strings.
    destruct (1 <? length ss)%nat; [|reflexivity]. cbn [andb].
    destruct (Z.leb_spec 0 index); [|reflexivity].
    destruct (Z.ltb_spec index (Z.of_nat (length ss))); [lia|reflexivity].
Qed.

Lemma row_edits_can_be_undone_witness :
  removeRecipient (addRecipient (Str <$> Sample.two_recipients)) 2
  = Str <$> Sample.two_recipients.
Proof.
  destruct (row_edits_can_be_undone Sample.two_recipients 0 "" "") as (Hundo & _ & _);
    [discriminate|simpl; lia|exact Hundo].
Defined.


(** ** What holds throughout a session *)

(** [initMee] leaves recipients and balance alone, keeps a client that is
    there together with its account, and stores no client without an
    account. *)
Lemma initMee_frame (p : page) (w : World) (wallet : option Wallet) (isConnected : bool)
    (st : PageState) :
  recipients (initMee_of p w wallet isConnected st).1.2 = recipients st
  ∧ balance (initMee_of p w wallet isConnected st).1.2 = balance st
  ∧ (is_Some (meeClient st) → (initMee_of p w wallet isConnected st).1.2 = st)
  ∧ (coherent st → coherent (initMee_of p w wallet isConnected st).1.2).
Proof.
  destruct (init_starts p wallet isConnected st) as [a|] eqn:Hstart.
  - destruct (initMee_run p w wallet isConnected st a Hstart)
      as (_ & Horch & Hmee & _ & Hrec & Hbal & _).
    split; [exact Hrec|]. split; [exact Hbal|]. split.
    + intros [c Hc]. unfold init_starts in Hstart. rewrite Hc in Hstart. discriminate.
    + intros _. unfold coherent. rewrite Horch, Hmee. unfold init_client, and_then.
      destruct (init_account p w a); [intros _; eexists; reflexivity|].
      intros [c Hc]. discriminate.
  - destruct (initMee_idle p w wallet isConnected st Hstart) as [Hidle _].
    rewrite Hidle. repeat split. intros Hcoherent. exact Hcoherent.
Qed.

(** One happening: the handler settles; the recipients change by an edit
    only; the balance by a tick only; client and account by the effect
    only. *)
Lemma handler_step (p : page) (wallet : option Wallet) (isConnected : bool)
    (h : happening) (st : PageState) :
  (handler p wallet isConnected h st).1.1 = Resolved tt
  ∧ recipients (handler p wallet isConnected h st).1.2
    = match h with Edit a => act (recipients st) a | _ => recipients st end
  ∧ balance (handler p wallet isConnected h st).1.2
    = match h with Tick w => balance_after w wallet (balance st) | _ => balance st end
  ∧ (is_Some (meeClient st) →
     meeClient (handler p wallet isConnected h st).1.2 = meeClient st
     ∧ orchestrator (handler p wallet isConnected h st).1.2 = orchestrator st)
  ∧ (coherent st → coherent (handler p wallet isConnected h st).1.2).
Proof.
  destruct h as [w|w|a|w]; unfold handler.
  - destruct (spawn_run (initMee_of p w wallet isConnected) st) as (-> & -> & _).
    destruct (initMee_frame p w wallet isConnected st) as (Hrec & Hbal & Hkeep & Hcoh).
    split; [reflexivity|]. split; [exact Hrec|]. split; [exact Hbal|].
    split; [|exact Hcoh]. intros Hclient. rewrite (Hkeep Hclient). split; reflexivity.
  - destruct (spawn_run (Page.fetchBalance w wallet) st) as (-> & -> & _).
    destruct (fetchBalance_run w wallet st) as [-> _]. simpl. repeat split.
    intros Hcoherent. exact Hcoherent.
  - unfold edit, bind, snapshot, set, ret.
    destruct a as [index value| |index]; simpl; try (repeat split; intros H; exact H).
    unfold removeRecipient.
    destruct (1 <? length (recipients st))%nat; simpl; repeat split; intros H; exact H.
  - destruct (spawn_run (executeTransfers_of p w wallet) st) as (-> & -> & _).
    destruct (executeTransfers_frame p w wallet st) as (Hrec & Hbal & Hmee & Horch).
    split; [reflexivity|]. split; [exact Hrec|]. split; [exact Hbal|].
    split; [intros _; split; assumption|].
    unfold coherent. rewrite Hmee, Horch. intros H; exact H.
Qed.

(** A session, unfolded by one happening. *)
Lemma happen_cons (p : page) (wallet : option Wallet) (isConnected : bool)
    (h : happening) (later : list happening) (st : PageState) :
  happen p wallet isConnected (h :: later) st
  = (let st1 := (handler p wallet isConnected h st).1.2 in
     ((happen p wallet isConnected later st1).1.1,
      (happen p wallet isConnected later st1).1.2,
      (handler p wallet isConnected h st).2 ++ (happen p wallet isConnected later st1).2)).
Proof.
  destruct (handler_step p wallet isConnected h st) as (Hres & _).
  cbn [happen]. unfold bind.
  destruct (handler p wallet isConnected h st) as [[o st1] t1]. simpl in Hres. subst o.
  simpl. destruct (happen p wallet isConnected later st1) as [[r st2] t2]. reflexivity.
Qed.

(** X17. The parts of the page's state do not interfere.  After any
    sequence of effect runs, poll ticks, edits and payments, each run to
    its end, the list of recipients is what the edits alone make of it,
    and the balance is what the ticks alone make of it: no payment and
    no initialisation, failed or not, changes a row or the balance.
    The sequence itself always runs to its end. *)
Theorem session_parts_do_not_interfere
    (p : page) (wallet : option Wallet) (isConnected : bool) (hs : list happening) :
  ∀ st : PageState,
    (happen p wallet isConnected hs st).1.1 = Resolved tt
    ∧ recipients (happen p wallet isConnected hs st).1.2
      = session (edits hs) (recipients st)
    ∧ balance (happen p wallet isConnected hs st).1.2
      = polled_balance (ticks hs) wallet (balance st).
Proof.
  induction hs as [|h later IH]; intros st; [repeat split|].
  rewrite happen_cons. cbn zeta. cbn [fst snd].
  destruct (handler_step p wallet isConnected h st) as (_ & Hrec & Hbal & _).
  destruct (IH (handler p wallet isConnected h st).1.2) as (IHres & IHrec & IHbal).
  rewrite IHres, IHrec, IHbal, Hrec, Hbal.
  split; [reflexivity|]. destruct h; split; reflexivity.
Qed.

(** X18. Client and account through a session.  Starting from the fresh
    page, whatever happens and however the calls fail, a client is
    never stored without an account, so that with a wallet the first
    guard of [executeTransfers] passes as soon as the Pay Now button is
    enabled; and a client that is stored stays, with its account, for
    the rest of the session. *)
Theorem client_comes_with_account_and_stays
    (p : page) (wallet : option Wallet) (isConnected : bool) (hs : list happening) :
  ∀ st : PageState,
    coherent st →
    let st' := (happen p wallet isConnected hs st).1.2 in
    coherent st'
    ∧ (is_Some (meeClient st') → initialised p wallet st' = wallet_present p wallet)
    ∧ (is_Some (meeClient st) →
       meeClient st' = meeClient st ∧ orchestrator st' = orchestrator st).
Proof.
  induction hs as [|h later IH]; intros st Hcoherent.
  - simpl. split; [exact Hcoherent|]. split; [|intros _; split; reflexivity].
    intros Hclient. destruct (Hcoherent Hclient) as [account Haccount].
    destruct Hclient as [client Hclient]. unfold initialised.
    rewrite Haccount, Hclient. reflexivity.
  - rewrite happen_cons. cbn zeta. cbn [fst snd].
    destruct (handler_step p wallet isConnected h st) as (_ & _ & _ & Hkeep & Hcoh).
    destruct (IH (handler p wallet isConnected h st).1.2 (Hcoh Hcoherent))
      as (IHcoh & IHguard & IHkeep).
    split; [exact IHcoh|]. split; [exact IHguard|].
    intros Hclient. destruct (Hkeep Hclient) as [Hmee Horch].
    destruct IHkeep as [IHmee IHorch]; [rewrite Hmee; exact Hclient|].
    rewrite IHmee, IHorch. split; assumption.
Qed.

Lemma client_comes_with_account_and_stays_witness :
  initialised OnPara Sample.connected_wallet
    (happen OnPara Sample.connected_wallet true
       [Effect Scenario.no_client_world; Edit Add; Effect Sample.fair_world;
        Pay Sample.offline_world; Tick Sample.fair_world] initial_state).1.2
  = true.
Proof.
  destruct (client_comes_with_account_and_stays OnPara Sample.connected_wallet true
              [Effect Scenario.no_client_world; Edit Add; Effect Sample.fair_world;
               Pay Sample.offline_world; Tick Sample.fair_world] initial_state)
    as (_ & Hguard & _).
  - intros [client Hclient]. discriminate.
  - rewrite Hguard; [reflexivity|]. vm_compute. eexists. reflexivity.
Defined.

(** The handlers leave nothing unhandled on a list of strings. *)
Lemma handler_unhandled (p : page) (wallet : option Wallet) (isConnected : bool)
    (h : happening) (st : PageState) :
  strings (recipients st) →
  unhandled (handler p wallet isConnected h st).2 = [].
Proof.
  intros Hstrings. destruct h as [w|w|a|w]; unfold handler.
  - destruct (spawn_run (initMee_of p w wallet isConnected) st) as (_ & _ & ->).
    destruct (initMee_settles p w wallet isConnected st) as [-> ->]. reflexivity.
  - destruct (spawn_run (Page.fetchBalance w wallet) st) as (_ & _ & ->).
    destruct (fetchBalance_run w wallet st) as [-> _].
    destruct (fetchBalance_fetches w wallet st) as [_ ->]. reflexivity.
  - unfold edit, bind, snapshot, set, ret.
    destruct a as [index value| |index]; simpl; try reflexivity.
    destruct (1 <? length (recipients st))%nat; reflexivity.
  - destruct (spawn_run (executeTransfers_of p w wallet) st) as (_ & _ & ->).
    destruct (executeTransfers_settles p w wallet st Hstrings) as [-> ->]. reflexivity.
Qed.

(** X19. With the edits the page offers, no handler is ever left with an
    unhandled rejection.  From a list of strings, as the fresh page has
    it, and with changes and removals on rows that are shown, every
    later list is a list of strings, whatever effect runs, ticks and
    payments come between; and on a list of strings [initMee],
    [fetchBalance] and [executeTransfers] catch every error of every
    call, so that the trace of the session holds no unhandled
    rejection. *)
Theorem offered_edits_leave_nothing_unhandled
    (p : page) (wallet : option Wallet) (isConnected : bool) (hs : list happening) :
  ∀ st : PageState,
    strings (recipients st) →
    offered_throughout p wallet isConnected hs st →
    strings (recipients (happen p wallet isConnected hs st).1.2)
    ∧ unhandled (happen p wallet isConnected hs st).2 = [].
Proof.
  induction hs as [|h later IH]; intros st Hstrings Hoffered;
    [split; [exact Hstrings|reflexivity]|].
  rewrite happen_cons. cbn zeta. cbn [fst snd].
  destruct Hoffered as [Hh Hlater].
  destruct (handler_step p wallet isConnected h st) as (_ & Hrec & _).
  assert (Hnext : strings (recipients (handler p wallet isConnected h st).1.2)).
  { rewrite Hrec. destruct h; try exact Hstrings. apply act_strings; assumption. }
  destruct (IH _ Hnext Hlater) as [IHstrings IHunhandled].
  split; [exact IHstrings|].
  rewrite unhandled_app, IHunhandled, (handler_unhandled _ _ _ _ _ Hstrings). reflexivity.
Qed.

Lemma offered_edits_leave_nothing_unhandled_witness :
  unhandled (happen OnPrivy Sample.connected_wallet true
               [Edit Add; Edit (Change 1 "0xabc"); Effect Sample.offline_world;
                Pay Sample.fair_world; Edit (Remove 0); Effect Sample.fair_world;
                Pay Sample.offline_world] initial_state).2 = [].
Proof.
  apply (offered_edits_leave_nothing_unhandled OnPrivy Sample.connected_wallet true
           [Edit Add; Edit (Change 1 "0xabc"); Effect Sample.offline_world;
            Pay Sample.fair_world; Edit (Remove 0); Effect Sample.fair_world;
            Pay Sample.offline_world] initial_state).
  - exists [""]. reflexivity.
  - vm_compute. repeat split; try discriminate.
Defined.


(** ** The Dynamic adapter's [{ account, ...typedData }] *)

Import Adapters.

Lemma assoc_set_field (k k' : string) (v : value) (fields : list (string * value)) :
  assoc k' (set_field k v fields) = if String.eqb k' k then Some v else assoc k' fields.
Proof.
  induction fields as [|[k0 v0] rest IH]; simpl.
  - destruct (String.eqb k' k); reflexivity.
  - destruct (String.eqb_spec k k0) as [->|Hne]; simpl.
    + destruct (String.eqb k' k0); reflexivity.
    + rewrite IH. destruct (String.eqb_spec k' k0) as [->|Hne'].
      * destruct (String.eqb_spec k0 k); [congruence|reflexivity].
      * reflexivity.
Qed.

Lemma assoc_app (k : string) (l1 l2 : list (string * value)) :
  assoc k (l1 ++ l2) = match assoc k l1 with Some v => Some v | None => assoc k l2 end.
Proof.
  induction l1 as [|[k0 v0] l1 IH]; [reflexivity|]. simpl.
  destruct (String.eqb k k0); [reflexivity|exact IH].
Qed.

(** Reading a property of [{ ...a, ...b }]: what [b] wrote last, and
    what [a] has otherwise. *)
Lemma assoc_object_spread (k : string) (b : list (string * value)) :
  ∀ a, assoc k (object_spread a b)
       = match written k b with Some v => Some v | None => assoc k a end.
Proof.
  unfold object_spread, written.
  induction b as [|[k0 v0] b IH]; intros a; [reflexivity|].
  cbn [foldl fst snd]. rewrite IH, reverse_cons, assoc_app, assoc_set_field. simpl.
  destruct (assoc k (reverse b)); [reflexivity|].
  destruct (String.eqb k k0); reflexivity.
Qed.

(** X20. What the Dynamic adapter hands to the wallet client's
    [signTypedData] is one object: every property of the typed data as
    the payload has it, and an [account] that is the wallet client's
    own account unless the payload has an [account] property itself, in
    which case the payload's wins.  The call settles as the wallet
    client settles on that object. *)
Theorem dynamic_typed_data_argument
    (walletClient : WalletClient) (address : string) (typedData : list (string * value)) :
  ∃ arg,
    typed_data_args (Dynamic.signTypedData walletClient address typedData).2 = [arg]
    ∧ (Dynamic.signTypedData walletClient address typedData).1
      = wc_signTypedData walletClient arg
    ∧ assoc "account" arg
      = Some (default (of_option_string (wc_account walletClient))
                (written "account" typedData))
    ∧ (∀ k, k ≠ "account" → assoc k arg = written k typedData).
Proof.
  eexists. split; [reflexivity|]. split; [reflexivity|]. split.
  - rewrite assoc_object_spread. destruct (written "account" typedData); reflexivity.
  - intros k Hk. rewrite assoc_object_spread.
    destruct (written k typedData); [reflexivity|]. simpl.
    destruct (String.eqb_spec k "account"); [contradiction|reflexivity].
Qed.

Lemma dynamic_typed_data_argument_witness :
  ∃ arg,
    typed_data_args (Dynamic.signTypedData Sample.other_session_wallet
                       Sample.captured_address
                       [("primaryType", VString "Permit"); ("account", VString "0xother")]).2
    = [arg]
    ∧ assoc "account" arg = Some (VString "0xother")
    ∧ assoc "primaryType" arg = Some (VString "Permit").
Proof.
  destruct (dynamic_typed_data_argument Sample.other_session_wallet Sample.captured_address
              [("primaryType", VString "Permit"); ("account", VString "0xother")])
    as (arg & Hargs & _ & Haccount & Hother).
  exists arg. split; [exact Hargs|]. split; [exact Haccount|].
  apply (Hother "primaryType"). discriminate.
Defined.


(** ** The Biconomy page *)

Section OnBiconomy.
Import Biconomy BiconomyFlow.

Lemma addBaseToWallet_run (w : World) (st : State) :
  addBaseToWallet w st = (switched w, st, switch_trace w).
Proof.
  unfold addBaseToWallet, switched, switch_trace, ethereum_request, try_catch, await, lift.
  destruct (ethereum_defined w); [|reflexivity].
  destruct (wallet_switchEthereumChain w base_chainId) as [[]|e]; [reflexivity|].
  destruct (bool_decide (code e = Some 4902)); reflexivity.
Qed.


Lemma alerts_app (t1 t2 : list event) : alerts (t1 ++ t2) = alerts t1 ++ alerts t2.
Proof. apply omap_app. Qed.

Lemma logs_app (t1 t2 : list event) : logs (t1 ++ t2) = logs t1 ++ logs t2.
Proof. apply omap_app. Qed.

Lemma builds_app (t1 t2 : list event) : builds (t1 ++ t2) = builds t1 ++ builds t2.
Proof. apply omap_app. Qed.

Lemma biconomy_calls_of_app (t1 t2 : list event) :
  BiconomyFlow.calls_of (t1 ++ t2) = BiconomyFlow.calls_of t1 ++ BiconomyFlow.calls_of t2.
Proof. apply omap_app. Qed.

(** [addBaseToWallet] is silent: it neither logs nor alerts, and builds
    nothing. *)
Lemma switch_trace_silent (w : World) :
  alerts (BiconomyFlow.switch_trace w) = []
  ∧ logs (BiconomyFlow.switch_trace w) = []
  ∧ builds (BiconomyFlow.switch_trace w) = [].
Proof.
  unfold BiconomyFlow.switch_trace. destruct (ethereum_defined w); [|repeat split].
  destruct (wallet_switchEthereumChain w base_chainId) as [[]|e]; [repeat split|].
  destruct (bool_decide (code e = Some 4902)); repeat split.
Qed.

Arguments alerts : simpl never.
Arguments logs : simpl never.
Arguments builds : simpl never.
Arguments BiconomyFlow.switch_trace : simpl never.

Lemma alerts_cons (ev : event) (t : list event) :
  alerts (ev :: t) = match ev with Alert msg => [msg] | _ => [] end ++ alerts t.
Proof. destruct ev; reflexivity. Qed.

Lemma logs_cons (ev : event) (t : list event) :
  logs (ev :: t) = match ev with AddLog msg => [msg] | _ => [] end ++ logs t.
Proof. destruct ev; reflexivity. Qed.

Lemma builds_cons (ev : event) (t : list event) :
  builds (ev :: t)
  = match ev with Called (BuildComposable a c) => [(a, c)] | _ => [] end ++ builds t.
Proof. destruct ev as [| | |[]|]; reflexivity. Qed.

Ltac quiet_switch_with w known :=
  let Halerts := fresh "Halerts" in
  let Hlogs := fresh "Hlogs" in
  let Hbuilds := fresh "Hbuilds" in
  destruct (switch_trace_silent w) as (Halerts & Hlogs & Hbuilds);
  cbn [fst snd];
  repeat first [rewrite alerts_cons | rewrite logs_cons | rewrite builds_cons
               | rewrite alerts_app | rewrite logs_app | rewrite builds_app];
  rewrite ?Halerts, ?Hlogs, ?Hbuilds;
  known;
  cbn [app]; rewrite ?app_nil_r;
  unfold alerts, logs, builds; simpl.

Ltac quiet_switch w := quiet_switch_with w idtac.

(** A run of [connectAndInit] with a browser wallet. *)
Lemma connectAndInit_run (w : World) (st : State) :
  ethereum_defined w = true →
  (connectAndInit w st).1.1 = Fulfilled tt
  ∧ walletClient (connectAndInit w st).1.2 = Some (ViemClient None)
  ∧ account (connectAndInit w st).1.2
    = match first_address w with Fulfilled a => a | Failed _ => account st end
  ∧ orchestrator (connectAndInit w st).1.2
    = match connect_account w with Fulfilled a => Some a | Failed _ => orchestrator st end
  ∧ meeClient (connectAndInit w st).1.2
    = match connect_client w with Fulfilled c => Some c | Failed _ => meeClient st end
  ∧ meeScanLink (connectAndInit w st).1.2 = meeScanLink st
  ∧ recipients (connectAndInit w st).1.2 = recipients st
  ∧ alerts (connectAndInit w st).2 = []
  ∧ last (logs (connectAndInit w st).2)
    = Some match connect_client w with
           | Fulfilled _ => "SYSTEM READY. MEE Client initialized."
           | Failed err => "ERROR: " +:+ template (message (what err))
           end.
Proof.
  intros Hdefined. unfold connectAndInit, connect_client, connect_account, first_address,
    and_then. rewrite Hdefined. cbn [negb].
  unfold try_catch, bind, addLog, set, emit, await, lift. cbn beta iota.
  destruct (requestAddresses w) as [addresses|e]; cbn; [|repeat split].
  destruct (head addresses) as [address|]; cbn; [|repeat split].
  rewrite addBaseToWallet_run.
  destruct (switched w) as [[]|e]; cbn; [|repeat split; quiet_switch w; reflexivity].
  destruct (toMultichainNexusAccount w _) as [multiAccount|e]; cbn;
    [|repeat split; quiet_switch w; reflexivity].
  destruct (createMeeClient w multiAccount) as [mee|e]; cbn;
    repeat split; quiet_switch w; reflexivity.
Qed.


Lemma has_length_nonempty (s : string) : (0 <? str_length s) = negb (String.eqb s "").
Proof. destruct s; reflexivity. Qed.

(** On a list of strings, [validRecipients] is the list of those that
    are not the empty string. *)
Lemma biconomy_validRecipients_of_strings (rs : list string) :
  Biconomy.validRecipients_of (Str <$> rs) = Fulfilled (Str <$> nonempty_rows rs).
Proof.
  induction rs as [|r rs IH]; [reflexivity|].
  cbn [fmap list_fmap Biconomy.validRecipients_of is_hole has_length].
  change (list_fmap _ _ Str rs) with (Str <$> rs). rewrite IH, has_length_nonempty.
  unfold nonempty_rows. cbn [List.filter]. destruct (negb (String.eqb r "")); reflexivity.
Qed.

(** The calls [Promise.all] makes for the rows. *)
Lemma build_trace (w : World) (orch : Page.MultichainSmartAccount) (rows : list string) :
  let t := (λ c : call * settled Page.Instruction, Called c.1)
             <$> ((λ recipient,
                     (BuildComposable orch (Page.transfer_call recipient),
                      buildComposable w orch (Page.transfer_call recipient)))
                    <$> (Str <$> rows)) in
  builds t = (λ r, (orch, Page.transfer_call (Str r))) <$> rows
  ∧ logs t = [] ∧ alerts t = []
  ∧ all_fulfilled (settles_first w) (snd <$> ((λ recipient,
                     (BuildComposable orch (Page.transfer_call recipient),
                      buildComposable w orch (Page.transfer_call recipient)))
                    <$> (Str <$> rows)))
    = built w orch rows.
Proof.
  cbn zeta. split; [|split; [|split]].
  - induction rows as [|r rows IH]; [reflexivity|].
    cbn [fmap list_fmap fst]. rewrite builds_cons. cbn [app]. f_equal. exact IH.
  - induction rows as [|r rows IH]; [reflexivity|].
    cbn [fmap list_fmap fst]. rewrite logs_cons. exact IH.
  - induction rows as [|r rows IH]; [reflexivity|].
    cbn [fmap list_fmap fst]. rewrite alerts_cons. exact IH.
  - unfold built. rewrite <- !list_fmap_compose. reflexivity.
Qed.


(** A run of [executeTransfers] on a connected page with rows of which
    one at least is not empty. *)
Lemma biconomy_transfer_run (w : World) (st : State) (rs : list string)
    (orch : Page.MultichainSmartAccount) (mee : Page.MeeClient) :
  orchestrator st = Some orch → meeClient st = Some mee → no_account st = false →
  recipients st = Str <$> rs → nonempty_rows rs ≠ [] →
  (executeTransfers w st).1
  = (Fulfilled tt,
     match executed w orch mee (nonempty_rows rs) with
     | Fulfilled hash => apply_update (SetMeeScanLink (getMeeScanLink w hash)) st
     | Failed _ => st
     end)
  ∧ builds (executeTransfers w st).2
    = (if is_fulfilled (switched w)
       then (λ r, (orch, Page.transfer_call (Str r))) <$> nonempty_rows rs else [])
  ∧ alerts (executeTransfers w st).2 = []
  ∧ last (logs (executeTransfers w st).2)
    = Some match confirmed w orch mee (nonempty_rows rs) with
           | Fulfilled _ => "SUCCESS: Transaction confirmed on-chain."
           | Failed err => "ERROR: " +:+ message_or_error err
           end.
Proof.
  intros Horch Hmee Haccount Hrows Hnonempty.
  unfold executeTransfers, confirmed, executed, and_then.
  destruct (build_trace w orch (nonempty_rows rs)) as (Hbuilt & Hblogs & Hbalerts & Hall).
  cbn zeta in Hbuilt, Hblogs, Hbalerts.
  unfold try_catch, bind, snapshot, addLog, set, emit, await, lift, Promise_all.
  cbn beta iota.
  rewrite Horch, Hmee, Haccount, Hrows, biconomy_validRecipients_of_strings.
  cbn beta iota. rewrite addBaseToWallet_run.
  destruct (switched w) as [[]|e]; cbn [is_fulfilled];
    [|repeat split; quiet_switch w; reflexivity].
  rewrite length_fmap.
  destruct (Nat.eqb_spec (length (nonempty_rows rs)) 0) as [Hzero|_];
    [destruct (nonempty_rows rs); [contradiction|discriminate]|].
  rewrite Hall.
  destruct (built w orch (nonempty_rows rs)) as [transfers|e]; cbn beta iota.
  - destruct (getFusionQuote w mee _) as [fusionQuote|e]; cbn beta iota.
    + destruct (executeFusionQuote w mee fusionQuote) as [hash|e]; cbn beta iota.
      * destruct (waitForSupertransactionReceipt w mee hash) as [[]|e]; cbn beta iota.
        all: split; [reflexivity|].
        all: quiet_switch_with w ltac:(rewrite ?Hbuilt, ?Hblogs, ?Hbalerts).
        all: repeat split.
      * split; [reflexivity|].
        quiet_switch_with w ltac:(rewrite ?Hbuilt, ?Hblogs, ?Hbalerts). repeat split.
    + split; [reflexivity|].
      quiet_switch_with w ltac:(rewrite ?Hbuilt, ?Hblogs, ?Hbalerts). repeat split.
  - split; [reflexivity|].
    quiet_switch_with w ltac:(rewrite ?Hbuilt, ?Hblogs, ?Hbalerts). repeat split.
Qed.




(** X22. A connection that fails after the wallet granted an address
    strands the page.  The account is set, so the page shows the
    dashboard and the Connect button is gone; the client is not, so the
    dashboard says that it is initialising, with Pay Now disabled; and
    nothing but the console tells the user of the error. *)
Theorem biconomy_failed_connection_strands_the_page
    (w : World) (st : State) (address : string) (others : list string) :
  ethereum_defined w = true →
  requestAddresses w = Fulfilled (address :: others) → address ≠ "" →
  meeClient st = None →
  is_fulfilled (connect_client w) = false →
  ∃ d, BiconomyExample (connectAndInit w st).1.2 = DashboardView d
       ∧ initializing_notice d = true
       ∧ pay_disabled d = true
       ∧ pay_label d = "Setting up secure channel..."
       ∧ alerts (connectAndInit w st).2 = [].
Proof.
  intros Hdefined Hgranted Haddress Hfresh Hfailed.
  destruct (connectAndInit_run w st Hdefined)
    as (_ & _ & Haccount & _ & Hmee & _ & _ & Halerts & _).
  unfold first_address, and_then in Haccount. rewrite Hgranted in Haccount.
  destruct (connect_client w) as [client|err]; [discriminate|].
  unfold BiconomyExample. rewrite Haccount, Hmee, Hfresh. cbn [head].
  assert (Hshown : Config.falsy (Some address) = false).
  { unfold Config.falsy, Config.or_empty. apply String.eqb_neq. exact Haddress. }
  rewrite Hshown. eexists. split; [reflexivity|]. repeat split. exact Halerts.
Qed.

Lemma biconomy_failed_connection_strands_the_page_witness :
  ∃ d, BiconomyExample
         (connectAndInit (granting Sample.captured_address (Fulfilled tt)
                            (Failed (plain (Error "MEE node unreachable"))) (Fulfilled tt))
            initial_state).1.2 = DashboardView d
       ∧ pay_disabled d = true.
Proof.
  destruct (biconomy_failed_connection_strands_the_page
              (granting Sample.captured_address (Fulfilled tt)
                 (Failed (plain (Error "MEE node unreachable"))) (Fulfilled tt))
              initial_state Sample.captured_address [])
    as (d & Hview & _ & Hdisabled & _); try reflexivity; [discriminate|].
  exists d. split; [exact Hview|exact Hdisabled].
Defined.


(** X23. On the Biconomy page a transfer waits for the chain.
    [executeTransfers] alerts and does nothing else while the page is
    not initialised.  Otherwise it first asks the wallet to switch to
    Base, adding the chain when the wallet reports code 4902; when that
    fails, the transfer ends there: no instruction is built, the state
    is as it was, and the error goes to the console. *)
Theorem biconomy_transfer_waits_for_the_chain
    (w : World) (st : State) (rs : list string)
    (orch : Page.MultichainSmartAccount) (mee : Page.MeeClient) :
  (BiconomyFlow.initialised st = false →
   Biconomy.executeTransfers w st = (Fulfilled tt, st, [Alert "Account not initialized"]))
  ∧ (orchestrator st = Some orch → meeClient st = Some mee → no_account st = false →
     recipients st = Str <$> rs → nonempty_rows rs ≠ [] →
     ∀ err, switched w = Failed err →
       (Biconomy.executeTransfers w st).1 = (Fulfilled tt, st)
       ∧ builds (Biconomy.executeTransfers w st).2 = []
       ∧ last (logs (Biconomy.executeTransfers w st).2)
         = Some ("ERROR: " +:+ message_or_error err)).
Proof.
  split.
  - unfold BiconomyFlow.initialised, Biconomy.executeTransfers, bind, snapshot.
    cbn beta iota. intros Hguard.
    destruct (orchestrator st); [|reflexivity].
    destruct (meeClient st); [|reflexivity].
    destruct (no_account st); [reflexivity|discriminate].
  - intros Horch Hmee Haccount Hrows Hnonempty err Hswitch.
    destruct (biconomy_transfer_run w st rs orch mee Horch Hmee Haccount Hrows Hnonempty)
      as (Hstate & Hbuilds & _ & Hlast).
    rewrite Hstate, Hbuilds, Hlast. unfold confirmed, executed, and_then.
    rewrite Hswitch. repeat split.
Qed.

Lemma biconomy_transfer_waits_for_the_chain_witness :
  builds (Biconomy.executeTransfers
            (granting Sample.captured_address (Failed user_rejected)
               (Fulfilled (Page.MeeClientHandle 1)) (Fulfilled tt))
            (connected (Str <$> Sample.two_recipients))).2 = []
  ∧ builds (Biconomy.executeTransfers
              (granting Sample.captured_address (Failed unknown_chain)
                 (Fulfilled (Page.MeeClientHandle 1)) (Fulfilled tt))
              (connected (Str <$> Sample.two_recipients))).2 ≠ [].
Proof.
  destruct (biconomy_transfer_waits_for_the_chain
              (granting Sample.captured_address (Failed user_rejected)
                 (Fulfilled (Page.MeeClientHandle 1)) (Fulfilled tt))
              (connected (Str <$> Sample.two_recipients)) Sample.two_recipients
              (Page.NexusAccount 1) (Page.MeeClientHandle 1)) as [_ Hswitch].
  destruct (Hswitch eq_refl eq_refl eq_refl eq_refl) with (err := user_rejected)
    as (_ & Hbuilds & _); [discriminate|reflexivity|].
  split; [exact Hbuilds|]. vm_compute. discriminate.
Defined.

Lemma nonblank_is_nonempty (r : string) : blank r = false → String.eqb r "" = false.
Proof. destruct r; [intros H; vm_compute in H; discriminate|reflexivity]. Qed.

(** X24. The Biconomy page pays rows of white space.  Its filter keeps
    every row that is not the empty string, where the provider pages
    keep the rows that are not blank: once the chain is switched it
    builds one transfer per such row, to the text as typed.  Every row
    the provider pages would pay it pays too, and a row that holds
    white space only is paid here and skipped there. *)
Theorem biconomy_pays_rows_of_white_space
    (w : World) (st : State) (rs : list string)
    (orch : Page.MultichainSmartAccount) (mee : Page.MeeClient) :
  orchestrator st = Some orch → meeClient st = Some mee → no_account st = false →
  recipients st = Str <$> rs → nonempty_rows rs ≠ [] →
  is_fulfilled (switched w) = true →
  builds (Biconomy.executeTransfers w st).2
  = (λ r, (orch, Shape.usdc_transfer_to r)) <$> nonempty_rows rs
  ∧ Page.validRecipients_of (Str <$> rs) = Resolved (Str <$> Page.nonblank_entries rs)
  ∧ (∀ r, r ∈ Page.nonblank_entries rs → r ∈ nonempty_rows rs)
  ∧ (∀ r, r ∈ rs → r ≠ "" → blank r = true →
       r ∈ nonempty_rows rs ∧ r ∉ Page.nonblank_entries rs).
Proof.
  intros Horch Hmee Haccount Hrows Hnonempty Hswitch.
  destruct (biconomy_transfer_run w st rs orch mee Horch Hmee Haccount Hrows Hnonempty)
    as (_ & Hbuilds & _).
  rewrite Hbuilds, Hswitch. split; [reflexivity|].
  split; [apply validRecipients_of_strings|].
  unfold Page.nonblank_entries, nonempty_rows. split.
  - intros r Hr. apply list_elem_of_In, List.filter_In in Hr as [Hin Hnonblank].
    apply list_elem_of_In, List.filter_In. split; [exact Hin|].
    apply negb_true_iff in Hnonblank. rewrite (nonblank_is_nonempty r Hnonblank).
    reflexivity.
  - intros r Hin Hne Hblank. split.
    + apply list_elem_of_In, List.filter_In. split; [apply list_elem_of_In, Hin|].
      apply negb_true_iff, String.eqb_neq, Hne.
    + intros Hr. apply list_elem_of_In, List.filter_In in Hr as [_ Hnonblank].
      rewrite Hblank in Hnonblank. discriminate.
Qed.

Lemma biconomy_pays_rows_of_white_space_witness :
  builds (Biconomy.executeTransfers
            (granting Sample.captured_address (Fulfilled tt)
               (Fulfilled (Page.MeeClientHandle 1)) (Fulfilled tt))
            (connected [Str "  "; Str ""])).2
  = [(Page.NexusAccount 1, Shape.usdc_transfer_to "  ")]
  ∧ Page.validRecipients_of [Str "  "; Str ""] = Resolved [].
Proof.
  destruct (biconomy_pays_rows_of_white_space
              (granting Sample.captured_address (Fulfilled tt)
                 (Fulfilled (Page.MeeClientHandle 1)) (Fulfilled tt))
              (connected [Str "  "; Str ""]) ["  "; ""]
              (Page.NexusAccount 1) (Page.MeeClientHandle 1))
    as (Hbuilds & Hvalid & _); try reflexivity; [discriminate|].
  split; [exact Hbuilds|exact Hvalid].
Defined.

(** X25. On the Biconomy page the banner "Payment Successful!" follows
    the execution, not the receipt.  After a transfer the link is the
    one of the hash that [executeFusionQuote] returned, if the transfer
    got that far, and the one the page had otherwise; the dashboard
    shows the banner whenever a link is set.  So a transfer whose
    receipt never comes shows the banner while its last log line is an
    error. *)
Theorem biconomy_banner_follows_execution
    (w : World) (st : State) (rs : list string) (address : string)
    (orch : Page.MultichainSmartAccount) (mee : Page.MeeClient) :
  orchestrator st = Some orch → meeClient st = Some mee →
  account st = Some address → address ≠ "" →
  recipients st = Str <$> rs → nonempty_rows rs ≠ [] →
  ∃ d, BiconomyExample (Biconomy.executeTransfers w st).1.2 = DashboardView d
       ∧ (∀ hash, executed w orch mee (nonempty_rows rs) = Fulfilled hash →
            getMeeScanLink w hash ≠ "" →
            payment_successful d = Some (getMeeScanLink w hash)
            ∧ (∀ err, waitForSupertransactionReceipt w mee hash = Failed err →
                 last (logs (Biconomy.executeTransfers w st).2)
                 = Some ("ERROR: " +:+ message_or_error err)))
       ∧ (is_fulfilled (executed w orch mee (nonempty_rows rs)) = false →
          BiconomyExample (Biconomy.executeTransfers w st).1.2 = BiconomyExample st).
Proof.
  intros Horch Hmee Haccount Haddress Hrows Hnonempty.
  assert (Hshown : Config.falsy (Some address) = false).
  { unfold Config.falsy, Config.or_empty. apply String.eqb_neq. exact Haddress. }
  assert (Hno : no_account st = false) by (unfold no_account; rewrite Haccount; exact Hshown).
  destruct (biconomy_transfer_run w st rs orch mee Horch Hmee Hno Hrows Hnonempty)
    as (Hstate & _ & _ & Hlast).
  rewrite Hstate, Hlast. cbn [fst snd]. unfold confirmed, and_then.
  destruct (executed w orch mee (nonempty_rows rs)) as [hash|err] eqn:Hexec.
  - unfold BiconomyExample. cbn [apply_update account meeClient meeScanLink recipients].
    rewrite Haccount, Hshown. eexists. split; [reflexivity|]. split; [|discriminate].
    intros hash' Hhash Hlink. injection Hhash as <-.
    cbn [payment_successful]. split.
    + assert (Hset : Config.falsy (Some (getMeeScanLink w hash)) = false).
      { unfold Config.falsy, Config.or_empty. apply String.eqb_neq. exact Hlink. }
      rewrite Hset. reflexivity.
    + intros err Hreceipt. rewrite Hreceipt. reflexivity.
  - unfold BiconomyExample. rewrite Haccount, Hshown. eexists.
    split; [reflexivity|]. split; [discriminate|]. reflexivity.
Qed.

Lemma biconomy_banner_follows_execution_witness :
  ∃ d, BiconomyExample
         (Biconomy.executeTransfers
            (granting Sample.captured_address (Fulfilled tt)
               (Fulfilled (Page.MeeClientHandle 1))
               (Failed (plain Scenario.timeout_error)))
            (connected (Str <$> Sample.two_recipients))).1.2 = DashboardView d
       ∧ payment_successful d = Some "https://meescan.biconomy.io/details/0xhash"
       ∧ last (logs (Biconomy.executeTransfers
                       (granting Sample.captured_address (Fulfilled tt)
                          (Fulfilled (Page.MeeClientHandle 1))
                          (Failed (plain Scenario.timeout_error)))
                       (connected (Str <$> Sample.two_recipients))).2)
         = Some "ERROR: Timed out waiting for receipt".
Proof.
  destruct (biconomy_banner_follows_execution
              (granting Sample.captured_address (Fulfilled tt)
                 (Fulfilled (Page.MeeClientHandle 1))
                 (Failed (plain Scenario.timeout_error)))
              (connected (Str <$> Sample.two_recipients)) Sample.two_recipients
              Sample.captured_address (Page.NexusAccount 1) (Page.MeeClientHandle 1))
    as (d & Hview & Hexecuted & _); try reflexivity; try discriminate.
  destruct (Hexecuted "0xhash") as [Hbanner Hlog]; [reflexivity|discriminate|].
  exists d. split; [exact Hview|]. split; [exact Hbanner|].
  apply (Hlog (plain Scenario.timeout_error)). reflexivity.
Defined.

End OnBiconomy.


(** ** The status line *)

Import StatusLine.




(** ** The email login of the Privy page *)

Import PrivyLogin.

(** X27. An error of the email login never leaves the form stuck.
    [handleSendCode] moves the form to the code step exactly when
    [sendCode] resolved; when it rejected, the form is the one the user
    clicked in, with the error under it, styled as an error.
    [handleLogin] clears the status when [loginWithCode] resolved and
    otherwise keeps the code step, with the error under it.  "Use
    Different Email" brings the form back to the email step, the email
    kept and the code and the status cleared. *)
Theorem login_errors_leave_the_form_usable
    (sendCode loginWithCode : string → outcome unit) (st : LoginState) :
  (∀ err, sendCode (email st) = Rejected err →
     login_form (handleSendCode sendCode st)
     = {| email_disabled := email_disabled (login_form st);
          send_code_button := send_code_button (login_form st);
          verify_button := verify_button (login_form st);
          different_email_button := different_email_button (login_form st);
          message := Some {| className := "status-message status-error";
                             text := "Error: " +:+ template (Js.message err) |} |})
  ∧ (is_resolved (sendCode (email st)) = true →
     codeSent (handleSendCode sendCode st) = true
     ∧ verify_button (login_form (handleSendCode sendCode st))
       = Some (String.eqb (code st) "")
     ∧ send_code_button (login_form (handleSendCode sendCode st)) = None)
  ∧ (∀ err, loginWithCode (code st) = Rejected err →
     login_form (handleLogin loginWithCode st)
     = {| email_disabled := email_disabled (login_form st);
          send_code_button := send_code_button (login_form st);
          verify_button := verify_button (login_form st);
          different_email_button := different_email_button (login_form st);
          message := Some {| className := "status-message status-error";
                             text := "Error: " +:+ template (Js.message err) |} |})
  ∧ (is_resolved (loginWithCode (code st)) = true →
     message (login_form (handleLogin loginWithCode st)) = None)
  ∧ login_form (useDifferentEmail (handleSendCode sendCode st))
    = {| email_disabled := false;
         send_code_button := Some (String.eqb (email st) "");
         verify_button := None;
         different_email_button := false;
         message := None |}
  ∧ useDifferentEmail (handleSendCode sendCode st)
    = {| email := email st; code := ""; codeSent := false; status := None |}.
Proof.
  unfold handleSendCode, handleLogin, useDifferentEmail, login_form.
  split; [|split; [|split; [|split; [|split]]]].
  - intros err ->. reflexivity.
  - destruct (sendCode (email st)); [repeat split|discriminate].
  - intros err ->. reflexivity.
  - destruct (loginWithCode (code st)); [reflexivity|discriminate].
  - destruct (sendCode (email st)); reflexivity.
  - destruct (sendCode (email st)); reflexivity.
Qed.

Lemma login_errors_leave_the_form_usable_witness :
  send_code_button
    (login_form (handleSendCode (λ _, Rejected (Error "Invalid email address"))
                   (setEmail "you@example" initial_login))) = Some false
  ∧ message
      (login_form (handleSendCode (λ _, Rejected (Error "Invalid email address"))
                     (setEmail "you@example" initial_login)))
    = Some {| className := "status-message status-error";
              text := "Error: Invalid email address" |}.
Proof.
  destruct (login_errors_leave_the_form_usable
              (λ _, Rejected (Error "Invalid email address")) (λ _, Resolved tt)
              (setEmail "you@example" initial_login)) as (Hfailed & _).
  rewrite (Hfailed (Error "Invalid email address") eq_refl). split; reflexivity.
Defined.
